(** * Node session of the telemetry backend: consensus view, backfill,
      cache pruning, best/finalized block tracking and disconnects.

    Shallow embedding of [packages/backend/src/Node.ts].  Block heights are
    natural numbers (the keys of the consensus cache, array indices below
    2^32 - 1 and ordinary keys from there on), clock readings and durations
    are integers in milliseconds, every JavaScript exception is the [None]
    of the option monad. *)

From Stdlib Require Import ZArith Lia.
From stdpp Require Import base option list sorting gmap strings fin_maps.

Local Open Scope Z_scope.
Local Open Scope nat_scope.

(** ** Data model *)

Definition BlockNumber := nat.
Definition BlockHash := string.
Definition Address := string.

(** [Block]: an immutable (number, hash) pair; [Block.ZERO] has number 0
    and the empty hash. *)
Record Block := mkBlock { number : BlockNumber; hash : BlockHash }.

Definition Block_ZERO : Block := mkBlock 0 EmptyString.

(** [Types.ConsensusInfo], as the fields that an object has of its own: a
    field that was never assigned is absent, hence [false] for the flags
    (the code assigns them [true] only) and [None] for the others. *)
Record ConsensusInfo := mkInfo {
  Prevote : bool;
  Precommit : bool;
  Finalized : bool;
  ImplicitPrevote : bool;
  ImplicitPrecommit : bool;
  ImplicitFinalized : bool;
  FinalizedHash : option BlockHash;
  FinalizedHeight : option BlockNumber;
  ImplicitPointer : option BlockNumber
}.

(** The object literal [{} as Types.ConsensusInfo]. *)
Definition emptyInfo : ConsensusInfo :=
  mkInfo false false false false false false None None None.

#[global] Instance ConsensusInfo_eq_dec : EqDecision ConsensusInfo.
Proof. solve_decision. Defined.

Definition set_Prevote (i : ConsensusInfo) : ConsensusInfo :=
  mkInfo true (Precommit i) (Finalized i) (ImplicitPrevote i)
    (ImplicitPrecommit i) (ImplicitFinalized i) (FinalizedHash i)
    (FinalizedHeight i) (ImplicitPointer i).

Definition set_Precommit (i : ConsensusInfo) : ConsensusInfo :=
  mkInfo (Prevote i) true (Finalized i) (ImplicitPrevote i)
    (ImplicitPrecommit i) (ImplicitFinalized i) (FinalizedHash i)
    (FinalizedHeight i) (ImplicitPointer i).

Definition set_Finalized (i : ConsensusInfo) : ConsensusInfo :=
  mkInfo (Prevote i) (Precommit i) true (ImplicitPrevote i)
    (ImplicitPrecommit i) (ImplicitFinalized i) (FinalizedHash i)
    (FinalizedHeight i) (ImplicitPointer i).

Definition set_ImplicitPrevote (i : ConsensusInfo) : ConsensusInfo :=
  mkInfo (Prevote i) (Precommit i) (Finalized i) true
    (ImplicitPrecommit i) (ImplicitFinalized i) (FinalizedHash i)
    (FinalizedHeight i) (ImplicitPointer i).

Definition set_ImplicitPrecommit (i : ConsensusInfo) : ConsensusInfo :=
  mkInfo (Prevote i) (Precommit i) (Finalized i) (ImplicitPrevote i)
    true (ImplicitFinalized i) (FinalizedHash i)
    (FinalizedHeight i) (ImplicitPointer i).

Definition set_ImplicitFinalized (i : ConsensusInfo) : ConsensusInfo :=
  mkInfo (Prevote i) (Precommit i) (Finalized i) (ImplicitPrevote i)
    (ImplicitPrecommit i) true (FinalizedHash i)
    (FinalizedHeight i) (ImplicitPointer i).

Definition set_FinalizedHash (h : BlockHash) (i : ConsensusInfo) : ConsensusInfo :=
  mkInfo (Prevote i) (Precommit i) (Finalized i) (ImplicitPrevote i)
    (ImplicitPrecommit i) (ImplicitFinalized i) (Some h)
    (FinalizedHeight i) (ImplicitPointer i).

Definition set_FinalizedHeight (n : BlockNumber) (i : ConsensusInfo) : ConsensusInfo :=
  mkInfo (Prevote i) (Precommit i) (Finalized i) (ImplicitPrevote i)
    (ImplicitPrecommit i) (ImplicitFinalized i) (FinalizedHash i)
    (Some n) (ImplicitPointer i).

Definition set_ImplicitPointer (n : BlockNumber) (i : ConsensusInfo) : ConsensusInfo :=
  mkInfo (Prevote i) (Precommit i) (Finalized i) (ImplicitPrevote i)
    (ImplicitPrecommit i) (ImplicitFinalized i) (FinalizedHash i)
    (FinalizedHeight i) (Some n).

(** A row of the consensus view: an object literal keyed by the voter
    address. *)
Abbreviation ConsensusRow := (gmap Address ConsensusInfo).

(** [ConsensusView]: height -> voter address -> [ConsensusInfo].  The
    source keeps it in an array ([consensusCache = []]) whose rows are
    object literals, so a row answers [in] and a member access also for
    the names that it inherits from [Object.prototype].  The model holds
    - [rows]: the own keys of the array, each with its row;
    - [created]: for every own key the rank of the assignment that created
      it ([Object.keys] lists the keys that are no array index in the order
      of their creation);
    - [prototype_fields]: the fields that assignments have left on
      [Object.prototype] itself, which a row reaches under the name
      [__proto__];
    - [builtin_fields]: the fields that assignments have left on the
      built-in members of [Object.prototype], which a row reaches under
      names such as [constructor]. *)
Record ConsensusView := mkView {
  rows : gmap BlockNumber ConsensusRow;
  created : gmap BlockNumber nat;
  prototype_fields : ConsensusInfo;
  builtin_fields : gmap Address ConsensusInfo
}.

(** [this.consensusCache[height]] for a height: the own row. *)
#[global] Instance view_lookup : Lookup BlockNumber ConsensusRow ConsensusView :=
  λ height c, rows c !! height.

(** The number of own keys. *)
#[global] Instance view_size : Size ConsensusView := λ c, size (rows c).

(** The array literal [[]] in a runtime whose [Object.prototype] carries
    no field of a record. *)
#[global] Instance view_empty : Empty ConsensusView := mkView ∅ ∅ emptyInfo ∅.

(** The rank that the next created key gets: above every rank in use. *)
Definition next_rank (c : ConsensusView) : nat :=
  S (max_list ((map_to_list (created c)).*2)).

(** [this.consensusCache[height] = row]: a key that is not there yet is
    created, after every key that is there. *)
#[global] Instance view_insert : Insert BlockNumber ConsensusRow ConsensusView :=
  λ height row c,
    mkView (<[height := row]> (rows c))
      (match rows c !! height with
       | Some _ => created c
       | None => <[height := next_rank c]> (created c)
       end)
      (prototype_fields c) (builtin_fields c).

(** [delete this.consensusCache[k]]. *)
#[global] Instance view_delete : Delete BlockNumber ConsensusView :=
  λ k c,
    mkView (delete k (rows c)) (delete k (created c))
      (prototype_fields c) (builtin_fields c).

(** An array index is an integer from 0 to 2^32 - 2. *)
Definition is_array_index (k : BlockNumber) : bool :=
  bool_decide (N.of_nat k < 4294967295)%N.

Definition rank (c : ConsensusView) (k : BlockNumber) : nat :=
  default 0 (created c !! k).

(** The order in which [Object.keys] lists two own keys: the array indices
    come first, in ascending order; the other keys follow in the order of
    their creation (two keys of equal rank, which no sequence of
    assignments produces, by height). *)
Definition key_le (c : ConsensusView) (a b : BlockNumber) : Prop :=
  match is_array_index a, is_array_index b with
  | true, true => a ≤ b
  | true, false => True
  | false, true => False
  | false, false => rank c a < rank c b ∨ (rank c a = rank c b ∧ a ≤ b)
  end.

#[global] Instance key_le_dec c a b : Decision (key_le c a b).
Proof.
  unfold key_le. destruct (is_array_index a), (is_array_index b); apply _.
Defined.

(** [Object.keys(this.consensusCache)]: the heights that have a row, in
    the order of [key_le]. *)
Definition Object_keys (c : ConsensusView) : list BlockNumber :=
  merge_sort (key_le c) (elements (dom (rows c))).

(** The function-valued members of [Object.prototype] (as the V8 runtime
    of Node.js has them); [__proto__], its accessor, is treated apart. *)
Definition builtin_members : list Address :=
  [ "constructor"; "__defineGetter__"; "__defineSetter__"; "hasOwnProperty";
    "__lookupGetter__"; "__lookupSetter__"; "isPrototypeOf";
    "propertyIsEnumerable"; "toString"; "valueOf"; "toLocaleString" ]%string.

(** Whether [name] is the name of a field of [Types.ConsensusInfo] that
    is set in [p]. *)
Definition has_field (name : Address) (p : ConsensusInfo) : bool :=
  if decide (name = "Prevote"%string) then Prevote p
  else if decide (name = "Precommit"%string) then Precommit p
  else if decide (name = "Finalized"%string) then Finalized p
  else if decide (name = "ImplicitPrevote"%string) then ImplicitPrevote p
  else if decide (name = "ImplicitPrecommit"%string) then ImplicitPrecommit p
  else if decide (name = "ImplicitFinalized"%string) then ImplicitFinalized p
  else if decide (name = "FinalizedHash"%string)
       then bool_decide (is_Some (FinalizedHash p))
  else if decide (name = "FinalizedHeight"%string)
       then bool_decide (is_Some (FinalizedHeight p))
  else if decide (name = "ImplicitPointer"%string)
       then bool_decide (is_Some (ImplicitPointer p))
  else false.

(** What a name that is no own key of a row evaluates to through
    [Object.prototype]: a built-in function, the prototype object itself
    (the name [__proto__]), or a boolean, string or number that an earlier
    assignment stored on the prototype. *)
Inductive Inherited :=
| BuiltinMember
| PrototypeItself
| StoredValue.

#[global] Instance Inherited_eq_dec : EqDecision Inherited.
Proof. solve_decision. Defined.

Definition inherited (addr : Address) (c : ConsensusView) : option Inherited :=
  if decide (addr = "__proto__"%string) then Some PrototypeItself
  else if decide (addr ∈ builtin_members) then Some BuiltinMember
  else if has_field addr (prototype_fields c) then Some StoredValue
  else None.

(** [addr in row]: an own key of the row, or a name that it inherits. *)
Definition in_row (addr : Address) (row : ConsensusRow) (c : ConsensusView) : bool :=
  bool_decide (is_Some (row !! addr)) || bool_decide (is_Some (inherited addr c)).

(** JavaScript truthiness of a [Maybe<Types.Address>]: [null] and the empty
    string are falsy. *)
Definition truthy (a : option Address) : bool :=
  match a with
  | Some (String _ _) => true
  | _ => false
  end.

(** [String(a)] for a [Maybe<Types.Address>]: [String(null)] is the
    four-letter string null. *)
Definition String_of (a : option Address) : Address :=
  match a with
  | Some s => s
  | None => "null"%string
  end.

(** [this.consensusCache[z]] for a JavaScript number [z]; a negative index
    is no height of the cache and reads as [undefined]. *)
Definition row_at (c : ConsensusView) (z : Z) : option ConsensusRow :=
  if (0 <=? z)%Z then c !! Z.to_nat z else None.

(** ** The consensus view *)

(** [initialiseConsensusView(height, addr)]. *)
Definition initialiseConsensusView (height : BlockNumber) (addr : option Address)
    (c : ConsensusView) : ConsensusView :=
  let c1 := match c !! height with
            | Some _ => c
            | None => <[height := ∅]> c
            end in
  match addr with
  | Some a =>
      if truthy addr then
        match c1 !! height with
        | Some row =>
            if in_row a row c1 then c1
            else <[height := <[a := emptyInfo]> row]> c1
        | None => c1
        end
      else c1
  | None => c1
  end.

(** An assignment [this.consensusCache[height][addr].field = v], as the
    update [g] of the fields of the object that [addr] names in the row:
    the record of the row, or, under a name that the row only inherits,
    the built-in member or [Object.prototype] itself.  A missing row
    throws a [TypeError], and so does the assignment when the name is
    missing from the row and its prototype ([undefined]) or names a stored
    boolean, string or number (a module is strict-mode code, where an
    assignment to a property of a primitive value throws). *)
Definition update_info (height : BlockNumber) (addr : Address)
    (g : ConsensusInfo → ConsensusInfo) (c : ConsensusView) : option ConsensusView :=
  row ← c !! height;
  match row !! addr with
  | Some info => Some (<[height := <[addr := g info]> row]> c)
  | None =>
      match inherited addr c with
      | Some BuiltinMember =>
          Some (mkView (rows c) (created c) (prototype_fields c)
                  (<[addr := g (default emptyInfo (builtin_fields c !! addr))]>
                     (builtin_fields c)))
      | Some PrototypeItself =>
          Some (mkView (rows c) (created c) (g (prototype_fields c))
                  (builtin_fields c))
      | Some StoredValue | None => None
      end
  end.

(** A continuation predicate [f] of [backfill]: a closure over the node
    that may read and write the consensus cache, may throw, and answers
    whether to go on. *)
Definition Predicate := BlockNumber → ConsensusView → option (bool * ConsensusView).

(** The [while (cont && from-- > 0)] loop of [backfill], entered with
    [cont = true]; the recursion is on [from].  When the test fails at
    [from = 0] the post-decrement still runs and leaves [from = -1], so the
    returned number is an integer. *)
Fixpoint backfill_loop (voter : option Address) (firstBlockNumber : option BlockNumber)
    (f : option Predicate) (from : nat) (c : ConsensusView) : option (Z * ConsensusView) :=
  match from with
  | O => Some ((-1)%Z, c)
  | S i =>
      match c !! i with
      | Some _ => Some (Z.of_nat i, c)
      | None =>
          let c1 := initialiseConsensusView i voter c in
          match (match f with
                 | Some g => g i c1
                 | None => Some (true, c1)
                 end) with
          | None => None
          | Some (cont, c2) =>
              if decide (Some i = firstBlockNumber) then Some (Z.of_nat i, c2)
              else if cont then backfill_loop voter firstBlockNumber f i c2
              else Some (Z.of_nat i, c2)
          end
      end
  end.

(** [backfill(voter, from, f)]: the returned block number and the cache
    it leaves. *)
Definition backfill (voter : option Address) (from : BlockNumber)
    (f : option Predicate) (c : ConsensusView) : option (Z * ConsensusView) :=
  if negb (truthy voter) then Some (Z.of_nat from, c)
  else if decide (length (Object_keys c) ≤ 1) then Some (Z.of_nat from, c)
  else match row_at c (Z.of_nat from - 1) with
       | None => Some (Z.of_nat from, c)
       | Some _ => backfill_loop voter (head (Object_keys c)) f from c
       end.

(** [truncateBlockCache], on the cache: the keys are listed once, in the
    reverse of the order of [Object.keys], and every key whose position
    exceeds [max + 1] is deleted. *)
Fixpoint truncate_from (max : nat) (i : nat) (list : list BlockNumber)
    (c : ConsensusView) : ConsensusView :=
  match list with
  | [] => c
  | k :: rest =>
      truncate_from max (S i) rest (if decide (max + 1 < i) then delete k c else c)
  end.

Definition truncate_cache (max : nat) (c : ConsensusView) : ConsensusView :=
  truncate_from max 0 (reverse (Object_keys c)) c.

(** [extractVoter]: the global [replace] drops every double quote
    (character 34) of the raw field. *)
Fixpoint extractVoter (message_voter : string) : Address :=
  match message_voter with
  | EmptyString => EmptyString
  | String a rest =>
      if decide (a = Ascii.ascii_of_nat 34) then extractVoter rest
      else String a (extractVoter rest)
  end.

(** [markFinalized(finalizedHeight, finalizedHash)]; the method reads the
    node's address and writes the cache only. *)
Definition markFinalized (address : option Address) (finalizedHeight : BlockNumber)
    (finalizedHash : BlockHash) (c : ConsensusView) : option ConsensusView :=
  let addr := String_of address in
  let c := initialiseConsensusView finalizedHeight address c in
  c ← update_info finalizedHeight addr set_Finalized c;
  c ← update_info finalizedHeight addr (set_FinalizedHash finalizedHash) c;
  c ← update_info finalizedHeight addr (set_FinalizedHeight finalizedHeight) c;
  c ← update_info finalizedHeight addr set_Prevote c;
  update_info finalizedHeight addr set_Precommit c.

(** [markImplicitlyFinalized(finalizedHeight)]. *)
Definition markImplicitlyFinalized (address : option Address)
    (finalizedHeight : BlockNumber) (c : ConsensusView) : option ConsensusView :=
  let addr := String_of address in
  let c := initialiseConsensusView finalizedHeight address c in
  c ← update_info finalizedHeight addr set_Finalized c;
  c ← update_info finalizedHeight addr (set_FinalizedHeight finalizedHeight) c;
  c ← update_info finalizedHeight addr set_ImplicitFinalized c;
  c ← update_info finalizedHeight addr set_Prevote c;
  c ← update_info finalizedHeight addr set_Precommit c;
  c ← update_info finalizedHeight addr set_ImplicitPrevote c;
  update_info finalizedHeight addr set_ImplicitPrecommit c.

(** The record that the row of height [i] holds for [voter] as its own,
    if there is such a row and such a record. *)
Definition read_info (i : BlockNumber) (voter : Address) (c : ConsensusView)
    : option ConsensusInfo :=
  row ← c !! i; row !! voter.

(** [const info = this.consensusCache[i][voter]], as the fields that the
    object [info] has of its own: those of the record, of the built-in
    member or of [Object.prototype]; a stored boolean, string or number
    has none.  [None]: the row is missing, which throws at once, or [info]
    is [undefined], which throws at the first read of a field. *)
Definition member_fields (i : BlockNumber) (voter : Address) (c : ConsensusView)
    : option ConsensusInfo :=
  row ← c !! i;
  match row !! voter with
  | Some info => Some info
  | None =>
      match inherited voter c with
      | Some BuiltinMember => Some (default emptyInfo (builtin_fields c !! voter))
      | Some PrototypeItself => Some (prototype_fields c)
      | Some StoredValue => Some emptyInfo
      | None => None
      end
  end.

(** A read [info.flag]: the own field, or the one that [Object.prototype]
    lends to every object. *)
Definition reads (flag : ConsensusInfo → bool) (info : ConsensusInfo)
    (c : ConsensusView) : bool :=
  flag info || flag (prototype_fields c).

(** The closure [mutate] of [onAfgReceivedPrecommit]. *)
Definition precommit_mutate (voter : Address) (from : BlockNumber) : Predicate :=
  λ i c,
    info ← member_fields i voter c;
    if reads Precommit info c || reads ImplicitPrecommit info c then Some (false, c)
    else
      c ← update_info i voter set_ImplicitPrecommit c;
      c ← update_info i voter (set_ImplicitPointer from) c;
      Some (true, c).

(** The closure [mutate] of [onAfgReceivedPrevote]. *)
Definition prevote_mutate (voter : Address) (from : BlockNumber) : Predicate :=
  λ i c,
    info ← member_fields i voter c;
    if reads Prevote info c || reads ImplicitPrevote info c then Some (false, c)
    else
      c ← update_info i voter set_ImplicitPrevote c;
      c ← update_info i voter (set_ImplicitPointer from) c;
      Some (true, c).

(** The arrow function handed to [backfill] by [onAfgFinalized]. *)
Definition finalized_mutate (address : option Address) (to : BlockNumber) : Predicate :=
  λ i c,
    info ← member_fields i (String_of address) c;
    if reads Finalized info c || reads ImplicitFinalized info c then Some (false, c)
    else
      c ← markImplicitlyFinalized address i c;
      c ← update_info i (String_of address) (set_ImplicitPointer to) c;
      Some (true, c).

(** ** Messages, events and the session state *)

(** [Types.NetworkState] is an opaque payload that the node only stores. *)
Definition NetworkState := string.
Definition Authorities := list Address.

(** [BestBlock], what [getBestBlock] extracts from a message; [ts] is the
    [Date] of the message in milliseconds. *)
Record BestBlock := mkBestBlock {
  bb_height : BlockNumber;
  bb_ts : Z;
  bb_best : BlockHash
}.

(** The decoded messages the node dispatches on; [OtherMessage] stands for
    every other value of [message.msg]. *)
Inductive Message :=
| SystemInterval (network_state : option NetworkState) (peers txcount : nat)
    (cpu memory : option Z) (bandwidth_download bandwidth_upload : Z)
    (finalized_height : option BlockNumber) (finalized_hash : option BlockHash)
    (update : option BestBlock)
| NotifyFinalized (best : BlockHash) (height : BlockNumber)
| AfgFinalized (finalized_number : BlockNumber) (finalized_hash : BlockHash)
| AfgReceivedPrecommit (target_number : BlockNumber) (target_hash : BlockHash)
    (voter : string)
| AfgReceivedPrevote (target_number : BlockNumber) (target_hash : BlockHash)
    (voter : string)
| AfgAuthoritySet (authority_set_id : nat) (hash : BlockHash) (number : BlockNumber)
    (authorities : string)
| OtherMessage (msg : string) (update : option BestBlock).

(** The events of [this.events.emit], in the order of emission. *)
Inductive Event :=
| Ev_location
| Ev_disconnect
| Ev_stats
| Ev_finalized
| Ev_hardware
| Ev_block
| Ev_consensus_info
| Ev_authority_set_changed (authorities : Authorities) (authoritySetId : nat)
    (number : BlockNumber) (hash : BlockHash).

#[global] Instance Event_eq_dec : EqDecision Event.
Proof. solve_decision. Defined.

(** The WebSocket as the node uses it: whether its listeners are still
    attached, whether [close] and [terminate] were called, and how many
    pings were sent. *)
Record Socket := mkSocket {
  listeners : bool;
  closed : bool;
  terminated : bool;
  pings : nat
}.

(** What the node takes from outside [Node.ts]: the cache bound of
    [Chain.ts], the [MeanList] and [NumStats] trackers, [getBestBlock] of
    [message.ts], the JSON functions of the runtime ([JSON.parse] throws on
    malformed text), and the state in which a new node finds the
    [Object.prototype] of the runtime: the fields that earlier assignments
    left on it and on its built-in members (none in a process that has
    handled no message yet). *)
Class Externals := {
  MAX_BLOCKS_IN_CHAIN_CACHE : nat;
  MeanList : Type;
  MeanList_new : MeanList;
  MeanList_push : MeanList → Z → MeanList * bool;
  NumStats : Type;
  NumStats_new : nat → NumStats;
  NumStats_push : NumStats → Z → NumStats;
  getBestBlock : Message → option BestBlock;
  JSON_parse : string → option Authorities;
  JSON_stringify : Authorities → string;
  prototype_at_start : ConsensusInfo;
  builtins_at_start : gmap Address ConsensusInfo
}.

(** The readings of [timestamp()] taken while one message is handled: in
    [onMessage], in [updateBestBlock] and in [onSystemInterval]. *)
Record Clock := mkClock { t_message : Z; t_block : Z; t_chart : Z }.

Definition BLOCK_TIME_HISTORY : nat := 10.
Definition TIMEOUT : Z := 1000 * 60 * 1.

Section Session.
Context `{Externals}.

Definition MAX_BLOCKS_IN_NODE_CACHE : nat := MAX_BLOCKS_IN_CHAIN_CACHE.

(** The mutable members of [Node] that the handlers use, the socket, the
    log of emitted events and the delays of the pending [setTimeout]
    callbacks. *)
Record Node := mkNode {
  address : option Address;
  networkState : option NetworkState;
  lastMessage : Z;
  best : Block;
  finalized : Block;
  latency : Z;
  blockTime : Z;
  blockTimestamp : Z;
  peers : nat;
  txcount : nat;
  memory : MeanList;
  cpu : MeanList;
  upload : MeanList;
  download : MeanList;
  chartstamps : MeanList;
  blockTimes : NumStats;
  lastBlockAt : option Z;
  pingStart : Z;
  throttle : bool;
  consensusCache : ConsensusView;
  authorities : Authorities;
  authoritySetId : nat;
  socket : Socket;
  events : list Event;
  timers : list Z
}.

Definition set_networkState (v : option NetworkState) (s : Node) : Node :=
  mkNode (address s) v (lastMessage s) (best s) (finalized s) (latency s)
    (blockTime s) (blockTimestamp s) (peers s) (txcount s) (memory s) (cpu s)
    (upload s) (download s) (chartstamps s) (blockTimes s) (lastBlockAt s)
    (pingStart s) (throttle s) (consensusCache s) (authorities s)
    (authoritySetId s) (socket s) (events s) (timers s).

Definition set_lastMessage (v : Z) (s : Node) : Node :=
  mkNode (address s) (networkState s) v (best s) (finalized s) (latency s)
    (blockTime s) (blockTimestamp s) (peers s) (txcount s) (memory s) (cpu s)
    (upload s) (download s) (chartstamps s) (blockTimes s) (lastBlockAt s)
    (pingStart s) (throttle s) (consensusCache s) (authorities s)
    (authoritySetId s) (socket s) (events s) (timers s).

Definition set_best (v : Block) (s : Node) : Node :=
  mkNode (address s) (networkState s) (lastMessage s) v (finalized s)
    (latency s) (blockTime s) (blockTimestamp s) (peers s) (txcount s)
    (memory s) (cpu s) (upload s) (download s) (chartstamps s) (blockTimes s)
    (lastBlockAt s) (pingStart s) (throttle s) (consensusCache s)
    (authorities s) (authoritySetId s) (socket s) (events s) (timers s).

Definition set_finalized (v : Block) (s : Node) : Node :=
  mkNode (address s) (networkState s) (lastMessage s) (best s) v (latency s)
    (blockTime s) (blockTimestamp s) (peers s) (txcount s) (memory s) (cpu s)
    (upload s) (download s) (chartstamps s) (blockTimes s) (lastBlockAt s)
    (pingStart s) (throttle s) (consensusCache s) (authorities s)
    (authoritySetId s) (socket s) (events s) (timers s).

Definition set_latency (v : Z) (s : Node) : Node :=
  mkNode (address s) (networkState s) (lastMessage s) (best s) (finalized s) v
    (blockTime s) (blockTimestamp s) (peers s) (txcount s) (memory s) (cpu s)
    (upload s) (download s) (chartstamps s) (blockTimes s) (lastBlockAt s)
    (pingStart s) (throttle s) (consensusCache s) (authorities s)
    (authoritySetId s) (socket s) (events s) (timers s).

Definition set_blockTime (v : Z) (s : Node) : Node :=
  mkNode (address s) (networkState s) (lastMessage s) (best s) (finalized s)
    (latency s) v (blockTimestamp s) (peers s) (txcount s) (memory s) (cpu s)
    (upload s) (download s) (chartstamps s) (blockTimes s) (lastBlockAt s)
    (pingStart s) (throttle s) (consensusCache s) (authorities s)
    (authoritySetId s) (socket s) (events s) (timers s).

Definition set_blockTimestamp (v : Z) (s : Node) : Node :=
  mkNode (address s) (networkState s) (lastMessage s) (best s) (finalized s)
    (latency s) (blockTime s) v (peers s) (txcount s) (memory s) (cpu s)
    (upload s) (download s) (chartstamps s) (blockTimes s) (lastBlockAt s)
    (pingStart s) (throttle s) (consensusCache s) (authorities s)
    (authoritySetId s) (socket s) (events s) (timers s).

Definition set_peers (v : nat) (s : Node) : Node :=
  mkNode (address s) (networkState s) (lastMessage s) (best s) (finalized s)
    (latency s) (blockTime s) (blockTimestamp s) v (txcount s) (memory s)
    (cpu s) (upload s) (download s) (chartstamps s) (blockTimes s)
    (lastBlockAt s) (pingStart s) (throttle s) (consensusCache s)
    (authorities s) (authoritySetId s) (socket s) (events s) (timers s).

Definition set_txcount (v : nat) (s : Node) : Node :=
  mkNode (address s) (networkState s) (lastMessage s) (best s) (finalized s)
    (latency s) (blockTime s) (blockTimestamp s) (peers s) v (memory s)
    (cpu s) (upload s) (download s) (chartstamps s) (blockTimes s)
    (lastBlockAt s) (pingStart s) (throttle s) (consensusCache s)
    (authorities s) (authoritySetId s) (socket s) (events s) (timers s).

Definition set_memory (v : MeanList) (s : Node) : Node :=
  mkNode (address s) (networkState s) (lastMessage s) (best s) (finalized s)
    (latency s) (blockTime s) (blockTimestamp s) (peers s) (txcount s) v
    (cpu s) (upload s) (download s) (chartstamps s) (blockTimes s)
    (lastBlockAt s) (pingStart s) (throttle s) (consensusCache s)
    (authorities s) (authoritySetId s) (socket s) (events s) (timers s).

Definition set_cpu (v : MeanList) (s : Node) : Node :=
  mkNode (address s) (networkState s) (lastMessage s) (best s) (finalized s)
    (latency s) (blockTime s) (blockTimestamp s) (peers s) (txcount s)
    (memory s) v (upload s) (download s) (chartstamps s) (blockTimes s)
    (lastBlockAt s) (pingStart s) (throttle s) (consensusCache s)
    (authorities s) (authoritySetId s) (socket s) (events s) (timers s).

Definition set_upload (v : MeanList) (s : Node) : Node :=
  mkNode (address s) (networkState s) (lastMessage s) (best s) (finalized s)
    (latency s) (blockTime s) (blockTimestamp s) (peers s) (txcount s)
    (memory s) (cpu s) v (download s) (chartstamps s) (blockTimes s)
    (lastBlockAt s) (pingStart s) (throttle s) (consensusCache s)
    (authorities s) (authoritySetId s) (socket s) (events s) (timers s).

Definition set_download (v : MeanList) (s : Node) : Node :=
  mkNode (address s) (networkState s) (lastMessage s) (best s) (finalized s)
    (latency s) (blockTime s) (blockTimestamp s) (peers s) (txcount s)
    (memory s) (cpu s) (upload s) v (chartstamps s) (blockTimes s)
    (lastBlockAt s) (pingStart s) (throttle s) (consensusCache s)
    (authorities s) (authoritySetId s) (socket s) (events s) (timers s).

Definition set_chartstamps (v : MeanList) (s : Node) : Node :=
  mkNode (address s) (networkState s) (lastMessage s) (best s) (finalized s)
    (latency s) (blockTime s) (blockTimestamp s) (peers s) (txcount s)
    (memory s) (cpu s) (upload s) (download s) v (blockTimes s)
    (lastBlockAt s) (pingStart s) (throttle s) (consensusCache s)
    (authorities s) (authoritySetId s) (socket s) (events s) (timers s).

Definition set_blockTimes (v : NumStats) (s : Node) : Node :=
  mkNode (address s) (networkState s) (lastMessage s) (best s) (finalized s)
    (latency s) (blockTime s) (blockTimestamp s) (peers s) (txcount s)
    (memory s) (cpu s) (upload s) (download s) (chartstamps s) v
    (lastBlockAt s) (pingStart s) (throttle s) (consensusCache s)
    (authorities s) (authoritySetId s) (socket s) (events s) (timers s).

Definition set_lastBlockAt (v : option Z) (s : Node) : Node :=
  mkNode (address s) (networkState s) (lastMessage s) (best s) (finalized s)
    (latency s) (blockTime s) (blockTimestamp s) (peers s) (txcount s)
    (memory s) (cpu s) (upload s) (download s) (chartstamps s) (blockTimes s)
    v (pingStart s) (throttle s) (consensusCache s) (authorities s)
    (authoritySetId s) (socket s) (events s) (timers s).

Definition set_pingStart (v : Z) (s : Node) : Node :=
  mkNode (address s) (networkState s) (lastMessage s) (best s) (finalized s)
    (latency s) (blockTime s) (blockTimestamp s) (peers s) (txcount s)
    (memory s) (cpu s) (upload s) (download s) (chartstamps s) (blockTimes s)
    (lastBlockAt s) v (throttle s) (consensusCache s) (authorities s)
    (authoritySetId s) (socket s) (events s) (timers s).

Definition set_throttle (v : bool) (s : Node) : Node :=
  mkNode (address s) (networkState s) (lastMessage s) (best s) (finalized s)
    (latency s) (blockTime s) (blockTimestamp s) (peers s) (txcount s)
    (memory s) (cpu s) (upload s) (download s) (chartstamps s) (blockTimes s)
    (lastBlockAt s) (pingStart s) v (consensusCache s) (authorities s)
    (authoritySetId s) (socket s) (events s) (timers s).

Definition set_consensusCache (v : ConsensusView) (s : Node) : Node :=
  mkNode (address s) (networkState s) (lastMessage s) (best s) (finalized s)
    (latency s) (blockTime s) (blockTimestamp s) (peers s) (txcount s)
    (memory s) (cpu s) (upload s) (download s) (chartstamps s) (blockTimes s)
    (lastBlockAt s) (pingStart s) (throttle s) v (authorities s)
    (authoritySetId s) (socket s) (events s) (timers s).

Definition set_authorities (v : Authorities) (s : Node) : Node :=
  mkNode (address s) (networkState s) (lastMessage s) (best s) (finalized s)
    (latency s) (blockTime s) (blockTimestamp s) (peers s) (txcount s)
    (memory s) (cpu s) (upload s) (download s) (chartstamps s) (blockTimes s)
    (lastBlockAt s) (pingStart s) (throttle s) (consensusCache s) v
    (authoritySetId s) (socket s) (events s) (timers s).

Definition set_socket (v : Socket) (s : Node) : Node :=
  mkNode (address s) (networkState s) (lastMessage s) (best s) (finalized s)
    (latency s) (blockTime s) (blockTimestamp s) (peers s) (txcount s)
    (memory s) (cpu s) (upload s) (download s) (chartstamps s) (blockTimes s)
    (lastBlockAt s) (pingStart s) (throttle s) (consensusCache s)
    (authorities s) (authoritySetId s) v (events s) (timers s).

Definition set_events (v : list Event) (s : Node) : Node :=
  mkNode (address s) (networkState s) (lastMessage s) (best s) (finalized s)
    (latency s) (blockTime s) (blockTimestamp s) (peers s) (txcount s)
    (memory s) (cpu s) (upload s) (download s) (chartstamps s) (blockTimes s)
    (lastBlockAt s) (pingStart s) (throttle s) (consensusCache s)
    (authorities s) (authoritySetId s) (socket s) v (timers s).

Definition set_timers (v : list Z) (s : Node) : Node :=
  mkNode (address s) (networkState s) (lastMessage s) (best s) (finalized s)
    (latency s) (blockTime s) (blockTimestamp s) (peers s) (txcount s)
    (memory s) (cpu s) (upload s) (download s) (chartstamps s) (blockTimes s)
    (lastBlockAt s) (pingStart s) (throttle s) (consensusCache s)
    (authorities s) (authoritySetId s) (socket s) (events s) v.

(** The state a freshly constructed [Node] starts from; [now] is the
    reading of [timestamp()] in the constructor.  The cache is the array
    literal [[]]; its rows will inherit from [Object.prototype] as the
    node finds it. *)
Definition new_Node (address : option Address) (now : Z) : Node :=
  mkNode address None now Block_ZERO Block_ZERO 0%Z 0%Z 0%Z 0 0
    MeanList_new MeanList_new MeanList_new MeanList_new MeanList_new
    (NumStats_new BLOCK_TIME_HISTORY) None 0%Z false
    (mkView ∅ ∅ prototype_at_start builtins_at_start) [] 0
    (mkSocket true false false 0) [] [].

(** [this.events.emit(e)]. *)
Definition emit (e : Event) (s : Node) : Node :=
  set_events (events s ++ [e]) s.

(** ** Connection lifecycle *)

(** [disconnect]: [removeAllListeners], [close], [terminate], then the
    event. *)
Definition disconnect (s : Node) : Node :=
  emit Ev_disconnect
    (set_socket (mkSocket false true true (pings (socket s))) s).

(** [updateLatency(now)]; [ping_ok] tells whether [socket.ping] returned
    (it throws otherwise and the [catch] branch runs). *)
Definition updateLatency (now : Z) (ping_ok : bool) (s : Node) : Node :=
  let s := set_pingStart now s in
  if ping_ok then
    set_socket (mkSocket (listeners (socket s)) (closed (socket s))
                  (terminated (socket s)) (S (pings (socket s)))) s
  else disconnect s.

(** [timeoutCheck(now)]. *)
Definition timeoutCheck (now : Z) (ping_ok : bool) (s : Node) : Node :=
  if bool_decide (lastMessage s + TIMEOUT < now)%Z then disconnect s
  else updateLatency now ping_ok s.

(** ** Best block *)

(** [getBlockTime(time)]. *)
Definition getBlockTime (time : Z) (s : Node) : Z :=
  match lastBlockAt s with
  | None => 0%Z
  | Some last => (time - last)%Z
  end.

(** [this.backfill(voter, from, f)] run on the node's cache; the returned
    number is dropped, as every caller drops it. *)
Definition run_backfill (voter : option Address) (from : BlockNumber)
    (f : option Predicate) (s : Node) : option Node :=
  r ← backfill voter from f (consensusCache s);
  Some (set_consensusCache r.2 s).

(** The test of [updateBestBlock]:
    [this.best.hash !== best && this.best.number <= height]. *)
Definition accepts (update : BestBlock) (s : Node) : bool :=
  bool_decide (hash (best s) ≠ bb_best update)
  && bool_decide (number (best s) ≤ bb_height update).

(** The branch of [updateBestBlock] that emits or coalesces [block]. *)
Definition announce_block (blockTime : Z) (s : Node) : Node :=
  if bool_decide (100 < blockTime)%Z then emit Ev_block s
  else if negb (throttle s) then
    set_timers (timers s ++ [1000%Z]) (set_throttle true s)
  else s.

(** [updateBestBlock(update)]; [now] is its reading of [timestamp()]. *)
Definition updateBestBlock (now : Z) (update : BestBlock) (s : Node) : option Node :=
  if accepts update s then
    let blockTime := getBlockTime (bb_ts update) s in
    let s := set_best (mkBlock (bb_height update) (bb_best update)) s in
    let s := set_blockTimestamp now s in
    let s := set_lastBlockAt (Some (bb_ts update)) s in
    let s := set_blockTimes (NumStats_push (blockTimes s) blockTime) s in
    let s := set_blockTime blockTime s in
    let s := announce_block blockTime s in
    run_backfill (address s) (number (best s)) None s
  else Some s.

(** A sequence of best-block updates, each with its clock reading. *)
Fixpoint updateBestBlocks (updates : list (Z * BestBlock)) (s : Node) : option Node :=
  match updates with
  | [] => Some s
  | (now, update) :: rest =>
      s ← updateBestBlock now update s; updateBestBlocks rest s
  end.

(** A burst of updates in which every update that is applied has a
    computed block time of at most 100 ms. *)
Fixpoint sub100_burst (updates : list (Z * BestBlock)) (s : Node) : bool :=
  match updates with
  | [] => true
  | (now, update) :: rest =>
      (negb (accepts update s)
       || bool_decide (getBlockTime (bb_ts update) s ≤ 100)%Z)
      && match updateBestBlock now update s with
         | Some s1 => sub100_burst rest s1
         | None => false
         end
  end.

(** The callback of the coalescing timer. *)
Definition timer_callback (s : Node) : Node :=
  set_throttle false (emit Ev_block s).

(** ** Message handlers *)

(** The [finalized] part of [onSystemInterval]. *)
Definition interval_finalized (finalized_height : option BlockNumber)
    (finalized_hash : option BlockHash) (s : Node) : Node :=
  match finalized_height, finalized_hash with
  | Some fin, Some finHash =>
      if bool_decide (number (finalized s) < fin)
      then emit Ev_finalized (set_finalized (mkBlock fin finHash) s)
      else s
  | _, _ => s
  end.

(** The hardware part of [onSystemInterval]: the five pushes all run, then
    [hardware] is emitted when one of them reports a change. *)
Definition interval_hardware (now : Z) (cpu_ memory_ : option Z)
    (download_ upload_ : Z) (s : Node) : Node :=
  match cpu_, memory_ with
  | Some c, Some m =>
      let cpuChange := MeanList_push (cpu s) c in
      let memChange := MeanList_push (memory s) m in
      let uploadChange := MeanList_push (upload s) upload_ in
      let downloadChange := MeanList_push (download s) download_ in
      let stampChange := MeanList_push (chartstamps s) now in
      let s := set_cpu cpuChange.1 s in
      let s := set_memory memChange.1 s in
      let s := set_upload uploadChange.1 s in
      let s := set_download downloadChange.1 s in
      let s := set_chartstamps stampChange.1 s in
      if cpuChange.2 || memChange.2 || uploadChange.2 || downloadChange.2
         || stampChange.2
      then emit Ev_hardware s else s
  | _, _ => s
  end.

(** The [networkState] part of [onSystemInterval]. *)
Definition interval_network_state (network_state : option NetworkState)
    (s : Node) : Node :=
  match network_state with
  | Some ns =>
      if bool_decide (networkState s ≠ Some ns) && truthy (Some ns)
      then set_networkState (Some ns) s else s
  | None => s
  end.

(** The [peers] and [txcount] part of [onSystemInterval]. *)
Definition interval_stats (peers_ txcount_ : nat) (s : Node) : Node :=
  if bool_decide (peers s ≠ peers_) || bool_decide (txcount s ≠ txcount_)
  then emit Ev_stats (set_txcount txcount_ (set_peers peers_ s))
  else s.

(** [onSystemInterval(message)]; [now] is its reading of [timestamp()]. *)
Definition onSystemInterval (now : Z) (network_state : option NetworkState)
    (peers_ txcount_ : nat) (cpu_ memory_ : option Z) (download_ upload_ : Z)
    (finalized_height : option BlockNumber) (finalized_hash : option BlockHash)
    (s : Node) : Node :=
  let s := interval_network_state network_state s in
  let s := interval_stats peers_ txcount_ s in
  let s := interval_finalized finalized_height finalized_hash s in
  interval_hardware now cpu_ memory_ download_ upload_ s.

(** [onNotifyFinalized(message)]. *)
Definition onNotifyFinalized (best_ : BlockHash) (height : BlockNumber)
    (s : Node) : option Node :=
  let c := initialiseConsensusView height (address s) (consensusCache s) in
  c ← update_info height (String_of (address s)) (set_FinalizedHash best_) c;
  Some (emit Ev_consensus_info (set_consensusCache c s)).

(** [onAfgReceivedPrecommit(message)]. *)
Definition onAfgReceivedPrecommit (targetNumber : BlockNumber) (message_voter : string)
    (s : Node) : option Node :=
  let voter := extractVoter message_voter in
  let c := initialiseConsensusView targetNumber (Some voter) (consensusCache s) in
  c ← update_info targetNumber voter set_Precommit c;
  let from := targetNumber in
  s ← run_backfill (Some voter) from (Some (precommit_mutate voter from))
        (set_consensusCache c s);
  Some (emit Ev_consensus_info s).

(** [onAfgReceivedPrevote(message)]. *)
Definition onAfgReceivedPrevote (targetNumber : BlockNumber) (message_voter : string)
    (s : Node) : option Node :=
  let voter := extractVoter message_voter in
  let c := initialiseConsensusView targetNumber (Some voter) (consensusCache s) in
  c ← update_info targetNumber voter set_Prevote c;
  let from := targetNumber in
  s ← run_backfill (Some voter) from (Some (prevote_mutate voter from))
        (set_consensusCache c s);
  Some (emit Ev_consensus_info s).

(** [onAfgAuthoritySet(message)]: [this.authoritySetId] is read and never
    assigned. *)
Definition onAfgAuthoritySet (authoritySetId_ : nat) (hash_ : BlockHash)
    (number_ : BlockNumber) (message_authorities : string) (s : Node) : option Node :=
  authorities_ ← JSON_parse message_authorities;
  let s := if bool_decide (JSON_stringify (authorities s) ≠ message_authorities)
              || bool_decide (authoritySetId s ≠ authoritySetId_)
           then emit (Ev_authority_set_changed authorities_ authoritySetId_
                        number_ hash_) s
           else s in
  Some (set_authorities authorities_ s).

(** [onAfgFinalized(message)]. *)
Definition onAfgFinalized (finalizedNumber : BlockNumber) (finalizedHash : BlockHash)
    (s : Node) : option Node :=
  c ← markFinalized (address s) finalizedNumber finalizedHash (consensusCache s);
  let to := finalizedNumber in
  s ← run_backfill (address s) to (Some (finalized_mutate (address s) to))
        (set_consensusCache c s);
  Some (emit Ev_consensus_info s).

(** [truncateBlockCache]. *)
Definition truncateBlockCache (s : Node) : Node :=
  set_consensusCache
    (truncate_cache MAX_BLOCKS_IN_NODE_CACHE (consensusCache s)) s.

(** The dispatch of [onMessage] on [message.msg], before the pruning. *)
Definition dispatch (clock : Clock) (message : Message) (s : Node) : option Node :=
  let s := set_lastMessage (t_message clock) s in
  s ← match getBestBlock message with
       | Some update => updateBestBlock (t_block clock) update s
       | None => Some s
       end;
  match message with
  | SystemInterval ns p t c m d u fh fhash _ =>
      Some (onSystemInterval (t_chart clock) ns p t c m d u fh fhash s)
  | NotifyFinalized b h => onNotifyFinalized b h s
  | AfgFinalized n h => onAfgFinalized n h s
  | AfgReceivedPrecommit n _ v => onAfgReceivedPrecommit n v s
  | AfgReceivedPrevote n _ v => onAfgReceivedPrevote n v s
  | AfgAuthoritySet i h n a => onAfgAuthoritySet i h n a s
  | OtherMessage _ _ => Some s
  end.

(** [onMessage(message)]. *)
Definition onMessage (clock : Clock) (message : Message) (s : Node) : option Node :=
  s ← dispatch clock message s;
  Some (truncateBlockCache s).

(** Handling a list of messages in arrival order. *)
Fixpoint onMessages (inputs : list (Clock * Message)) (s : Node) : option Node :=
  match inputs with
  | [] => Some s
  | (clock, message) :: rest => s ← onMessage clock message s; onMessages rest s
  end.

(** ** The session as a transition system *)

(** What can happen to a session: the socket notifies a decoded message, a
    close, an error or a pong; the periodic tick calls [timeoutCheck]; the
    coalescing timer fires. *)
Inductive Input :=
| SocketMessage (clock : Clock) (message : Message)
| SocketClose
| SocketError
| SocketPong (now : Z)
| TimeoutCheck (now : Z) (ping_ok : bool)
| TimerFires.

(** One transition.  A notification of the socket reaches the node only
    while its listeners are attached.  [None]: the handler throws, or no
    timer is pending. *)
Definition step (i : Input) (s : Node) : option Node :=
  match i with
  | SocketMessage clock message =>
      if listeners (socket s) then onMessage clock message s else Some s
  | SocketClose | SocketError =>
      if listeners (socket s) then Some (disconnect s) else Some s
  | SocketPong now =>
      if listeners (socket s)
      then Some (set_pingStart 0%Z (set_latency (now - pingStart s)%Z s))
      else Some s
  | TimeoutCheck now ping_ok => Some (timeoutCheck now ping_ok s)
  | TimerFires =>
      match timers s with
      | [] => None
      | _ :: rest => Some (timer_callback (set_timers rest s))
      end
  end.

Fixpoint steps (inputs : list Input) (s : Node) : option Node :=
  match inputs with
  | [] => Some s
  | i :: rest => s ← step i s; steps rest s
  end.

End Session.

(** * Observations on states and traces *)

(** The implicit part of a record. *)
Definition implicit_part (i : ConsensusInfo)
    : bool * bool * bool * option BlockNumber :=
  (ImplicitPrevote i, ImplicitPrecommit i, ImplicitFinalized i, ImplicitPointer i).

(** From [c] to [c'] no implicit flag and no pointer was written: a record
    of [c'] has an empty implicit part, or the implicit part of the record
    of [c] at the same height and voter. *)
Definition keeps_implicit (c c' : ConsensusView) : Prop :=
  ∀ h v info',
    read_info h v c' = Some info' →
    implicit_part info' = implicit_part emptyInfo
    ∨ ∃ info, read_info h v c = Some info
              ∧ implicit_part info = implicit_part info'.

(** How often [e] was emitted. *)
Definition occurrences (e : Event) (log : list Event) : nat :=
  length (filter (λ x, x = e) log).

Section Observations.
Context `{Externals}.

(** The pending coalescing timers match the [throttle] flag: one timer of
    one second while the flag is set, none otherwise. *)
Definition coalescing_inv (s : Node) : Prop :=
  timers s = if throttle s then [1000%Z] else [].

(** What every handler of a message guarantees between the state it finds
    and the state it leaves. *)
Record handler_frame (s s' : Node) : Prop := mkFrame {
  frame_implicit : keeps_implicit (consensusCache s) (consensusCache s');
  frame_socket : socket s' = socket s;
  frame_address : address s' = address s;
  frame_disconnect :
    occurrences Ev_disconnect (events s') = occurrences Ev_disconnect (events s);
  frame_best : number (best s) ≤ number (best s');
  frame_finalized : number (finalized s) ≤ number (finalized s');
  frame_coalescing : coalescing_inv s → coalescing_inv s'
}.

(** The notifications of the socket. *)
Definition is_socket_notification (i : Input) : bool :=
  match i with
  | SocketMessage _ _ | SocketClose | SocketError | SocketPong _ => true
  | _ => false
  end.

(** The steps in which the socket makes the node disconnect: a close or
    an error that reaches the node. *)
Definition socket_disconnects (i : Input) (s : Node) : bool :=
  match i with
  | SocketClose | SocketError => listeners (socket s)
  | _ => false
  end.

(** The steps in which a timeout check makes the node disconnect: the
    deadline has passed, or the ping throws. *)
Definition check_disconnects (i : Input) (s : Node) : bool :=
  match i with
  | TimeoutCheck now ping_ok =>
      bool_decide (lastMessage s + TIMEOUT < now)%Z || negb ping_ok
  | _ => false
  end.

(** How many steps of a run satisfy [p], each in the state in which it
    is taken. *)
Fixpoint count_steps (p : Input → Node → bool) (inputs : list Input) (s : Node)
    : nat :=
  match inputs with
  | [] => 0
  | i :: rest =>
      (if p i s then 1 else 0)
      + match step i s with
        | Some s1 => count_steps p rest s1
        | None => 0
        end
  end.

(** What every step of the session guarantees. *)
Record session_frame (i : Input) (s s' : Node) : Prop := mkSessionFrame {
  sf_implicit : keeps_implicit (consensusCache s) (consensusCache s');
  sf_best : number (best s) ≤ number (best s');
  sf_finalized : number (finalized s) ≤ number (finalized s');
  sf_coalescing : coalescing_inv s → coalescing_inv s';
  sf_disconnects :
    occurrences Ev_disconnect (events s')
    = occurrences Ev_disconnect (events s)
      + (if socket_disconnects i s then 1 else 0)
      + (if check_disconnects i s then 1 else 0);
  sf_listeners :
    listeners (socket s')
    = listeners (socket s) && negb (socket_disconnects i s)
      && negb (check_disconnects i s)
}.

(** Whether a [system.interval] message replaces the finalized block. *)
Definition replaces_finalized (finalized_height : option BlockNumber)
    (finalized_hash : option BlockHash) (s : Node) : bool :=
  match finalized_height, finalized_hash with
  | Some fin, Some _ => bool_decide (number (finalized s) < fin)
  | _, _ => false
  end.

End Observations.

(** * Concrete sessions *)

Definition quote_char : Ascii.ascii := Ascii.ascii_of_nat 34.
Definition quote : string := String quote_char EmptyString.

(** [strip_ends a b text]: [text] without its first character [a] and its
    last character [b]; [None] when it is not of that shape. *)
Fixpoint strip_last (b : Ascii.ascii) (text : string) : option string :=
  match text with
  | EmptyString => None
  | String x EmptyString => if decide (x = b) then Some EmptyString else None
  | String x rest => String x <$> strip_last b rest
  end.

Definition strip_ends (a b : Ascii.ascii) (text : string) : option string :=
  match text with
  | String x rest => if decide (x = a) then strip_last b rest else None
  | EmptyString => None
  end.

(** The comma-separated pieces of [text]; [piece] is the piece being read. *)
Fixpoint split_commas (text piece : string) : list string :=
  match text with
  | EmptyString => [piece]
  | String x rest =>
      if decide (x = Ascii.ascii_of_nat 44) then piece :: split_commas rest EmptyString
      else split_commas rest (piece ++ String x EmptyString)%string
  end.

(** JSON restricted to what the authority list needs: an array of strings
    without escapes and without white space. *)
Definition parse_string_array (text : string) : option Authorities :=
  inner ← strip_ends (Ascii.ascii_of_nat 91) (Ascii.ascii_of_nat 93) text;
  match inner with
  | EmptyString => Some []
  | _ => mapM (strip_ends quote_char quote_char) (split_commas inner EmptyString)
  end.

Fixpoint join_commas (pieces : list string) : string :=
  match pieces with
  | [] => EmptyString
  | [x] => x
  | x :: rest => (x ++ "," ++ join_commas rest)%string
  end.

Definition print_string_array (l : Authorities) : string :=
  ("[" ++ join_commas (map (λ a, quote ++ a ++ quote)%string l) ++ "]")%string.

(** An instance of the externals on which the model runs: the trackers
    keep their samples in a list ([MeanList.push] reports whether the
    sample differs from the one before), the best-block update of a message
    is its [update] field, and JSON is the codec above. *)
Definition sample_externals (max : nat) : Externals := {|
  MAX_BLOCKS_IN_CHAIN_CACHE := max;
  MeanList := list Z;
  MeanList_new := [];
  MeanList_push := λ l x, (l ++ [x], bool_decide (last l ≠ Some x));
  NumStats := list Z;
  NumStats_new := λ _, [];
  NumStats_push := λ l x, l ++ [x];
  getBestBlock := λ m,
    match m with
    | SystemInterval _ _ _ _ _ _ _ _ _ update => update
    | OtherMessage _ update => update
    | _ => None
    end;
  JSON_parse := parse_string_array;
  JSON_stringify := print_string_array;
  prototype_at_start := emptyInfo;
  builtins_at_start := ∅
|}.

Definition sample2 : Externals := sample_externals 2.

Definition clock_at (t : Z) : Clock := mkClock t t t.

Definition prevote_at (t : Z) (h : BlockNumber) : Clock * Message :=
  (clock_at t, AfgReceivedPrevote h "0xabc" "V").

Definition cache_100_103 : ConsensusView :=
  <[103 := {[ "V"%string := set_Prevote emptyInfo ]}]>
    (<[100 := {[ "V"%string := set_Prevote emptyInfo ]}]> ∅).

Definition node0 `{Externals} : Node := new_Node (Some "N"%string) 0.

Definition voted_node `{Externals} : Node := set_consensusCache cache_100_103 node0.

Definition later_inputs : list Input :=
  [ SocketMessage (clock_at 1) (AfgReceivedPrevote 104 "0xabc" "V");
    SocketMessage (clock_at 2) (AfgFinalized 105 "0xdef");
    TimeoutCheck 3 true;
    SocketMessage (clock_at 4) (AfgReceivedPrecommit 106 "0xfed" "V") ].

Definition block_at (height : BlockNumber) (ts : Z) (best_ : BlockHash) : Z * BestBlock :=
  (ts, mkBestBlock height ts best_).

Definition fast_burst : list (Z * BestBlock) :=
  [ block_at 1 1000 "0x01"; block_at 2 1010 "0x02"; block_at 3 1020 "0x03" ].

Section ConcreteStates.
#[local] Existing Instance sample2.

(** The node after a [system.interval] message that reports the finalized
    block 5. *)
Definition interval_inputs : list Input :=
  [ SocketMessage (clock_at 1)
      (SystemInterval None 3 0 None None 0 0 (Some 5) (Some "0xf5"%string) None) ].

Definition after_interval : Node := default node0 (steps interval_inputs node0).

(** The node after the later inputs. *)
Definition after_later_inputs : Node :=
  default voted_node (steps later_inputs voted_node).

(** The node after prevotes at the heights 1 to 4, and after one more at
    height 5. *)
Definition after_four_votes : Node :=
  default node0
    (onMessages [prevote_at 1 1; prevote_at 2 2; prevote_at 3 3; prevote_at 4 4]
       node0).

Definition after_five_votes : Node :=
  default node0
    (onMessage (clock_at 5) (AfgReceivedPrevote 5 "0xabc" "V") after_four_votes).

(** The node after a close, a timeout check that finds the deadline not
    passed and the ping going out, and two more notifications of the
    socket. *)
Definition close_inputs : list Input :=
  [SocketClose; TimeoutCheck 5 true; SocketClose; SocketError].

Definition after_close : Node := default node0 (steps close_inputs node0).

End ConcreteStates.

(** The text of the one-element JSON array that holds the string 5Grw. *)
Definition one_authority : string :=
  ("[" ++ quote ++ "5Grw" ++ quote ++ "]")%string.

(** * More observations *)

(** The explicit flags set in [info] are set in [info']. *)
Definition explicit_le (info info' : ConsensusInfo) : Prop :=
  (Prevote info = true → Prevote info' = true)
  ∧ (Precommit info = true → Precommit info' = true)
  ∧ (Finalized info = true → Finalized info' = true).

(** From [c] to [c'] every record is still there with at least its
    explicit flags, and no record appeared under the empty voter. *)
Record cache_grows (c c' : ConsensusView) : Prop := mkGrows {
  grows_records :
    ∀ h v info, read_info h v c = Some info →
      ∃ info', read_info h v c' = Some info' ∧ explicit_le info info';
  grows_no_empty :
    (∀ h, read_info h "" c = None) → ∀ h, read_info h "" c' = None
}.

(** The four kinds of message that report consensus. *)
Definition is_consensus_message (message : Message) : bool :=
  match message with
  | NotifyFinalized _ _ | AfgFinalized _ _
  | AfgReceivedPrecommit _ _ _ | AfgReceivedPrevote _ _ _ => true
  | _ => false
  end.

(** Buffered messages as notifications of the socket. *)
Definition as_notifications (inputs : list (Clock * Message)) : list Input :=
  map (λ cm, SocketMessage cm.1 cm.2) inputs.

Section MoreObservations.
Context `{Externals}.

(** The members that no handler of a message assigns. *)
Record handler_untouched (s s' : Node) : Prop := mkUntouched {
  un_latency : latency s' = latency s;
  un_pingStart : pingStart s' = pingStart s;
  un_authoritySetId : authoritySetId s' = authoritySetId s
}.

(** The handlers of the two kinds of vote, and the flag each one sets. *)
Definition vote_handler (precommit : bool)
    : BlockNumber → string → Node → option Node :=
  if precommit then onAfgReceivedPrecommit else onAfgReceivedPrevote.

Definition vote_flag (precommit : bool) : ConsensusInfo → ConsensusInfo :=
  if precommit then set_Precommit else set_Prevote.

End MoreObservations.

(** ** The handshake of [fromSocket] *)

(** What the socket delivers before the node exists: data that
    [parseMessage] rejects or that has no [msg], the [system.connected]
    message with the fields the node keeps here, or any other message. *)
Inductive Frame :=
| Undecodable
| SystemConnected (pubkey : option Address) (authority : option bool)
| Payload (message : Message).

(** How the promise of [fromSocket] is settled. *)
Inductive Outcome :=
| Resolved (address : option Address) (authority : bool) (messages : list Message)
| Rejected.

(** The state of one call of [fromSocket]: the [messages] array, whether
    the [message] listener is attached, whether the 5 second timer is
    pending, how the promise is settled, and what was done to the socket. *)
Record Handshake := mkHandshake {
  hs_messages : list Message;
  hs_listening : bool;
  hs_timer : bool;
  hs_outcome : option Outcome;
  hs_closed : bool;
  hs_terminated : bool
}.

Definition handshake_start : Handshake :=
  mkHandshake [] true true None false false.

(** A promise is settled once; later calls of [resolve] or [reject] do
    nothing. *)
Definition settle (o : Outcome) (outcome : option Outcome) : option Outcome :=
  match outcome with
  | Some _ => outcome
  | None => Some o
  end.

(** [handler(data)] of [fromSocket]. *)
Definition handshake_handler (f : Frame) (h : Handshake) : Handshake :=
  match f with
  | Undecodable => h
  | SystemConnected pubkey authority =>
      mkHandshake (hs_messages h) false false
        (settle (Resolved pubkey (bool_decide (authority = Some true))
                   (hs_messages h)) (hs_outcome h))
        (hs_closed h) (hs_terminated h)
  | Payload message =>
      let messages :=
        if decide (length (hs_messages h) = 10) then tail (hs_messages h)
        else hs_messages h in
      mkHandshake (messages ++ [message]) (hs_listening h) (hs_timer h)
        (hs_outcome h) (hs_closed h) (hs_terminated h)
  end.

(** The callback of the handshake timer. *)
Definition handshake_timeout (h : Handshake) : Handshake :=
  mkHandshake (hs_messages h) false false (settle Rejected (hs_outcome h))
    true true.

Inductive HandshakeInput :=
| HsData (f : Frame)
| HsTimer.

(** Data reaches the handler while it is attached; the timer fires while
    it is pending. *)
Definition handshake_step (i : HandshakeInput) (h : Handshake) : Handshake :=
  match i with
  | HsData f => if hs_listening h then handshake_handler f h else h
  | HsTimer => if hs_timer h then handshake_timeout h else h
  end.

Definition handshake_run (inputs : list HandshakeInput) (h : Handshake) : Handshake :=
  foldl (λ h i, handshake_step i h) h inputs.

(** The messages among the frames, in order. *)
Definition payloads (frames : list Frame) : list Message :=
  omap (λ f, match f with Payload m => Some m | _ => None end) frames.

Definition is_connected (f : Frame) : bool :=
  match f with SystemConnected _ _ => true | _ => false end.

(** The last [n] elements of a list. *)
Definition last_n {A} (n : nat) (l : list A) : list A :=
  drop (length l - n) l.

Section MoreConcreteStates.
#[local] Existing Instance sample2.

(** A node whose [system.connected] message carried no pubkey. *)
Definition anonymous_node : Node := new_Node None 0.

(** The node after a message at time 1000 that no handler knows. *)
Definition after_idle : Node :=
  default node0 (onMessage (clock_at 1000) (OtherMessage "system.unknown" None) node0).

(** The node after a ping at time 10 and a prevote handled after it. *)
Definition after_ping : Node :=
  default node0 (onMessages [prevote_at 12 1] (timeoutCheck 10 true node0)).

(** A first block, a repeated announcement of it, and a second block. *)
Definition first_block : BestBlock := mkBestBlock 1 1000 "0x01".
Definition second_block : BestBlock := mkBestBlock 2 7000 "0x02".

Definition after_first_block : Node :=
  default node0 (updateBestBlock 1001 first_block node0).

Definition after_second_block : Node :=
  default node0
    (updateBestBlocks [block_at 1 1500 "0x01"; (7001%Z, second_block)]
       after_first_block).

(** The node after a burst of fast blocks, with the timer pending. *)
Definition after_burst : Node :=
  default node0 (updateBestBlocks fast_burst node0).

(** The node after a disconnect and what still arrives afterwards. *)
Definition late_inputs : list Input :=
  [ SocketMessage (clock_at 1) (AfgReceivedPrevote 104 "0xabc" "V");
    TimeoutCheck 5 true;
    SocketClose ].

Definition after_late_inputs : Node :=
  default node0 (steps late_inputs (disconnect voted_node)).

(** The node after one more vote of the voter of [voted_node]. *)
Definition after_precommit : Node :=
  default node0
    (onMessage (clock_at 1) (AfgReceivedPrecommit 103 "0xabc" "V") voted_node).

(** The node after a prevote whose voter field is the name [__proto__]. *)
Definition after_proto_vote : Node :=
  default node0 (onAfgReceivedPrevote 5 "__proto__" node0).

End MoreConcreteStates.

(** A voter field that holds nothing but the two quotes. *)
Definition empty_quoted : string := (quote ++ quote)%string.

(** Frames of a handshake: two messages around some undecodable data. *)
Definition early_frames : list Frame :=
  [ Payload (OtherMessage "block.import" None); Undecodable;
    Payload (NotifyFinalized "0xf1" 1) ].

(** * Properties *)

(** ** The cache as a map of rows *)

Lemma view_lookup_rows (c : ConsensusView) h : c !! h = rows c !! h.
Proof. reflexivity. Qed.

Lemma view_size_rows (c : ConsensusView) : size c = size (rows c).
Proof. reflexivity. Qed.

Lemma view_lookup_empty h : (∅ : ConsensusView) !! h = None.
Proof. reflexivity. Qed.

Lemma view_lookup_insert (c : ConsensusView) h row h' :
  <[h := row]> c !! h' = if decide (h = h') then Some row else c !! h'.
Proof. rewrite !view_lookup_rows. apply lookup_insert. Qed.

Lemma view_lookup_insert_eq (c : ConsensusView) h row :
  <[h := row]> c !! h = Some row.
Proof. rewrite view_lookup_insert. by rewrite decide_True. Qed.

Lemma view_lookup_insert_ne (c : ConsensusView) h row h' :
  h ≠ h' → <[h := row]> c !! h' = c !! h'.
Proof. intros. rewrite view_lookup_insert. by rewrite decide_False. Qed.

Lemma view_lookup_delete (c : ConsensusView) k k' :
  delete k c !! k' = if decide (k = k') then None else c !! k'.
Proof. rewrite !view_lookup_rows. apply lookup_delete. Qed.

Lemma view_lookup_delete_eq (c : ConsensusView) k : delete k c !! k = None.
Proof. rewrite view_lookup_delete. by rewrite decide_True. Qed.

Lemma view_lookup_delete_ne (c : ConsensusView) k k' :
  k ≠ k' → delete k c !! k' = c !! k'.
Proof. intros. rewrite view_lookup_delete. by rewrite decide_False. Qed.

(** Replacing the row of a key that is there changes the rows only. *)
Lemma view_insert_present (c : ConsensusView) h row row0 :
  c !! h = Some row0 →
  <[h := row]> c
  = mkView (<[h := row]> (rows c)) (created c) (prototype_fields c)
      (builtin_fields c).
Proof.
  rewrite view_lookup_rows. intros Hrow.
  unfold insert at 1, view_insert. by rewrite Hrow.
Qed.

Lemma view_insert_insert (c : ConsensusView) h row1 row2 row0 :
  c !! h = Some row0 →
  <[h := row2]> (<[h := row1]> c) = <[h := row2]> c.
Proof.
  intros Hrow.
  rewrite (view_insert_present (<[h := row1]> c) h row2 row1)
    by apply view_lookup_insert_eq.
  rewrite !(view_insert_present c h _ row0) by done.
  simpl. by rewrite insert_insert_eq.
Qed.

Lemma view_insert_prototype (c : ConsensusView) h row :
  prototype_fields (<[h := row]> c) = prototype_fields c
  ∧ builtin_fields (<[h := row]> c) = builtin_fields c.
Proof. done. Qed.

Lemma view_delete_prototype (c : ConsensusView) k :
  prototype_fields (delete k c) = prototype_fields c
  ∧ builtin_fields (delete k c) = builtin_fields c.
Proof. done. Qed.

(** What a row inherits depends on the prototype only. *)
Lemma inherited_prototype addr (c c' : ConsensusView) :
  prototype_fields c' = prototype_fields c →
  inherited addr c' = inherited addr c.
Proof. unfold inherited. by intros ->. Qed.

(** ** The keys of the cache *)

#[global] Instance key_le_total c : Total (key_le c).
Proof.
  intros a b. unfold key_le.
  destruct (is_array_index a), (is_array_index b); lia.
Qed.

#[global] Instance key_le_trans c : Transitive (key_le c).
Proof.
  intros x y z. unfold key_le.
  destruct (is_array_index x), (is_array_index y), (is_array_index z); lia.
Qed.

#[global] Instance key_le_antisymm c : AntiSymm (=) (key_le c).
Proof.
  intros a b. unfold key_le.
  destruct (is_array_index a), (is_array_index b); lia.
Qed.

(** Between two array indices the order of the keys is the order of the
    heights. *)
Lemma key_le_index c a b :
  is_array_index a = true → is_array_index b = true →
  key_le c a b ↔ a ≤ b.
Proof. unfold key_le. by intros -> ->. Qed.

Lemma Object_keys_Permutation (c : ConsensusView) :
  Object_keys c ≡ₚ elements (dom (rows c)).
Proof. apply merge_sort_Permutation. Qed.

Lemma Object_keys_length (c : ConsensusView) :
  length (Object_keys c) = size c.
Proof.
  rewrite Object_keys_Permutation, view_size_rows.
  rewrite <- (size_dom (rows c)). reflexivity.
Qed.

Lemma Object_keys_elem_of (c : ConsensusView) (k : BlockNumber) :
  k ∈ Object_keys c ↔ is_Some (c !! k).
Proof.
  rewrite Object_keys_Permutation, elem_of_elements. apply elem_of_dom.
Qed.

Lemma Object_keys_NoDup (c : ConsensusView) : NoDup (Object_keys c).
Proof. rewrite Object_keys_Permutation. apply NoDup_elements. Qed.

Lemma Object_keys_Sorted (c : ConsensusView) :
  StronglySorted (key_le c) (Object_keys c).
Proof. apply StronglySorted_merge_sort; apply _. Qed.

(** ** Backfill *)

Lemma row_at_pred (c : ConsensusView) (from : BlockNumber) :
  row_at c (Z.of_nat from - 1) =
  match from with O => None | S i => c !! i end.
Proof.
  unfold row_at. destruct from as [|i].
  - reflexivity.
  - replace (Z.of_nat (S i) - 1)%Z with (Z.of_nat i) by lia.
    destruct (0 <=? Z.of_nat i)%Z eqn:E.
    + by rewrite Nat2Z.id.
    + apply Z.leb_gt in E. lia.
Qed.

(** Entered with a row at [from - 1], the loop leaves at its first test. *)
Lemma backfill_loop_existing voter first f (i : nat) (c : ConsensusView) :
  is_Some (c !! i) →
  backfill_loop voter first f (S i) c = Some (Z.of_nat i, c).
Proof. intros [row Hrow]. simpl. by rewrite Hrow. Qed.

(** The value of [backfill] in closed form. *)
Lemma backfill_value voter (from : BlockNumber) f (c : ConsensusView) :
  backfill voter from f c =
  Some (if truthy voter && bool_decide (2 ≤ size c)
           && bool_decide (is_Some (row_at c (Z.of_nat from - 1)))
        then (Z.of_nat from - 1)%Z else Z.of_nat from, c).
Proof.
  unfold backfill. destruct (truthy voter); simpl; [|done].
  rewrite Object_keys_length.
  destruct (decide (size c ≤ 1)) as [Hle|Hgt].
  - rewrite bool_decide_eq_false_2 by lia. done.
  - rewrite bool_decide_eq_true_2 by lia. simpl.
    destruct (row_at c (Z.of_nat from - 1)) as [row|] eqn:Hrow.
    + rewrite bool_decide_eq_true_2 by eauto.
      rewrite row_at_pred in Hrow. destruct from as [|i]; [done|].
      rewrite backfill_loop_existing by eauto.
      do 2 f_equal. lia.
    + rewrite bool_decide_eq_false_2; [done|]. by intros [? ?].
Qed.



(** C2.  When the walk is admitted (voter present, at least two heights in
    the cache, a row at [from - 1]), [backfill] returns the first height
    below [from] that has a row, counting downward from [from - 1], and
    the cache, that row included, is left as it was. *)
Theorem backfill_stops_at_existing voter (from : BlockNumber) f (c : ConsensusView) :
  truthy voter = true →
  2 ≤ size c →
  is_Some (row_at c (Z.of_nat from - 1)) →
  ∃ (i : BlockNumber) (c' : ConsensusView),
    backfill voter from f c = Some (Z.of_nat i, c')
    ∧ i < from
    ∧ is_Some (c !! i)
    ∧ (∀ j, i < j < from → c !! j = None)
    ∧ c' !! i = c !! i
    ∧ c' = c.
Proof.
  intros Hv Hsize Hrow. rewrite backfill_value, Hv.
  rewrite !bool_decide_eq_true_2 by done. simpl.
  rewrite row_at_pred in Hrow. destruct from as [|i]; [by destruct Hrow|].
  exists i, c. split; [do 2 f_equal; lia|].
  repeat split; try done; try lia.
Qed.

Lemma backfill_stops_at_existing_witness :
  ∃ (i : BlockNumber) (c' : ConsensusView),
    backfill (Some "V"%string) 104 (Some (prevote_mutate "V" 104)) cache_100_103
      = Some (Z.of_nat i, c')
    ∧ i < 104
    ∧ is_Some (cache_100_103 !! i)
    ∧ (∀ j, i < j < 104 → cache_100_103 !! j = None)
    ∧ c' !! i = cache_100_103 !! i
    ∧ c' = cache_100_103.
Proof.
  apply backfill_stops_at_existing.
  - reflexivity.
  - vm_compute. lia.
  - vm_compute. eauto.
Defined.


(** A gap below [from], had the guards let the loop reach it, would be
    filled down to the oldest height: the loop itself does create rows. *)
Example backfill_loop_fills :
  (λ r : Z * ConsensusView, (r.1, Object_keys r.2))
    <$> backfill_loop (Some "V"%string) (Some 100) None 103 cache_100_103
  = Some (100%Z, [100; 101; 102; 103]).
Proof. vm_compute. reflexivity. Qed.

Lemma sorted_lookup_rel {A} (R : relation A) (l : list A) (a b : nat) (x y : A) :
  StronglySorted R l → l !! a = Some x → l !! b = Some y → a < b → R x y.
Proof.
  intros Hs. revert a b. induction Hs as [|z l Hs IH Hall]; intros a b Ha Hb Hab.
  - done.
  - destruct b as [|b]; [lia|]. simpl in Hb. destruct a as [|a]; simpl in Ha.
    + injection Ha as ->. rewrite Forall_forall in Hall.
      apply Hall. apply list_elem_of_lookup. eauto.
    + apply (IH a b); [done..|lia].
Qed.

(** A created key gets a rank above every rank in use. *)
Lemma next_rank_above (c : ConsensusView) k : rank c k < next_rank c.
Proof.
  unfold rank, next_rank. destruct (created c !! k) as [n|] eqn:Hn; simpl; [|lia].
  apply Nat.lt_succ_r, max_list_elem_of_le.
  apply list_elem_of_fmap. exists (k, n). split; [done|].
  by apply elem_of_map_to_list.
Qed.

Lemma StronglySorted_rel {A} (R R' : relation A) (l : list A) :
  (∀ x y, x ∈ l → y ∈ l → R x y → R' x y) →
  StronglySorted R l → StronglySorted R' l.
Proof.
  intros Hrel Hs. induction Hs as [|x l Hs IH Hall]; constructor.
  - apply IH. intros a b Ha Hb. apply Hrel; by right.
  - rewrite Forall_forall in *. intros y Hy.
    apply Hrel; [by left|by right|by apply Hall].
Qed.

(** A height from 2^32 - 1 on that gets its row is listed last by
    [Object.keys], whatever the heights that are there. *)
Lemma Object_keys_created_last (c : ConsensusView) k row :
  c !! k = None → is_array_index k = false →
  Object_keys (<[k := row]> c) = Object_keys c ++ [k].
Proof.
  intros Hk Hix.
  assert (k ∉ Object_keys c) as Hnew.
  { rewrite Object_keys_elem_of, Hk. by intros [? ?]. }
  assert (rank (<[k := row]> c) k = next_rank c) as Hrank.
  { unfold rank, insert, view_insert. simpl.
    rewrite view_lookup_rows in Hk. rewrite Hk. by rewrite lookup_insert_eq. }
  assert (∀ a, a ≠ k → rank (<[k := row]> c) a = rank c a) as Hold.
  { intros a Ha. unfold rank, insert, view_insert. simpl.
    rewrite view_lookup_rows in Hk. rewrite Hk.
    by rewrite lookup_insert_ne. }
  apply (Sorted_unique (key_le (<[k := row]> c))).
  - apply Sorted_merge_sort; apply _.
  - apply StronglySorted_Sorted, StronglySorted_app. split; [|split].
    + intros a b Ha ->%list_elem_of_singleton.
      assert (a ≠ k) as Hne by (by intros ->).
      unfold key_le. rewrite Hix, Hrank, (Hold a Hne).
      destruct (is_array_index a); [done|]. left. apply next_rank_above.
    + eapply StronglySorted_rel; [|apply Object_keys_Sorted].
      intros a b Ha Hb. unfold key_le.
      rewrite !Hold; [done|by intros ->..].
    + repeat constructor.
  - rewrite !Object_keys_Permutation. unfold insert at 1, view_insert. simpl.
    rewrite dom_insert_L, elements_union_singleton.
    + apply Permutation_cons_append.
    + rewrite elem_of_dom, <- view_lookup_rows, Hk. by intros [? ?].
Qed.

(** An array index that gets its row is listed before every height from
    2^32 - 1 on, also those created long before. *)
Lemma Object_keys_index_first (c : ConsensusView) (k k' : BlockNumber) (i j : nat) :
  is_array_index k = true → is_array_index k' = false →
  Object_keys c !! i = Some k → Object_keys c !! j = Some k' →
  i < j.
Proof.
  intros Hk Hk' Hi Hj.
  destruct (decide (i < j)) as [|Hge]; [done|].
  assert (j < i) as Hlt.
  { destruct (decide (i = j)) as [->|]; [|lia]. congruence. }
  pose proof (sorted_lookup_rel _ _ _ _ _ _ (Object_keys_Sorted c) Hj Hi Hlt)
    as Hle.
  unfold key_le in Hle. by rewrite Hk, Hk' in Hle.
Qed.

(** ** Pruning *)

Lemma reverse_keys_NoDup (c : ConsensusView) :
  NoDup (reverse (Object_keys c)).
Proof. rewrite reverse_Permutation. apply Object_keys_NoDup. Qed.

(** In the reversed list a later key is one that [Object.keys] lists
    earlier. *)
Lemma reverse_keys_ordered (c : ConsensusView) (a b : nat) (x y : BlockNumber) :
  reverse (Object_keys c) !! a = Some x →
  reverse (Object_keys c) !! b = Some y →
  a < b → key_le c y x ∧ y ≠ x.
Proof.
  intros Ha Hb Hab. split.
  - apply reverse_lookup_Some in Ha as [Ha Hla].
    apply reverse_lookup_Some in Hb as [Hb Hlb].
    apply (sorted_lookup_rel _ _ _ _ _ _ (Object_keys_Sorted c) Hb Ha). lia.
  - intros ->. pose proof (reverse_keys_NoDup c) as Hnd.
    pose proof (NoDup_lookup _ _ _ _ Hnd Ha Hb). lia.
Qed.

Lemma truncate_from_None max i list (c : ConsensusView) k :
  c !! k = None → truncate_from max i list c !! k = None.
Proof.
  revert i c. induction list as [|k0 rest IH]; intros i c Hk; simpl; [done|].
  apply IH. case_decide; [|done].
  rewrite view_lookup_delete. case_decide; done.
Qed.

Lemma truncate_from_kept max i list (c : ConsensusView) k :
  (∀ j, list !! j = Some k → i + j ≤ max + 1) →
  truncate_from max i list c !! k = c !! k.
Proof.
  revert i c. induction list as [|k0 rest IH]; intros i c Hk; simpl; [done|].
  rewrite IH.
  - case_decide as Hi; [|done].
    rewrite view_lookup_delete_ne; [done|].
    intros ->. specialize (Hk 0 eq_refl). lia.
  - intros j Hj. specialize (Hk (S j) Hj). lia.
Qed.

Lemma truncate_from_deleted max i list (c : ConsensusView) k j :
  list !! j = Some k → max + 1 < i + j →
  truncate_from max i list c !! k = None.
Proof.
  revert i c j. induction list as [|k0 rest IH]; intros i c j Hj Hlt; [done|].
  destruct j as [|j]; simpl in *.
  - injection Hj as ->. apply truncate_from_None.
    rewrite decide_True by lia. apply view_lookup_delete_eq.
  - apply (IH (S i) _ j); [done|lia].
Qed.

(** The pruning deletes rows and changes none. *)
Lemma truncate_from_lookup max i list (c : ConsensusView) k row :
  truncate_from max i list c !! k = Some row → c !! k = Some row.
Proof.
  revert i c. induction list as [|k0 rest IH]; intros i c; simpl; [done|].
  intros Hrow. apply IH in Hrow. case_decide; [|done].
  rewrite view_lookup_delete in Hrow. by case_decide.
Qed.

Lemma truncate_from_short max i list (c : ConsensusView) :
  i + length list ≤ max + 2 → truncate_from max i list c = c.
Proof.
  revert i c. induction list as [|k0 rest IH]; intros i c Hlen; simpl in *; [done|].
  rewrite decide_False by lia. apply IH. lia.
Qed.

Lemma truncate_from_prototype max i list (c : ConsensusView) :
  prototype_fields (truncate_from max i list c) = prototype_fields c
  ∧ builtin_fields (truncate_from max i list c) = builtin_fields c.
Proof.
  revert i c. induction list as [|k0 rest IH]; intros i c; simpl; [done|].
  destruct (IH (S i) (if decide (max + 1 < i) then delete k0 c else c))
    as [-> ->].
  by case_decide.
Qed.

(** A height survives the pruning exactly when it is one of the first
    [max + 2] keys of the reversed list. *)
Lemma truncate_cache_kept max (c : ConsensusView) k :
  is_Some (truncate_cache max c !! k)
  ↔ k ∈ take (max + 2) (reverse (Object_keys c)).
Proof.
  rewrite elem_of_take. unfold truncate_cache. split.
  - intros [row Hrow].
    assert (is_Some (c !! k)) as Hin.
    { exists row. by eapply truncate_from_lookup. }
    apply Object_keys_elem_of, elem_of_reverse, list_elem_of_lookup in Hin
      as [j Hj].
    exists j. split; [done|].
    destruct (decide (j < max + 2)) as [|Hge]; [done|].
    rewrite (truncate_from_deleted max 0 _ c k j) in Hrow by (done || lia).
    done.
  - intros (j & Hj & Hlt).
    rewrite truncate_from_kept.
    + apply Object_keys_elem_of, elem_of_reverse, list_elem_of_lookup. eauto.
    + intros j' Hj'.
      pose proof (reverse_keys_NoDup c) as Hnd.
      pose proof (NoDup_lookup _ _ _ _ Hnd Hj Hj'). lia.
Qed.

Lemma truncate_cache_dom max (c : ConsensusView) :
  dom (rows (truncate_cache max c)) =
  list_to_set (take (max + 2) (reverse (Object_keys c))).
Proof.
  apply set_eq. intros k.
  rewrite elem_of_dom, elem_of_list_to_set. apply truncate_cache_kept.
Qed.

Lemma truncate_cache_lookup max (c : ConsensusView) k row :
  truncate_cache max c !! k = Some row → c !! k = Some row.
Proof. apply truncate_from_lookup. Qed.

Lemma truncate_cache_size max (c : ConsensusView) :
  size (truncate_cache max c) = min (max + 2) (size c).
Proof.
  rewrite view_size_rows, <- size_dom, truncate_cache_dom, size_list_to_set.
  - by rewrite length_take, length_reverse, Object_keys_length.
  - eapply sublist_NoDup; [apply reverse_keys_NoDup|apply sublist_take].
Qed.

(** Every height that is pruned comes, in the order of [Object.keys],
    before every height that is kept. *)
Lemma truncate_cache_last max (c : ConsensusView) (k k' : BlockNumber) :
  is_Some (truncate_cache max c !! k) →
  is_Some (c !! k') →
  truncate_cache max c !! k' = None →
  key_le c k' k ∧ k' ≠ k.
Proof.
  intros Hk Hk' Hgone.
  apply truncate_cache_kept, elem_of_take in Hk as (j & Hj & Hlt).
  apply Object_keys_elem_of, elem_of_reverse, list_elem_of_lookup in Hk'
    as [j' Hj'].
  apply (reverse_keys_ordered c j j'); [done..|].
  destruct (decide (j < j')) as [|Hge]; [done|].
  assert (is_Some (truncate_cache max c !! k')) as [? Hin]; [|congruence].
  apply truncate_cache_kept, elem_of_take. exists j'. split; [done|lia].
Qed.

Lemma Object_keys_empty : Object_keys ∅ = [].
Proof.
  unfold Object_keys. simpl. by rewrite dom_empty_L, elements_empty.
Qed.

(** Among heights from 2^32 - 1 on the pruning goes by creation, not by
    height: of five such heights, whatever their values, the one whose row
    was created first is pruned (with the bound 2) and the other four are
    kept. *)
Lemma large_heights_pruned_by_creation (a b c d e : BlockNumber) :
  Forall (λ k, is_array_index k = false) [a; b; c; d; e] →
  NoDup [a; b; c; d; e] →
  let cache : ConsensusView :=
    <[e := ∅]> (<[d := ∅]> (<[c := ∅]> (<[b := ∅]> (<[a := ∅]> ∅)))) in
  Object_keys cache = [a; b; c; d; e]
  ∧ truncate_cache 2 cache !! a = None
  ∧ ∀ k, k ∈ [b; c; d; e] → is_Some (truncate_cache 2 cache !! k).
Proof.
  intros Hix Hnd cache.
  rewrite !Forall_cons in Hix. destruct Hix as (Ha & Hb & Hc & Hd & He & _).
  rewrite !NoDup_cons, !not_elem_of_cons in Hnd.
  destruct Hnd as ((? & ? & ? & ? & _) & (? & ? & ? & _) & (? & ? & _)
                   & (? & _) & _).
  assert (Object_keys cache = [a; b; c; d; e]) as Hkeys.
  { unfold cache.
    rewrite !Object_keys_created_last, Object_keys_empty; try done;
      rewrite ?view_lookup_insert_ne by done; apply view_lookup_empty. }
  split; [exact Hkeys|].
  assert (∀ k, is_Some (truncate_cache 2 cache !! k) ↔ k ∈ [e; d; c; b])
    as Hkept.
  { intros k. rewrite truncate_cache_kept, Hkeys. done. }
  split.
  - destruct (truncate_cache 2 cache !! a) as [row|] eqn:Hrow; [|done].
    assert (a ∈ [e; d; c; b]) as Hin by (apply Hkept; eauto).
    rewrite !elem_of_cons, elem_of_nil in Hin.
    destruct Hin as [?|[?|[?|[?|[]]]]]; done.
  - intros k Hk. apply Hkept.
    rewrite !elem_of_cons, elem_of_nil in Hk.
    rewrite !elem_of_cons. tauto.
Qed.

Section Pruning.
Context `{Externals}.

(** C3 (as the code has it).  After every handled message the cache holds
    at most [MAX_BLOCKS_IN_NODE_CACHE + 2] heights: the pruning keeps the
    last [MAX_BLOCKS_IN_NODE_CACHE + 2] keys that [Object.keys] lists for
    the cache the handlers left (all of them when there are fewer), each
    with its row untouched.  Every pruned height comes before every kept
    one in the order of [Object.keys]; below a kept height that is an
    array index (a height under 2^32 - 1) this is the order of the
    heights, so the pruned heights are the lower ones, whereas heights
    from 2^32 - 1 on are kept by the order of their creation. *)
Theorem onMessage_prunes_to_newest clock message (s s' : Node) :
  onMessage clock message s = Some s' →
  ∃ s1 : Node,
    dispatch clock message s = Some s1
    ∧ size (consensusCache s')
      = min (MAX_BLOCKS_IN_NODE_CACHE + 2) (size (consensusCache s1))
    ∧ size (consensusCache s') ≤ MAX_BLOCKS_IN_NODE_CACHE + 2
    ∧ (∀ k row, consensusCache s' !! k = Some row →
                consensusCache s1 !! k = Some row)
    ∧ (∀ k, is_Some (consensusCache s' !! k)
            ↔ k ∈ take (MAX_BLOCKS_IN_NODE_CACHE + 2)
                    (reverse (Object_keys (consensusCache s1))))
    ∧ ∀ k k' : BlockNumber,
        is_Some (consensusCache s' !! k) →
        is_Some (consensusCache s1 !! k') →
        consensusCache s' !! k' = None →
        key_le (consensusCache s1) k' k
        ∧ k' ≠ k
        ∧ (is_array_index k = true → k' < k)
        ∧ (is_array_index k' = false →
           is_array_index k = false
           ∧ rank (consensusCache s1) k' ≤ rank (consensusCache s1) k).
Proof.
  unfold onMessage. intros Hm.
  destruct (dispatch clock message s) as [s1|] eqn:Hd; [|done].
  simpl in Hm. injection Hm as <-. exists s1. simpl.
  split; [done|]. split; [apply truncate_cache_size|].
  split; [rewrite truncate_cache_size; lia|].
  split; [apply truncate_cache_lookup|].
  split; [apply truncate_cache_kept|].
  intros k k' Hk Hk' Hgone.
  destruct (truncate_cache_last _ _ k k' Hk Hk' Hgone) as [Hle Hne].
  split; [done|]. split; [done|].
  unfold key_le in Hle.
  destruct (is_array_index k'), (is_array_index k); try done.
  - split; [lia|done].
  - split; [done|]. intros _. split; [done|lia].
Qed.

End Pruning.

Section PruningAtTwo.
#[local] Existing Instance sample2.

Lemma onMessage_prunes_to_newest_witness :
  onMessage (clock_at 5) (AfgReceivedPrevote 5 "0xabc" "V") after_four_votes
  = Some after_five_votes
  ∧ Object_keys (consensusCache after_four_votes) = [1; 2; 3; 4]
  ∧ Object_keys (consensusCache after_five_votes) = [2; 3; 4; 5]
  ∧ ∃ s1 : Node,
      dispatch (clock_at 5) (AfgReceivedPrevote 5 "0xabc" "V") after_four_votes
      = Some s1
      ∧ size (consensusCache after_five_votes)
        = min (MAX_BLOCKS_IN_NODE_CACHE + 2) (size (consensusCache s1))
      ∧ size (consensusCache after_five_votes) ≤ MAX_BLOCKS_IN_NODE_CACHE + 2
      ∧ (∀ k row, consensusCache after_five_votes !! k = Some row →
                  consensusCache s1 !! k = Some row)
      ∧ (∀ k, is_Some (consensusCache after_five_votes !! k)
              ↔ k ∈ take (MAX_BLOCKS_IN_NODE_CACHE + 2)
                      (reverse (Object_keys (consensusCache s1))))
      ∧ ∀ k k' : BlockNumber,
          is_Some (consensusCache after_five_votes !! k) →
          is_Some (consensusCache s1 !! k') →
          consensusCache after_five_votes !! k' = None →
          key_le (consensusCache s1) k' k
          ∧ k' ≠ k
          ∧ (is_array_index k = true → k' < k)
          ∧ (is_array_index k' = false →
             is_array_index k = false
             ∧ rank (consensusCache s1) k' ≤ rank (consensusCache s1) k).
Proof.
  assert (onMessage (clock_at 5) (AfgReceivedPrevote 5 "0xabc" "V")
            after_four_votes = Some after_five_votes) as Hm
    by (vm_compute; reflexivity).
  split; [exact Hm|].
  split; [vm_compute; reflexivity|].
  split; [vm_compute; reflexivity|].
  exact (onMessage_prunes_to_newest (clock_at 5)
           (AfgReceivedPrevote 5 "0xabc" "V") after_four_votes
           after_five_votes Hm).
Defined.

(** With the bound set to 2, five prevotes at the heights 1 to 5 leave the
    four heights 2 to 5 in the cache. *)
Lemma cache_bound_exceeded :
  ∃ s' : Node,
    onMessages [prevote_at 1 1; prevote_at 2 2; prevote_at 3 3; prevote_at 4 4;
                prevote_at 5 5] (new_Node (Some "N"%string) 0) = Some s'
    ∧ Object_keys (consensusCache s') = [2; 3; 4; 5]
    ∧ ¬ size (consensusCache s') ≤ MAX_BLOCKS_IN_NODE_CACHE.
Proof.
  eexists. split; [vm_compute; reflexivity|].
  split; [vm_compute; reflexivity|].
  vm_compute. lia.
Qed.

End PruningAtTwo.

(** ** Implicit flags *)

Lemma keeps_implicit_refl c : keeps_implicit c c.
Proof. intros h v info' Hr. right. eauto. Qed.

Lemma keeps_implicit_trans c1 c2 c3 :
  keeps_implicit c1 c2 → keeps_implicit c2 c3 → keeps_implicit c1 c3.
Proof.
  intros H12 H23 h v info3 Hr3.
  destruct (H23 h v info3 Hr3) as [He|(info2 & Hr2 & He2)]; [by left|].
  destruct (H12 h v info2 Hr2) as [He|(info1 & Hr1 & He1)].
  - left. congruence.
  - right. exists info1. split; [done|congruence].
Qed.

Lemma keeps_implicit_subseteq (c c' : ConsensusView) :
  (∀ k row, c' !! k = Some row → c !! k = Some row) → keeps_implicit c c'.
Proof.
  intros Hsub h v info' Hr. right. exists info'. split; [|done].
  unfold read_info in *.
  destruct (c' !! h) as [row|] eqn:Hrow; [|done].
  by rewrite (Hsub _ _ Hrow).
Qed.

Lemma read_info_insert h0 row (c : ConsensusView) h v :
  read_info h v (<[h0 := row]> c) =
  if decide (h0 = h) then row !! v else read_info h v c.
Proof.
  unfold read_info. rewrite view_lookup_insert.
  case_decide; subst; by rewrite ?decide_True, ?decide_False by done.
Qed.

(** The own records after [initialiseConsensusView]: a record is created,
    empty, for a truthy address that the row of that height neither holds
    nor inherits; every other record is as before. *)
Lemma initialise_read_info height addr (c : ConsensusView) h v :
  read_info h v (initialiseConsensusView height addr c) =
  if decide (h = height ∧ addr = Some v ∧ truthy addr = true
             ∧ read_info height v c = None ∧ inherited v c = None)
  then Some emptyInfo else read_info h v c.
Proof.
  unfold initialiseConsensusView.
  set (c1 := match c !! height with
             | Some _ => c
             | None => <[height := ∅]> c
             end).
  assert (∀ h' v', read_info h' v' c1 = read_info h' v' c) as Hc1.
  { intros h' v'. unfold c1. destruct (c !! height) as [row|] eqn:Hrow; [done|].
    rewrite read_info_insert. case_decide as Hh; [|done]. subst h'.
    unfold read_info. rewrite Hrow. by rewrite lookup_empty. }
  assert (is_Some (c1 !! height)) as [row Hrow].
  { unfold c1. destruct (c !! height) as [row|] eqn:Hrow; [by eauto|].
    rewrite view_lookup_insert_eq. eauto. }
  assert (∀ a, inherited a c1 = inherited a c) as Hinh.
  { intros a. apply inherited_prototype. unfold c1.
    by destruct (c !! height). }
  assert (∀ a, row !! a = read_info height a c) as Hra.
  { intros a. rewrite <- Hc1. unfold read_info. by rewrite Hrow. }
  destruct addr as [a|]; cycle 1.
  { rewrite Hc1. rewrite decide_False; [done|]. by intros (_ & ? & _). }
  destruct (truthy (Some a)) eqn:Ht; cycle 1.
  { rewrite Hc1. rewrite decide_False; [done|]. by intros (_ & _ & ? & _). }
  rewrite Hrow. unfold in_row. rewrite Hinh, Hra.
  destruct (read_info height a c) as [info|] eqn:Hown;
    [|destruct (inherited a c) as [m|] eqn:Hm]; simpl.
  { rewrite Hc1. rewrite decide_False; [done|].
    intros (-> & [= ->] & _ & Hn & _). congruence. }
  { rewrite Hc1. rewrite decide_False; [done|].
    intros (_ & [= ->] & _ & _ & Hn). congruence. }
  rewrite read_info_insert. case_decide as Hh.
  - subst h. rewrite lookup_insert. case_decide as Hv.
    + subst v. by rewrite decide_True.
    + rewrite decide_False by (intros (_ & [= ->] & _); done).
      by rewrite Hra.
  - rewrite Hc1. rewrite decide_False; [done|]. intros (-> & _). done.
Qed.

Lemma keeps_implicit_initialise height addr c :
  keeps_implicit c (initialiseConsensusView height addr c).
Proof.
  intros h v info'. rewrite initialise_read_info. case_decide.
  - intros [= <-]. by left.
  - right. eauto.
Qed.

(** The own records after an assignment: the record of that height and
    name, when the row holds one, is updated; a write through an inherited
    name changes no record. *)
Lemma update_info_read height addr g (c c' : ConsensusView) h v :
  update_info height addr g c = Some c' →
  read_info h v c' =
  if decide (h = height ∧ v = addr) then g <$> read_info height addr c
  else read_info h v c.
Proof.
  unfold update_info. intros Hu.
  destruct (c !! height) as [row|] eqn:Hrow; [|done]. simpl in Hu.
  assert (read_info height addr c = row !! addr) as Hown.
  { unfold read_info. by rewrite Hrow. }
  destruct (row !! addr) as [info|] eqn:Hinfo.
  - injection Hu as <-. rewrite read_info_insert. case_decide as Hh.
    + subst h. rewrite lookup_insert. case_decide as Hv.
      * subst v. rewrite decide_True by done. by rewrite Hown.
      * rewrite decide_False by (intros [_ ->]; done).
        unfold read_info. by rewrite Hrow.
    + rewrite decide_False; [done|]. by intros [-> _].
  - assert (read_info h v c' = read_info h v c) as ->.
    { destruct (inherited addr c) as [[]|]; simplify_eq; done. }
    case_decide as Hhv; [|done]. destruct Hhv as [-> ->].
    by rewrite Hown.
Qed.

Lemma keeps_implicit_update height addr g c c' :
  (∀ i, implicit_part (g i) = implicit_part i) →
  update_info height addr g c = Some c' →
  keeps_implicit c c'.
Proof.
  intros Hg Hu h v info' Hr. right.
  rewrite (update_info_read _ _ _ _ _ _ _ Hu) in Hr. case_decide as Hhv.
  - destruct Hhv as [-> ->].
    destruct (read_info height addr c) as [info|]; [|done].
    injection Hr as <-. exists info. by rewrite Hg.
  - eauto.
Qed.

Lemma keeps_implicit_markFinalized address height hash_ c c' :
  markFinalized address height hash_ c = Some c' →
  keeps_implicit c c'.
Proof.
  unfold markFinalized. intros Hm.
  repeat match type of Hm with
  | (?m ≫= _) = Some _ =>
      let c1 := fresh "c" in let E := fresh "E" in
      destruct m as [c1|] eqn:E; [simpl in Hm|done];
      apply keeps_implicit_update in E; [|done]
  end.
  apply keeps_implicit_update in Hm; [|done].
  eauto 10 using keeps_implicit_trans, keeps_implicit_initialise.
Qed.

(** A name that the row holds as its own evaluates to that record. *)
Lemma member_fields_own i voter (c : ConsensusView) info :
  read_info i voter c = Some info → member_fields i voter c = Some info.
Proof.
  unfold read_info, member_fields.
  destruct (c !! i) as [row|]; [|done]. simpl. by intros ->.
Qed.

(** The guards of the three predicates: a record that already has the
    flag, explicit or implicit, stops the walk and is left as it is. *)
Lemma prevote_mutate_guard voter from i (c : ConsensusView) info :
  read_info i voter c = Some info →
  Prevote info = true ∨ ImplicitPrevote info = true →
  prevote_mutate voter from i c = Some (false, c).
Proof.
  intros Hr Hset. unfold prevote_mutate, reads.
  rewrite (member_fields_own _ _ _ _ Hr). simpl.
  by destruct Hset as [-> | ->]; rewrite ?orb_true_r.
Qed.

Lemma precommit_mutate_guard voter from i (c : ConsensusView) info :
  read_info i voter c = Some info →
  Precommit info = true ∨ ImplicitPrecommit info = true →
  precommit_mutate voter from i c = Some (false, c).
Proof.
  intros Hr Hset. unfold precommit_mutate, reads.
  rewrite (member_fields_own _ _ _ _ Hr). simpl.
  by destruct Hset as [-> | ->]; rewrite ?orb_true_r.
Qed.

Lemma finalized_mutate_guard address to i (c : ConsensusView) info :
  read_info i (String_of address) c = Some info →
  Finalized info = true ∨ ImplicitFinalized info = true →
  finalized_mutate address to i c = Some (false, c).
Proof.
  intros Hr Hset. unfold finalized_mutate, reads.
  rewrite (member_fields_own _ _ _ _ Hr). simpl.
  by destruct Hset as [-> | ->]; rewrite ?orb_true_r.
Qed.

(** ** What a handled message leaves alone *)

Lemma occurrences_app e l1 l2 :
  occurrences e (l1 ++ l2) = occurrences e l1 + occurrences e l2.
Proof. unfold occurrences. by rewrite filter_app, length_app. Qed.

Lemma occurrences_snoc e l x :
  occurrences e (l ++ [x]) = occurrences e l + (if decide (x = e) then 1 else 0).
Proof.
  rewrite occurrences_app. f_equal. unfold occurrences.
  rewrite filter_cons, filter_nil. by case_decide.
Qed.

Section Frame.
Context `{Externals}.

Lemma handler_frame_refl s : handler_frame s s.
Proof. split; auto using keeps_implicit_refl. Qed.

Lemma handler_frame_trans s1 s2 s3 :
  handler_frame s1 s2 → handler_frame s2 s3 → handler_frame s1 s3.
Proof.
  intros [] []. split; eauto using keeps_implicit_trans; try congruence; lia.
Qed.

Lemma run_backfill_id voter from f (s : Node) :
  run_backfill voter from f s = Some s.
Proof.
  unfold run_backfill. rewrite backfill_value. simpl. by destruct s.
Qed.

Lemma accepts_spec update (s : Node) :
  accepts update s = true
  ↔ hash (best s) ≠ bb_best update ∧ number (best s) ≤ bb_height update.
Proof.
  unfold accepts. rewrite andb_true_iff, !bool_decide_eq_true. done.
Qed.

(** [updateBestBlock] never throws; its result in closed form. *)
Lemma updateBestBlock_value now update (s : Node) :
  updateBestBlock now update s =
  Some (if accepts update s then
          announce_block (getBlockTime (bb_ts update) s)
            (set_blockTime (getBlockTime (bb_ts update) s)
               (set_blockTimes
                  (NumStats_push (blockTimes s) (getBlockTime (bb_ts update) s))
                  (set_lastBlockAt (Some (bb_ts update))
                     (set_blockTimestamp now
                        (set_best (mkBlock (bb_height update) (bb_best update)) s)))))
        else s).
Proof.
  unfold updateBestBlock. destruct (accepts update s); [|done].
  apply run_backfill_id.
Qed.

Lemma announce_block_frame blockTime (s : Node) :
  handler_frame s (announce_block blockTime s).
Proof.
  unfold announce_block, coalescing_inv.
  repeat case_bool_decide; destruct (throttle s) eqn:Ht; simpl;
    split; simpl; rewrite ?occurrences_snoc, ?Ht;
    auto using keeps_implicit_refl; try (case_decide; done || lia).
  unfold coalescing_inv. simpl. rewrite Ht. by intros ->.
Qed.

Lemma updateBestBlock_frame now update (s s' : Node) :
  updateBestBlock now update s = Some s' → handler_frame s s'.
Proof.
  rewrite updateBestBlock_value. intros [= <-].
  destruct (accepts update s) eqn:Hacc; [|apply handler_frame_refl].
  apply accepts_spec in Hacc as [_ Hle].
  eapply handler_frame_trans; [|apply announce_block_frame].
  split; simpl; auto using keeps_implicit_refl.
Qed.

Lemma interval_network_state_frame ns (s : Node) :
  handler_frame s (interval_network_state ns s).
Proof.
  unfold interval_network_state.
  repeat case_match; split; simpl; auto using keeps_implicit_refl.
Qed.

Lemma interval_stats_frame p t (s : Node) :
  handler_frame s (interval_stats p t s).
Proof.
  unfold interval_stats.
  case_match; split; simpl; rewrite ?occurrences_snoc;
    auto using keeps_implicit_refl.
Qed.

Lemma interval_finalized_frame fh fhash (s : Node) :
  handler_frame s (interval_finalized fh fhash s).
Proof.
  unfold interval_finalized.
  repeat case_match; split; simpl; rewrite ?occurrences_snoc;
    auto using keeps_implicit_refl.
  match goal with
  | Hlt : bool_decide _ = true |- _ => apply bool_decide_eq_true in Hlt; lia
  end.
Qed.

Lemma interval_hardware_frame now c m d u (s : Node) :
  handler_frame s (interval_hardware now c m d u s).
Proof.
  unfold interval_hardware.
  repeat case_match; split; simpl; rewrite ?occurrences_snoc;
    auto using keeps_implicit_refl.
Qed.

Lemma onSystemInterval_frame now ns p t c m d u fh fhash (s : Node) :
  handler_frame s (onSystemInterval now ns p t c m d u fh fhash s).
Proof.
  unfold onSystemInterval.
  eapply handler_frame_trans; [|apply interval_hardware_frame].
  eapply handler_frame_trans; [|apply interval_finalized_frame].
  eapply handler_frame_trans; [|apply interval_stats_frame].
  apply interval_network_state_frame.
Qed.

(** A consensus handler only replaces the cache, without writing an
    implicit flag, and emits [consensus-info]. *)
Lemma consensus_update_frame (s : Node) (c' : ConsensusView) :
  keeps_implicit (consensusCache s) c' →
  handler_frame s (emit Ev_consensus_info (set_consensusCache c' s)).
Proof.
  intros Hk. split; simpl; rewrite ?occurrences_snoc; auto.
Qed.

(** The handlers that initialise a record, assign one explicit field and
    then call [backfill]. *)
Ltac explicit_update_frame Hh :=
  let c' := fresh "c" in
  let Hu := fresh "Hu" in
  destruct (update_info _ _ _ _) as [c'|] eqn:Hu; [|done];
  simpl in Hh; rewrite ?run_backfill_id in Hh; injection Hh as <-;
  apply consensus_update_frame;
  eapply keeps_implicit_trans; [apply keeps_implicit_initialise|];
  by eapply keeps_implicit_update; [|apply Hu].

Lemma onNotifyFinalized_frame best_ height (s s' : Node) :
  onNotifyFinalized best_ height s = Some s' → handler_frame s s'.
Proof. unfold onNotifyFinalized. intros Hh. explicit_update_frame Hh. Qed.

Lemma onAfgReceivedPrecommit_frame targetNumber message_voter (s s' : Node) :
  onAfgReceivedPrecommit targetNumber message_voter s = Some s' →
  handler_frame s s'.
Proof. unfold onAfgReceivedPrecommit. intros Hh. explicit_update_frame Hh. Qed.

Lemma onAfgReceivedPrevote_frame targetNumber message_voter (s s' : Node) :
  onAfgReceivedPrevote targetNumber message_voter s = Some s' →
  handler_frame s s'.
Proof. unfold onAfgReceivedPrevote. intros Hh. explicit_update_frame Hh. Qed.

Lemma onAfgFinalized_frame finalizedNumber finalizedHash (s s' : Node) :
  onAfgFinalized finalizedNumber finalizedHash s = Some s' →
  handler_frame s s'.
Proof.
  unfold onAfgFinalized. intros Hh.
  destruct (markFinalized _ _ _ _) as [c'|] eqn:Hm; [|done].
  simpl in Hh. rewrite run_backfill_id in Hh. injection Hh as <-.
  apply consensus_update_frame.
  by eapply keeps_implicit_markFinalized.
Qed.

Lemma onAfgAuthoritySet_frame id_ hash_ number_ text (s s' : Node) :
  onAfgAuthoritySet id_ hash_ number_ text s = Some s' →
  handler_frame s s'.
Proof.
  unfold onAfgAuthoritySet. intros Hh.
  destruct (JSON_parse text) as [a|]; [|done]. injection Hh as <-.
  case_match; split; simpl; rewrite ?occurrences_snoc;
    auto using keeps_implicit_refl.
Qed.

Lemma truncateBlockCache_frame (s : Node) :
  handler_frame s (truncateBlockCache s).
Proof.
  split; simpl; auto.
  apply keeps_implicit_subseteq, truncate_cache_lookup.
Qed.

Lemma dispatch_frame clock message (s s' : Node) :
  dispatch clock message s = Some s' → handler_frame s s'.
Proof.
  unfold dispatch. intros Hd.
  destruct (match getBestBlock message with
            | Some update => _
            | None => _
            end) as [s1|] eqn:Hupd; [|done].
  simpl in Hd.
  assert (handler_frame s s1) as Hs1.
  { eapply (handler_frame_trans _ (set_lastMessage (t_message clock) s)).
    - split; simpl; auto using keeps_implicit_refl.
    - destruct (getBestBlock message).
      + by eapply updateBestBlock_frame.
      + injection Hupd as <-. apply handler_frame_refl. }
  eapply handler_frame_trans; [apply Hs1|].
  destruct message; simplify_eq;
    eauto using onSystemInterval_frame, onNotifyFinalized_frame,
      onAfgFinalized_frame, onAfgReceivedPrecommit_frame,
      onAfgReceivedPrevote_frame, onAfgAuthoritySet_frame, handler_frame_refl.
Qed.

Lemma onMessage_frame clock message (s s' : Node) :
  onMessage clock message s = Some s' → handler_frame s s'.
Proof.
  unfold onMessage. intros Hm.
  destruct (dispatch clock message s) as [s1|] eqn:Hd; [|done].
  injection Hm as <-.
  eapply handler_frame_trans; [by eapply dispatch_frame|].
  apply truncateBlockCache_frame.
Qed.

Lemma onMessages_frame inputs (s s' : Node) :
  onMessages inputs s = Some s' → handler_frame s s'.
Proof.
  revert s. induction inputs as [|[clock message] rest IH]; intros s Hr.
  - injection Hr as <-. apply handler_frame_refl.
  - simpl in Hr.
    destruct (onMessage clock message s) as [s1|] eqn:Hm; [|done].
    eapply handler_frame_trans; [by eapply onMessage_frame|by apply IH].
Qed.

(** *** Steps of the session *)

Lemma step_frame i (s s' : Node) :
  step i s = Some s' → session_frame i s s'.
Proof.
  destruct i as [clock message| | |now|now ping_ok|]; simpl; intros Hs.
  - destruct (listeners (socket s)) eqn:Hl.
    + apply onMessage_frame in Hs as [].
      split; auto; simpl; [lia|]. rewrite frame_socket0, Hl. done.
    + injection Hs as <-.
      split; auto using keeps_implicit_refl; simpl; [lia|by rewrite Hl].
  - destruct (listeners (socket s)) eqn:Hl; injection Hs as <-;
      split; simpl; auto using keeps_implicit_refl;
      rewrite ?occurrences_snoc, ?Hl; simpl; done || lia.
  - destruct (listeners (socket s)) eqn:Hl; injection Hs as <-;
      split; simpl; auto using keeps_implicit_refl;
      rewrite ?occurrences_snoc, ?Hl; simpl; done || lia.
  - destruct (listeners (socket s)) eqn:Hl; injection Hs as <-;
      split; simpl; auto using keeps_implicit_refl;
      rewrite ?Hl; simpl; done || lia.
  - injection Hs as <-. unfold timeoutCheck, updateLatency.
    destruct (bool_decide (lastMessage s + TIMEOUT < now)%Z) eqn:Hlate.
    + split; simpl; auto using keeps_implicit_refl.
      * rewrite occurrences_snoc, Hlate. simpl. lia.
      * rewrite Hlate. simpl. by rewrite andb_false_r.
    + destruct ping_ok.
      * split; simpl; auto using keeps_implicit_refl.
        -- rewrite Hlate. simpl. lia.
        -- rewrite Hlate. simpl. by rewrite !andb_true_r.
      * split; simpl; auto using keeps_implicit_refl.
        -- rewrite occurrences_snoc, Hlate. simpl. lia.
        -- rewrite Hlate. simpl. by rewrite andb_false_r.
  - destruct (timers s) as [|d rest] eqn:Ht; [done|]. injection Hs as <-.
    split; simpl; auto using keeps_implicit_refl.
    + unfold coalescing_inv. simpl. rewrite Ht.
      destruct (throttle s); [|done]. by intros [= _ ->].
    + rewrite occurrences_snoc. simpl. lia.
    + by rewrite !andb_true_r.
Qed.

Lemma steps_frame inputs (s s' : Node) :
  steps inputs s = Some s' →
  keeps_implicit (consensusCache s) (consensusCache s')
  ∧ number (best s) ≤ number (best s')
  ∧ number (finalized s) ≤ number (finalized s')
  ∧ (coalescing_inv s → coalescing_inv s')
  ∧ occurrences Ev_disconnect (events s')
    = occurrences Ev_disconnect (events s)
      + count_steps socket_disconnects inputs s
      + count_steps check_disconnects inputs s
  ∧ count_steps socket_disconnects inputs s
    + (if listeners (socket s') then 1 else 0)
    ≤ (if listeners (socket s) then 1 else 0).
Proof.
  revert s. induction inputs as [|i rest IH]; intros s Hr.
  - injection Hr as <-. repeat split; auto using keeps_implicit_refl.
    simpl. lia.
  - simpl in Hr. destruct (step i s) as [s1|] eqn:Hs; [|done]. simpl in Hr.
    pose proof (step_frame _ _ _ Hs) as [].
    destruct (IH _ Hr) as (Hi & Hb & Hf & Hc & Hd & Hl).
    split; [eauto using keeps_implicit_trans|].
    split; [lia|]. split; [lia|]. split; [auto|].
    simpl. rewrite Hs. split; [lia|].
    rewrite sf_listeners0 in Hl.
    assert (socket_disconnects i s = true → listeners (socket s) = true) as Hsd
      by (by destruct i).
    destruct (listeners (socket s)), (socket_disconnects i s),
      (check_disconnects i s); simpl in *; try lia;
      by specialize (Hsd eq_refl).
Qed.

Lemma new_Node_coalescing address now : coalescing_inv (new_Node address now).
Proof. reflexivity. Qed.

End Frame.

Section SessionProperties.
Context `{Externals}.

(** C4.  Take a record at (height, voter) whose explicit [Prevote] is set
    and whose [ImplicitPrevote] is not: after any later steps of the
    session (messages, with their backfill passes, included) the record at
    that height and voter, if there is one, still has [ImplicitPrevote]
    unset.  The same holds for [Precommit] and [Finalized] with their
    implicit flags. *)
Theorem implicit_never_follows_explicit inputs (s s' : Node)
    (h : BlockNumber) (v : Address) (info info' : ConsensusInfo) :
  steps inputs s = Some s' →
  read_info h v (consensusCache s) = Some info →
  read_info h v (consensusCache s') = Some info' →
  (Prevote info = true → ImplicitPrevote info = false →
     ImplicitPrevote info' = false)
  ∧ (Precommit info = true → ImplicitPrecommit info = false →
       ImplicitPrecommit info' = false)
  ∧ (Finalized info = true → ImplicitFinalized info = false →
       ImplicitFinalized info' = false).
Proof.
  intros Hsteps Hinfo Hinfo'.
  apply steps_frame in Hsteps as (Hkeep & _).
  destruct (Hkeep h v info' Hinfo') as [He|(info0 & Hr & He)].
  - injection He as -> -> -> _. done.
  - rewrite Hinfo in Hr. injection Hr as <-.
    injection He as -> -> -> _. done.
Qed.

(** *** Best block *)

Lemma updateBestBlock_best now update (s s' : Node) :
  updateBestBlock now update s = Some s' →
  if accepts update s
  then best s' = mkBlock (bb_height update) (bb_best update)
       ∧ lastBlockAt s' = Some (bb_ts update)
       ∧ blockTimestamp s' = now
       ∧ blockTime s' = getBlockTime (bb_ts update) s
  else s' = s.
Proof.
  rewrite updateBestBlock_value. intros [= <-].
  destruct (accepts update s); [|done].
  unfold announce_block. repeat case_match; done.
Qed.

Lemma updateBestBlocks_total updates (s : Node) :
  ∃ s', updateBestBlocks updates s = Some s'
        ∧ number (best s) ≤ number (best s').
Proof.
  revert s. induction updates as [|[now update] rest IH]; intros s; simpl.
  - eauto.
  - destruct (updateBestBlock now update s) as [s1|] eqn:Hu;
      [|by rewrite updateBestBlock_value in Hu].
    simpl. destruct (IH s1) as (s' & Hrest & Hle). exists s'. split; [done|].
    apply updateBestBlock_frame in Hu as []. lia.
Qed.

(** C6.  Inside any sequence of best-block updates, an update is applied
    exactly when its hash differs from [best.hash] and its height is at
    least [best.height]; an applied update stores the new block, any other
    leaves the node as it is.  The stored height therefore never decreases
    along the sequence, and an update at the stored height keeps the
    height. *)
Theorem best_block_only_advances (before after : list (Z * BestBlock))
    (now : Z) (update : BestBlock) (s : Node) :
  ∃ s1 s2 s3 : Node,
    updateBestBlocks before s = Some s1
    ∧ updateBestBlock now update s1 = Some s2
    ∧ updateBestBlocks after s2 = Some s3
    ∧ (accepts update s1 = true
       ↔ hash (best s1) ≠ bb_best update ∧ number (best s1) ≤ bb_height update)
    ∧ (if accepts update s1
       then best s2 = mkBlock (bb_height update) (bb_best update)
            ∧ lastBlockAt s2 = Some (bb_ts update)
            ∧ blockTimestamp s2 = now
            ∧ blockTime s2 = getBlockTime (bb_ts update) s1
       else s2 = s1)
    ∧ number (best s) ≤ number (best s1)
    ∧ number (best s1) ≤ number (best s2)
    ∧ number (best s2) ≤ number (best s3)
    ∧ (bb_height update = number (best s1) →
       number (best s2) = number (best s1)).
Proof.
  destruct (updateBestBlocks_total before s) as (s1 & Hb & Hle1).
  destruct (updateBestBlocks_total [(now, update)] s1) as (s2 & Hu & Hle2).
  simpl in Hu.
  destruct (updateBestBlock now update s1) as [s2'|] eqn:Hu'; [|done].
  injection Hu as ->.
  destruct (updateBestBlocks_total after s2) as (s3 & Ha & Hle3).
  exists s1, s2, s3. repeat split; try done.
  - by apply accepts_spec.
  - by apply accepts_spec.
  - by apply accepts_spec.
  - by apply updateBestBlock_best.
  - intros Hsame. apply updateBestBlock_best in Hu'.
    destruct (accepts update s1); [|by subst].
    destruct Hu' as (-> & _). done.
Qed.

(** *** Finalized block *)

(** The parts of [onSystemInterval] around [interval_finalized] keep the
    finalized block and emit no [finalized] event. *)
Lemma interval_network_state_finalized ns (s : Node) :
  finalized (interval_network_state ns s) = finalized s
  ∧ events (interval_network_state ns s) = events s.
Proof. unfold interval_network_state. repeat case_match; done. Qed.

Lemma interval_stats_finalized p t (s : Node) :
  finalized (interval_stats p t s) = finalized s
  ∧ occurrences Ev_finalized (events (interval_stats p t s))
    = occurrences Ev_finalized (events s).
Proof.
  unfold interval_stats. case_match; simpl; rewrite ?occurrences_snoc; simpl;
    split; done || lia.
Qed.

Lemma interval_hardware_finalized now c m d u (s : Node) :
  finalized (interval_hardware now c m d u s) = finalized s
  ∧ occurrences Ev_finalized (events (interval_hardware now c m d u s))
    = occurrences Ev_finalized (events s).
Proof.
  unfold interval_hardware.
  repeat case_match; simpl; rewrite ?occurrences_snoc; simpl;
    split; done || lia.
Qed.

Lemma interval_finalized_spec fh fhash (s : Node) :
  finalized (interval_finalized fh fhash s)
  = (if replaces_finalized fh fhash s
     then mkBlock (default 0 fh) (default EmptyString fhash)
     else finalized s)
  ∧ occurrences Ev_finalized (events (interval_finalized fh fhash s))
    = occurrences Ev_finalized (events s)
      + (if replaces_finalized fh fhash s then 1 else 0).
Proof.
  unfold interval_finalized, replaces_finalized.
  repeat case_match; simpl; rewrite ?occurrences_snoc; simpl;
    split; done || lia.
Qed.

Lemma onSystemInterval_finalized now ns p t c m d u fh fhash (s : Node) :
  finalized (onSystemInterval now ns p t c m d u fh fhash s)
  = (if replaces_finalized fh fhash s
     then mkBlock (default 0 fh) (default EmptyString fhash)
     else finalized s)
  ∧ occurrences Ev_finalized
      (events (onSystemInterval now ns p t c m d u fh fhash s))
    = occurrences Ev_finalized (events s)
      + (if replaces_finalized fh fhash s then 1 else 0).
Proof.
  unfold onSystemInterval.
  destruct (interval_network_state_finalized ns s) as [Hn1 Hn2].
  destruct (interval_stats_finalized p t (interval_network_state ns s))
    as [Hs1 Hs2].
  destruct (interval_finalized_spec fh fhash
              (interval_stats p t (interval_network_state ns s))) as [Hf1 Hf2].
  destruct (interval_hardware_finalized now c m d u
              (interval_finalized fh fhash
                 (interval_stats p t (interval_network_state ns s))))
    as [Hh1 Hh2].
  assert (replaces_finalized fh fhash
            (interval_stats p t (interval_network_state ns s))
          = replaces_finalized fh fhash s) as Hr.
  { unfold replaces_finalized. by rewrite Hs1, Hn1. }
  rewrite Hh1, Hh2, Hf1, Hf2, Hr, Hs1, Hs2, Hn1, Hn2. done.
Qed.

(** C7.  A [system.interval] message replaces the stored finalized block
    exactly when it carries a finalized height and hash and the height is
    strictly above [finalized.height]; the [finalized] event is emitted
    once in that case and not at all otherwise.  Over any steps of the
    session the finalized height never decreases. *)
Theorem finalized_only_advances inputs (s s' : Node) now ns p t c m d u
    (fh : option BlockNumber) (fhash : option BlockHash) :
  steps inputs s = Some s' →
  let s'' := onSystemInterval now ns p t c m d u fh fhash s' in
  (replaces_finalized fh fhash s' = true
   ↔ ∃ fin finHash, fh = Some fin ∧ fhash = Some finHash
                    ∧ number (finalized s') < fin)
  ∧ finalized s''
    = (if replaces_finalized fh fhash s'
       then mkBlock (default 0 fh) (default EmptyString fhash)
       else finalized s')
  ∧ occurrences Ev_finalized (events s'')
    = occurrences Ev_finalized (events s')
      + (if replaces_finalized fh fhash s' then 1 else 0)
  ∧ number (finalized s) ≤ number (finalized s')
  ∧ number (finalized s') ≤ number (finalized s'').
Proof.
  intros Hsteps s''. apply steps_frame in Hsteps as (_ & _ & Hfin & _).
  destruct (onSystemInterval_finalized now ns p t c m d u fh fhash s')
    as [Hf He].
  repeat split; try done.
  - unfold replaces_finalized. destruct fh, fhash; try done.
    intros Hlt%bool_decide_eq_true. eauto.
  - intros (fin & finHash & -> & -> & Hlt). by apply bool_decide_eq_true.
  - apply onSystemInterval_frame.
Qed.

(** *** Block events *)

(** What one applied update does to the event log, the flag and the
    timers. *)
Lemma updateBestBlock_announce now update (s s' : Node) :
  updateBestBlock now update s = Some s' →
  if accepts update s then
    if bool_decide (100 < getBlockTime (bb_ts update) s)%Z
    then events s' = events s ++ [Ev_block]
         ∧ throttle s' = throttle s ∧ timers s' = timers s
    else events s' = events s
         ∧ throttle s' = true
         ∧ timers s' = (if throttle s then timers s else timers s ++ [1000%Z])
  else s' = s.
Proof.
  rewrite updateBestBlock_value. intros [= <-].
  destruct (accepts update s); [|done].
  unfold announce_block. simpl. case_bool_decide; [done|].
  destruct (throttle s) eqn:Ht; simpl; rewrite ?Ht; done.
Qed.

Lemma sub100_burst_quiet burst (s : Node) :
  sub100_burst burst s = true →
  ∃ s1, updateBestBlocks burst s = Some s1
        ∧ events s1 = events s
        ∧ (coalescing_inv s → coalescing_inv s1).
Proof.
  revert s. induction burst as [|[now update] rest IH]; intros s Hb; simpl.
  - eauto.
  - simpl in Hb. apply andb_true_iff in Hb as [Hq Hrest].
    destruct (updateBestBlock now update s) as [s0|] eqn:Hu; [|done].
    simpl. destruct (IH s0 Hrest) as (s1 & Hr & He & Hi).
    exists s1. split; [done|].
    pose proof (updateBestBlock_frame _ _ _ _ Hu) as [].
    split; [|by auto].
    rewrite He. apply updateBestBlock_announce in Hu.
    destruct (accepts update s); [|by subst].
    simpl in Hq. apply bool_decide_eq_true in Hq.
    rewrite bool_decide_eq_false_2 in Hu by lia. by destruct Hu.
Qed.

(** C8.  In a state the session can reach: an applied update whose block
    time exceeds 100 ms emits [block] at once and leaves flag and timers
    alone; any other applied update emits nothing, and starts the one
    second timer only when none is pending.  A burst of updates with block
    times of at most 100 ms therefore emits no [block] event and leaves at
    most one timer pending; that timer, when it fires, emits exactly one
    [block] event and clears the flag, and no timer means no event. *)
Theorem block_events_coalesced inputs address t0 (s : Node)
    (now : Z) (update : BestBlock) (burst : list (Z * BestBlock)) :
  steps inputs (new_Node address t0) = Some s →
  sub100_burst burst s = true →
  (∃ s', updateBestBlock now update s = Some s'
     ∧ if accepts update s then
         if bool_decide (100 < getBlockTime (bb_ts update) s)%Z
         then events s' = events s ++ [Ev_block]
              ∧ throttle s' = throttle s ∧ timers s' = timers s
         else events s' = events s
              ∧ throttle s' = true
              ∧ timers s' = [1000%Z]
              ∧ (if throttle s then timers s' = timers s else timers s = [])
       else s' = s)
  ∧ (∃ s1, updateBestBlocks burst s = Some s1
       ∧ events s1 = events s
       ∧ length (timers s1) ≤ 1
       ∧ if throttle s1
         then ∃ s2, step TimerFires s1 = Some s2
                    ∧ events s2 = events s1 ++ [Ev_block]
                    ∧ throttle s2 = false
                    ∧ timers s2 = []
         else timers s1 = [] ∧ step TimerFires s1 = None).
Proof.
  intros Hreach Hburst.
  assert (coalescing_inv s) as Hinv.
  { apply steps_frame in Hreach as (_ & _ & _ & Hc & _).
    apply Hc, new_Node_coalescing. }
  split.
  - destruct (updateBestBlock now update s) as [s'|] eqn:Hu;
      [|by rewrite updateBestBlock_value in Hu].
    exists s'. split; [done|].
    apply updateBestBlock_announce in Hu.
    destruct (accepts update s); [|done].
    case_bool_decide; [done|].
    destruct Hu as (He & Ht & Htm). unfold coalescing_inv in Hinv.
    rewrite Htm, Hinv. by destruct (throttle s).
  - destruct (sub100_burst_quiet burst s Hburst) as (s1 & Hr & He & Hi).
    exists s1. split; [done|]. split; [done|].
    specialize (Hi Hinv). unfold coalescing_inv in Hi.
    simpl. rewrite Hi. destruct (throttle s1) eqn:Ht; simpl.
    + split; [lia|]. eexists. split; [done|]. by simpl.
    + split; [lia|]. done.
Qed.

(** *** Disconnects *)

(** C9 (as the code has it).  Every call of [disconnect] releases the
    listeners, closes and terminates the socket and emits one [disconnect]
    event.  Once that happened the notifications of the socket no longer
    reach the node.  Over any steps the [disconnect] events are, one for
    one, the closes and errors that reached the node and the timeout
    checks that found the deadline passed or the ping throwing; the
    closes and errors that reach the node are at most one, and none once
    a disconnect has released the listeners. *)
Theorem disconnect_once_per_call inputs (s s' : Node) :
  steps inputs s = Some s' →
  socket (disconnect s') = mkSocket false true true (pings (socket s'))
  ∧ events (disconnect s') = events s' ++ [Ev_disconnect]
  ∧ (∀ i, is_socket_notification i = true →
          step i (disconnect s') = Some (disconnect s'))
  ∧ occurrences Ev_disconnect (events s')
    = occurrences Ev_disconnect (events s)
      + count_steps socket_disconnects inputs s
      + count_steps check_disconnects inputs s
  ∧ count_steps socket_disconnects inputs s
    + (if listeners (socket s') then 1 else 0)
    ≤ (if listeners (socket s) then 1 else 0).
Proof.
  intros Hsteps. split; [done|]. split; [done|]. split.
  - intros i Hi. destruct i; done.
  - by apply steps_frame in Hsteps as (_ & _ & _ & _ & Hd & Hl).
Qed.

(** *** Authority set *)

(** Handling [afg.authority_set] twice with a set id other than the stored
    one emits [authority-set-changed] both times: the stored id is the
    same after as before. *)
Lemma onAfgAuthoritySet_twice id_ hash_ number_ text (s s1 s2 : Node) :
  authoritySetId s ≠ id_ →
  onAfgAuthoritySet id_ hash_ number_ text s = Some s1 →
  onAfgAuthoritySet id_ hash_ number_ text s1 = Some s2 →
  ∃ a, JSON_parse text = Some a
       ∧ events s1 = events s ++ [Ev_authority_set_changed a id_ number_ hash_]
       ∧ events s2 = events s1 ++ [Ev_authority_set_changed a id_ number_ hash_]
       ∧ authorities s1 = a ∧ authorities s2 = a
       ∧ authoritySetId s2 = authoritySetId s.
Proof.
  unfold onAfgAuthoritySet. intros Hid H1 H2.
  destruct (JSON_parse text) as [a|]; [|done]. simpl in *.
  injection H1 as <-. injection H2 as <-. exists a. simpl.
  rewrite (bool_decide_eq_true_2 (authoritySetId s ≠ id_)) by done.
  rewrite orb_true_r. simpl.
  rewrite (bool_decide_eq_true_2 (authoritySetId s ≠ id_)) by done.
  rewrite orb_true_r. done.
Qed.

(** With the stored id equal to the message's, the event is emitted
    exactly when the encoded list differs from the stored one, and the
    stored list is replaced either way. *)
Lemma onAfgAuthoritySet_same_id hash_ number_ text (s s1 : Node) :
  onAfgAuthoritySet (authoritySetId s) hash_ number_ text s = Some s1 →
  ∃ a, JSON_parse text = Some a
       ∧ authorities s1 = a
       ∧ events s1
         = events s
           ++ (if bool_decide (JSON_stringify (authorities s) ≠ text)
               then [Ev_authority_set_changed a (authoritySetId s) number_ hash_]
               else []).
Proof.
  unfold onAfgAuthoritySet. intros H1.
  destruct (JSON_parse text) as [a|]; [|done]. simpl in *.
  injection H1 as <-. exists a.
  rewrite (bool_decide_eq_false_2 (authoritySetId s ≠ authoritySetId s))
    by (intros Hne; by apply Hne).
  rewrite orb_false_r. case_bool_decide; simpl; by rewrite ?app_nil_r.
Qed.

End SessionProperties.

(** ** The model on concrete sessions *)

Section Concrete.
#[local] Existing Instance sample2.

Lemma implicit_never_follows_explicit_witness :
  steps later_inputs voted_node = Some after_later_inputs
  ∧ read_info 103 "V" (consensusCache voted_node) = Some (set_Prevote emptyInfo)
  ∧ read_info 103 "V" (consensusCache after_later_inputs)
    = Some (set_Prevote emptyInfo)
  ∧ ImplicitPrevote (set_Prevote emptyInfo) = false.
Proof.
  assert (steps later_inputs voted_node = Some after_later_inputs) as Hs
    by (vm_compute; reflexivity).
  assert (read_info 103 "V" (consensusCache voted_node)
          = Some (set_Prevote emptyInfo)) as Hr by (vm_compute; reflexivity).
  assert (read_info 103 "V" (consensusCache after_later_inputs)
          = Some (set_Prevote emptyInfo)) as Hr' by (vm_compute; reflexivity).
  split; [exact Hs|]. split; [exact Hr|]. split; [exact Hr'|].
  exact (proj1 (implicit_never_follows_explicit later_inputs voted_node
                  after_later_inputs 103 "V"%string (set_Prevote emptyInfo)
                  (set_Prevote emptyInfo) Hs Hr Hr') eq_refl eq_refl).
Defined.

Lemma best_block_only_advances_witness :
  ∃ s1 s2 s3 : Node,
    updateBestBlocks [block_at 7 1000 "0x07"] node0 = Some s1
    ∧ updateBestBlock 2000 (mkBestBlock 7 2000 "0x77") s1 = Some s2
    ∧ updateBestBlocks [block_at 6 3000 "0x06"] s2 = Some s3
    ∧ number (best node0) ≤ number (best s1)
    ∧ number (best s1) ≤ number (best s2)
    ∧ number (best s2) ≤ number (best s3).
Proof.
  destruct (best_block_only_advances [block_at 7 1000 "0x07"]
              [block_at 6 3000 "0x06"] 2000 (mkBestBlock 7 2000 "0x77") node0)
    as (s1 & s2 & s3 & H1 & H2 & H3 & _ & _ & L1 & L2 & L3 & _).
  exists s1, s2, s3. done.
Defined.

Lemma finalized_only_advances_witness :
  steps interval_inputs node0 = Some after_interval
  ∧ number (finalized node0) ≤ number (finalized after_interval)
  ∧ number (finalized after_interval)
    ≤ number (finalized (onSystemInterval 2 None 3 0 None None 0%Z 0%Z (Some 4)
                           (Some "0xf4"%string) after_interval)).
Proof.
  assert (steps interval_inputs node0 = Some after_interval) as Hs
    by (vm_compute; reflexivity).
  split; [exact Hs|].
  pose proof (finalized_only_advances interval_inputs node0 after_interval
                2 None 3 0 None None 0%Z 0%Z (Some 4) (Some "0xf4"%string) Hs)
    as Hw.
  cbv zeta in Hw. destruct Hw as (_ & _ & _ & Hle1 & Hle2).
  split; assumption.
Defined.

Lemma block_events_coalesced_witness :
  sub100_burst fast_burst node0 = true
  ∧ ∃ s1 s2 : Node,
      updateBestBlocks fast_burst node0 = Some s1
      ∧ events s1 = []
      ∧ timers s1 = [1000%Z]
      ∧ step TimerFires s1 = Some s2
      ∧ events s2 = [Ev_block].
Proof.
  split; [vm_compute; reflexivity|].
  destruct (block_events_coalesced [] (Some "N"%string) 0 node0 0
              (mkBestBlock 0 0 "") fast_burst)
    as (_ & s1 & Hr & He & _ & Ht); [reflexivity|vm_compute; reflexivity|].
  assert (updateBestBlocks fast_burst node0 = Some s1 → throttle s1 = true
          ∧ timers s1 = [1000%Z]) as Hcomp.
  { vm_compute. by intros [= <-]. }
  destruct (Hcomp Hr) as [Hth Htm]. rewrite Hth in Ht.
  destruct Ht as (s2 & Hs & He2 & _).
  exists s1, s2. rewrite He2, He. done.
Defined.

Lemma disconnect_once_per_call_witness :
  steps close_inputs node0 = Some after_close
  ∧ count_steps check_disconnects close_inputs node0 = 0
  ∧ occurrences Ev_disconnect (events after_close) = 1.
Proof.
  assert (steps close_inputs node0 = Some after_close) as Hs
    by (vm_compute; reflexivity).
  assert (count_steps check_disconnects close_inputs node0 = 0) as Hc
    by (vm_compute; reflexivity).
  assert (count_steps socket_disconnects close_inputs node0 = 1) as Hn
    by (vm_compute; reflexivity).
  split; [exact Hs|]. split; [exact Hc|].
  destruct (disconnect_once_per_call _ _ _ Hs) as (_ & _ & _ & Hd & _).
  rewrite Hd, Hc, Hn. reflexivity.
Defined.

(** Two timeout checks past the deadline emit [disconnect] twice. *)
Lemma disconnect_emitted_twice :
  ∃ s' : Node,
    steps [TimeoutCheck 60001 true; TimeoutCheck 60002 true] node0 = Some s'
    ∧ events s' = [Ev_disconnect; Ev_disconnect]
    ∧ occurrences Ev_disconnect (events s') = 2.
Proof.
  eexists. split; [vm_compute; reflexivity|].
  split; vm_compute; reflexivity.
Qed.

(** C5, on the code.  Two consecutive [afg.authority_set] messages with
    the same encoded list and the same set id 1, sent to a fresh node:
    [authority-set-changed] is emitted for the first and again for the
    second; the stored list is replaced both times, the stored set id
    stays 0. *)
Theorem authority_set_event_repeats :
  ∃ s1 s2 : Node,
    onAfgAuthoritySet 1 "0xa7" 7 one_authority node0 = Some s1
    ∧ onAfgAuthoritySet 1 "0xa7" 7 one_authority s1 = Some s2
    ∧ events s1 = [Ev_authority_set_changed ["5Grw"%string] 1 7 "0xa7"]
    ∧ events s2 = [Ev_authority_set_changed ["5Grw"%string] 1 7 "0xa7";
                   Ev_authority_set_changed ["5Grw"%string] 1 7 "0xa7"]
    ∧ authorities s1 = ["5Grw"%string]
    ∧ authorities s2 = ["5Grw"%string]
    ∧ JSON_stringify (authorities s1) = one_authority
    ∧ authoritySetId s1 = 0
    ∧ authoritySetId s2 = 0.
Proof.
  eexists _, _.
  split; [vm_compute; reflexivity|].
  split; [vm_compute; reflexivity|].
  repeat split; vm_compute; reflexivity.
Qed.

End Concrete.

(** * Further properties of the node *)

(** ** [initialiseConsensusView] *)

Lemma initialise_lookup_ne height addr (c : ConsensusView) h' :
  h' ≠ height → initialiseConsensusView height addr c !! h' = c !! h'.
Proof.
  intros Hne. unfold initialiseConsensusView.
  destruct addr as [a|]; [destruct (truthy (Some a))|];
    repeat case_match; simplify_eq; by rewrite ?view_lookup_insert_ne by done.
Qed.

(** The prototype is out of the reach of the initialisation. *)
Lemma initialise_prototype height addr (c : ConsensusView) :
  prototype_fields (initialiseConsensusView height addr c) = prototype_fields c
  ∧ builtin_fields (initialiseConsensusView height addr c) = builtin_fields c.
Proof.
  unfold initialiseConsensusView.
  destruct addr as [a|]; [destruct (truthy (Some a))|];
    repeat case_match; done.
Qed.

Lemma initialise_inherited height addr (c : ConsensusView) a :
  inherited a (initialiseConsensusView height addr c) = inherited a c.
Proof. apply inherited_prototype, initialise_prototype. Qed.

(** The row of [height] after the call: the old row, or a fresh one, with
    an empty record added for a truthy address that the row neither holds
    nor inherits. *)
Lemma initialise_lookup_eq height addr (c : ConsensusView) :
  initialiseConsensusView height addr c !! height =
  Some (let row := default ∅ (c !! height) in
        match addr with
        | Some a =>
            if truthy addr then
              if in_row a row c then row else <[a := emptyInfo]> row
            else row
        | None => row
        end).
Proof.
  unfold initialiseConsensusView.
  destruct (c !! height) as [row|] eqn:Hrow; simpl.
  - destruct addr as [a|]; [|done].
    destruct (truthy (Some a)); [|done].
    rewrite Hrow. destruct (in_row a row c); [done|].
    by rewrite view_lookup_insert_eq.
  - destruct addr as [a|]; [|by rewrite view_lookup_insert_eq].
    destruct (truthy (Some a)); [|by rewrite view_lookup_insert_eq].
    rewrite view_lookup_insert_eq.
    assert (in_row a ∅ (<[height := ∅]> c) = in_row a ∅ c) as -> by done.
    destruct (in_row a ∅ c); by rewrite view_lookup_insert_eq.
Qed.

Lemma initialise_dom height addr (c : ConsensusView) :
  dom (rows (initialiseConsensusView height addr c)) = {[height]} ∪ dom (rows c).
Proof.
  apply set_eq. intros k.
  rewrite elem_of_union, elem_of_singleton, !elem_of_dom, <- !view_lookup_rows.
  destruct (decide (k = height)) as [->|Hne].
  - rewrite initialise_lookup_eq. split; eauto.
  - rewrite initialise_lookup_ne by done. split; [eauto|]. by intros [|].
Qed.

(** X1.  [initialiseConsensusView(height, addr)] always leaves a row at
    [height], changes no other height and keeps every record that existed.
    For a truthy address the row of [height] then holds a record: the one
    it held, or an empty one; unless the row inherits the address as a
    name of [Object.prototype], in which case no record is created.  The
    call adds at most one height to the cache and leaves the prototype as
    it is. *)
Theorem initialiseConsensusView_ensures height addr (c : ConsensusView) :
  is_Some (initialiseConsensusView height addr c !! height)
  ∧ (∀ h', h' ≠ height →
       initialiseConsensusView height addr c !! h' = c !! h')
  ∧ (∀ h v info, read_info h v c = Some info →
       read_info h v (initialiseConsensusView height addr c) = Some info)
  ∧ (∀ a, addr = Some a → truthy addr = true →
       read_info height a (initialiseConsensusView height addr c)
       = match inherited a c with
         | None => Some (default emptyInfo (read_info height a c))
         | Some _ => read_info height a c
         end)
  ∧ size c ≤ size (initialiseConsensusView height addr c)
  ∧ size (initialiseConsensusView height addr c) ≤ S (size c)
  ∧ prototype_fields (initialiseConsensusView height addr c) = prototype_fields c
  ∧ builtin_fields (initialiseConsensusView height addr c) = builtin_fields c.
Proof.
  split; [rewrite initialise_lookup_eq; eauto|].
  split; [intros h' Hne; by apply initialise_lookup_ne|].
  split.
  { intros h v info Hr. rewrite initialise_read_info, Hr.
    rewrite decide_False; [done|]. intros (-> & _ & _ & Hn & _). congruence. }
  split.
  { intros a -> Ht. rewrite initialise_read_info.
    destruct (read_info height a c) as [info|] eqn:Hown.
    - rewrite decide_False by (by intros (_ & _ & _ & ? & _)).
      by destruct (inherited a c).
    - destruct (inherited a c) as [m|] eqn:Hm.
      + rewrite decide_False; [done|]. by intros (_ & _ & _ & _ & ?).
      + by rewrite decide_True. }
  rewrite !view_size_rows, <- !size_dom, initialise_dom.
  split; [apply subseteq_size, union_subseteq_r|].
  split; [|apply initialise_prototype].
  rewrite size_union_alt, size_singleton.
  assert (dom (rows c) ∖ {[height]} ⊆ dom (rows c)) as Hsub
    by by apply subseteq_difference_l.
  apply subseteq_size in Hsub. lia.
Qed.

(** An assignment to a field succeeds exactly when the row holds a record
    under the name, or the row is there and inherits the name as a
    built-in member or as the prototype itself. *)
Lemma update_info_is_Some height addr g (c : ConsensusView) :
  is_Some (update_info height addr g c)
  ↔ is_Some (read_info height addr c)
    ∨ (is_Some (c !! height)
       ∧ (inherited addr c = Some BuiltinMember
          ∨ inherited addr c = Some PrototypeItself)).
Proof.
  unfold update_info, read_info.
  destruct (c !! height) as [row|]; simpl.
  - destruct (row !! addr); simpl; [split; eauto|].
    destruct (inherited addr c) as [[]|]; simpl.
    + split; eauto.
    + split; eauto.
    + split; [by intros [? ?]|]. intros [[? ?]|[_ [?|?]]]; done.
    + split; [by intros [? ?]|]. intros [[? ?]|[_ [?|?]]]; done.
  - split; [by intros [? ?]|]. intros [[? ?]|[[? ?] _]]; done.
Qed.

(** The name of a falsy address is no name that a row inherits. *)
Lemma inherited_falsy addr (c : ConsensusView) :
  truthy addr = false → inherited (String_of addr) c = None.
Proof. destruct addr as [[|]|]; done. Qed.

(** Nothing is left to do when the row is there and holds or inherits a
    truthy address. *)
Lemma initialise_present height addr (c : ConsensusView) row :
  c !! height = Some row →
  (∀ a, addr = Some a → truthy addr = true → in_row a row c = true) →
  initialiseConsensusView height addr c = c.
Proof.
  intros Hrow Hrec. unfold initialiseConsensusView. rewrite Hrow.
  destruct addr as [a|]; [|done].
  destruct (truthy (Some a)) eqn:Ht; [|done].
  rewrite Hrow. by rewrite (Hrec a eq_refl eq_refl).
Qed.

(** After the initialisation for a truthy address, an assignment to a
    field under that address throws only when the row holds no record
    under it and inherits it as a stored value. *)
Lemma initialise_then_update height addr g (c : ConsensusView) :
  truthy addr = true →
  is_Some (update_info height (String_of addr) g
             (initialiseConsensusView height addr c))
  ↔ ¬ (read_info height (String_of addr) c = None
       ∧ inherited (String_of addr) c = Some StoredValue).
Proof.
  intros Ht. destruct addr as [a|]; [|done].
  change (String_of (Some a)) with a.
  rewrite update_info_is_Some, initialise_read_info, initialise_inherited.
  pose proof (initialise_lookup_eq height (Some a) c) as Hrow.
  destruct (read_info height a c) as [info|] eqn:Hown.
  { rewrite decide_False by (by intros (_ & _ & _ & ? & _)).
    split; [by intros _ [? _]|]. intros _. left. eauto. }
  destruct (inherited a c) as [[]|] eqn:Hm.
  - rewrite decide_False by (by intros (_ & _ & _ & _ & ?)).
    split; [by intros _ [_ ?]|]. intros _. right. rewrite Hrow. eauto.
  - rewrite decide_False by (by intros (_ & _ & _ & _ & ?)).
    split; [by intros _ [_ ?]|]. intros _. right. rewrite Hrow. eauto.
  - rewrite decide_False by (by intros (_ & _ & _ & _ & ?)).
    split; [|by intros []]. intros [[]|[_ [|]]]; done.
  - rewrite decide_True by done. split; [by intros _ [_ ?]|]. intros _. left. eauto.
Qed.

(** When the row neither holds nor inherits a truthy address, or holds
    it, the assignment reaches a record of the row. *)
Lemma initialise_then_update_own height addr g (c : ConsensusView) :
  truthy addr = true →
  inherited (String_of addr) c = None →
  is_Some (update_info height (String_of addr) g
             (initialiseConsensusView height addr c)).
Proof.
  intros Ht Hm. apply initialise_then_update; [done|].
  intros [_ ?]. congruence.
Qed.

(** After the initialisation for a falsy address, the record under the
    text of the address is as absent as it was, and an assignment to one
    of its fields throws. *)
Lemma initialise_then_update_falsy height addr g (c : ConsensusView) :
  truthy addr = false →
  read_info height (String_of addr) c = None →
  update_info height (String_of addr) g
    (initialiseConsensusView height addr c) = None.
Proof.
  intros Ht Hr.
  destruct (update_info _ _ g _) as [c'|] eqn:Hu; [|done].
  assert (is_Some (update_info height (String_of addr) g
                     (initialiseConsensusView height addr c))) as Hs by eauto.
  apply update_info_is_Some in Hs. rewrite initialise_inherited in Hs.
  rewrite (inherited_falsy _ _ Ht) in Hs.
  destruct Hs as [[i Hi]|[_ [|]]]; [|done..].
  rewrite initialise_read_info, Hr in Hi.
  rewrite decide_False in Hi; [done|]. intros (_ & _ & Ht' & _). congruence.
Qed.

(** X2.  [initialiseConsensusView] is idempotent.  After it the assignment
    to a field under a truthy address does not throw, with one exception:
    the row held no record under the address and inherits the address as
    the name of a value that an earlier assignment stored on
    [Object.prototype]; then no record is created and the assignment
    throws. *)
Theorem initialiseConsensusView_idempotent height addr (c : ConsensusView) g :
  initialiseConsensusView height addr (initialiseConsensusView height addr c)
  = initialiseConsensusView height addr c
  ∧ (truthy addr = true →
     (is_Some (update_info height (String_of addr) g
                 (initialiseConsensusView height addr c))
      ↔ ¬ (read_info height (String_of addr) c = None
           ∧ inherited (String_of addr) c = Some StoredValue))).
Proof.
  split; [|apply initialise_then_update].
  pose proof (initialise_lookup_eq height addr c) as Hrow.
  eapply initialise_present; [exact Hrow|].
  intros a -> Ht. cbv beta iota zeta. rewrite Ht.
  destruct (in_row a (default ∅ (c !! height)) c) eqn:Hin;
    unfold in_row in *; rewrite initialise_inherited.
  - exact Hin.
  - rewrite lookup_insert_eq. by rewrite bool_decide_eq_true_2 by eauto.
Qed.

(** ** [extractVoter] *)

Lemma extractVoter_app (a b : string) :
  extractVoter (a ++ b) = (extractVoter a ++ extractVoter b)%string.
Proof.
  induction a as [|x a IH]; simpl; [done|].
  case_decide; simpl; by rewrite IH.
Qed.

Lemma extractVoter_quote_free (text : string) :
  ¬ In quote_char (String.list_ascii_of_string text) → extractVoter text = text.
Proof.
  induction text as [|x text IH]; simpl; [done|]. intros Hfree.
  rewrite decide_False by (intros ->; apply Hfree; by left).
  rewrite IH; [done|]. intros Hin. apply Hfree. by right.
Qed.

(** X3.  [extractVoter] leaves no double quote in the voter, never makes
    it longer, and applied to its own result changes nothing. *)
Theorem extractVoter_strips (message_voter : string) :
  ¬ In quote_char (String.list_ascii_of_string (extractVoter message_voter))
  ∧ extractVoter (extractVoter message_voter) = extractVoter message_voter
  ∧ String.length (extractVoter message_voter) ≤ String.length message_voter.
Proof.
  assert (¬ In quote_char (String.list_ascii_of_string (extractVoter message_voter)))
    as Hfree.
  { induction message_voter as [|x rest IH]; simpl; [tauto|].
    case_decide as Hx; [done|]. simpl. intros [Heq|Hin]; [|done].
    by apply Hx. }
  split; [done|]. split; [by apply extractVoter_quote_free|].
  induction message_voter as [|x rest IH]; simpl; [done|].
  case_decide; simpl.
  - etrans; [apply IH|]; [|lia].
    intros Hin. apply Hfree. simpl. by rewrite decide_True.
  - apply le_n_S, IH. intros Hin. apply Hfree. simpl.
    rewrite decide_False by done. by right.
Qed.

(** X4.  A voter that the producer wrapped in double quotes comes back as
    it was: for a quote-free [voter], [extractVoter] of the quoted text is
    [voter], and a text without quotes is returned unchanged. *)
Theorem extractVoter_unwraps (voter : string) :
  ¬ In quote_char (String.list_ascii_of_string voter) →
  extractVoter (quote ++ voter ++ quote) = voter
  ∧ extractVoter voter = voter.
Proof.
  intros Hfree. rewrite !extractVoter_app.
  rewrite (extractVoter_quote_free voter) by done.
  split; [|done]. simpl. rewrite ?decide_True by done. simpl.
  assert (∀ t : string, (t ++ "")%string = t) as Hnil.
  { intros t. induction t as [|x t IH]; [done|].
    change (String x (t ++ "")%string = String x t). by rewrite IH. }
  apply Hnil.
Qed.

Lemma extractVoter_unwraps_witness :
  ¬ In quote_char (String.list_ascii_of_string "5Grw")
  ∧ extractVoter (quote ++ "5Grw" ++ quote) = "5Grw"%string.
Proof.
  assert (¬ In quote_char (String.list_ascii_of_string "5Grw")) as Hfree.
  { simpl. intros [H|[H|[H|[H|[]]]]]; discriminate H. }
  split; [exact Hfree|]. exact (proj1 (extractVoter_unwraps "5Grw" Hfree)).
Defined.

(** ** Assignments to a record *)

Lemma update_info_lookup_ne height addr g (c c' : ConsensusView) h' :
  update_info height addr g c = Some c' → h' ≠ height → c' !! h' = c !! h'.
Proof.
  unfold update_info. intros Hu Hne.
  destruct (c !! height) as [row|]; [|done]. simpl in Hu.
  destruct (row !! addr).
  - injection Hu as <-. by rewrite view_lookup_insert_ne.
  - destruct (inherited addr c) as [[]|]; simplify_eq; done.
Qed.

(** An assignment that reaches a record of the row leaves the prototype
    as it is. *)
Lemma update_info_own_prototype height addr g (c c' : ConsensusView) :
  update_info height addr g c = Some c' →
  is_Some (read_info height addr c) →
  prototype_fields c' = prototype_fields c
  ∧ builtin_fields c' = builtin_fields c.
Proof.
  unfold update_info, read_info. intros Hu [info Hr].
  destruct (c !! height) as [row|]; [|done]. simpl in *.
  rewrite Hr in Hu. by injection Hu as <-.
Qed.

(** Two assignments to the same record, one after the other. *)
Lemma update_info_twice height addr g g' (c : ConsensusView) :
  update_info height addr g c ≫= update_info height addr g'
  = update_info height addr (g' ∘ g) c.
Proof.
  unfold update_info.
  destruct (c !! height) as [row|] eqn:Hrow; [|done]. simpl.
  destruct (row !! addr) as [info|] eqn:Hinfo; simpl.
  - rewrite view_lookup_insert_eq. simpl. rewrite lookup_insert_eq.
    rewrite (view_insert_insert _ _ _ _ row) by done.
    by rewrite insert_insert_eq.
  - destruct (inherited addr c) as [[]|] eqn:Hm; simpl; [| |done..].
    + change (mkView (rows c) (created c) (prototype_fields c) ?b !! height)
        with (c !! height).
      rewrite Hrow. simpl. rewrite Hinfo.
      rewrite (inherited_prototype addr c) by done. rewrite Hm. simpl.
      by rewrite lookup_insert_eq, insert_insert_eq.
    + change (mkView (rows c) (created c) ?p (builtin_fields c) !! height)
        with (c !! height).
      rewrite Hrow. simpl. rewrite Hinfo.
      assert (addr = "__proto__"%string) as ->.
      { unfold inherited in Hm. repeat case_decide; simplify_eq; try done.
        by destruct (has_field _ _). }
      done.
Qed.

(** [markFinalized] as one assignment after the initialisation. *)
Lemma markFinalized_value address height hash_ (c : ConsensusView) :
  markFinalized address height hash_ c =
  update_info height (String_of address)
    (set_Precommit ∘ set_Prevote ∘ set_FinalizedHeight height
       ∘ set_FinalizedHash hash_ ∘ set_Finalized)
    (initialiseConsensusView height address c).
Proof.
  unfold markFinalized. cbv zeta.
  repeat (rewrite <- update_info_twice;
          destruct (update_info _ _ _ _) as [?|]; simpl; [|done]).
  done.
Qed.

Lemma markImplicitlyFinalized_value address height (c : ConsensusView) :
  markImplicitlyFinalized address height c =
  update_info height (String_of address)
    (set_ImplicitPrecommit ∘ set_ImplicitPrevote ∘ set_Precommit ∘ set_Prevote
       ∘ set_ImplicitFinalized ∘ set_FinalizedHeight height ∘ set_Finalized)
    (initialiseConsensusView height address c).
Proof.
  unfold markImplicitlyFinalized. cbv zeta.
  repeat (rewrite <- update_info_twice;
          destruct (update_info _ _ _ _) as [?|]; simpl; [|done]).
  done.
Qed.

(** ** [markFinalized] and [markImplicitlyFinalized] *)

(** An assignment after the initialisation, for a node whose address is
    truthy and no name that rows inherit: it succeeds, writes the one
    record and leaves every other record, every other height and the
    prototype alone. *)
Lemma initialise_update address height g (c : ConsensusView) :
  truthy address = true →
  inherited (String_of address) c = None →
  ∃ c',
    update_info height (String_of address) g
      (initialiseConsensusView height address c) = Some c'
    ∧ read_info height (String_of address) c'
      = Some (g (default emptyInfo (read_info height (String_of address) c)))
    ∧ (∀ h v, h ≠ height ∨ v ≠ String_of address →
         read_info h v c' = read_info h v c)
    ∧ (∀ h, h ≠ height → c' !! h = c !! h)
    ∧ prototype_fields c' = prototype_fields c
    ∧ builtin_fields c' = builtin_fields c.
Proof.
  intros Ht Hm.
  assert (address = Some (String_of address)) as Haddr
    by (by destruct address).
  destruct (initialise_then_update_own height address g c Ht Hm) as [c' Hu].
  exists c'. split; [done|].
  pose proof (initialise_read_info height address c) as Hinit.
  assert (read_info height (String_of address)
            (initialiseConsensusView height address c)
          = Some (default emptyInfo (read_info height (String_of address) c)))
    as Hown.
  { rewrite Hinit.
    destruct (read_info height (String_of address) c) eqn:Hr.
    - rewrite decide_False; [done|]. by intros (_ & _ & _ & ? & _).
    - by rewrite decide_True. }
  split; [|split; [|split]].
  - rewrite (update_info_read _ _ _ _ _ _ _ Hu), decide_True by done.
    by rewrite Hown.
  - intros h v Hne. rewrite (update_info_read _ _ _ _ _ _ _ Hu).
    rewrite decide_False by (intros [-> ->]; by destruct Hne).
    rewrite Hinit. rewrite decide_False; [done|]. intros (-> & Hv & _).
    rewrite Hv in Hne. simpl in Hne. by destruct Hne.
  - intros h Hne. rewrite (update_info_lookup_ne _ _ _ _ _ _ Hu) by done.
    by apply initialise_lookup_ne.
  - destruct (update_info_own_prototype _ _ _ _ _ Hu) as [-> ->];
      [by rewrite Hown|].
    apply initialise_prototype.
Qed.

(** X5.  On a node whose address is truthy and is no name that the rows
    inherit from [Object.prototype], [markFinalized] succeeds: it leaves
    the record of the node at that height with [Finalized], [Prevote] and
    [Precommit] set and with the hash and the height, keeps the implicit
    part of the record, and touches no other record, no other height and
    nothing of the prototype. *)
Theorem markFinalized_marks address height hash_ (c : ConsensusView) :
  truthy address = true →
  inherited (String_of address) c = None →
  ∃ (c' : ConsensusView) (info' : ConsensusInfo),
    markFinalized address height hash_ c = Some c'
    ∧ read_info height (String_of address) c' = Some info'
    ∧ Finalized info' = true ∧ Prevote info' = true ∧ Precommit info' = true
    ∧ FinalizedHash info' = Some hash_
    ∧ FinalizedHeight info' = Some height
    ∧ implicit_part info'
      = implicit_part (default emptyInfo (read_info height (String_of address) c))
    ∧ (∀ h v, h ≠ height ∨ v ≠ String_of address →
         read_info h v c' = read_info h v c)
    ∧ (∀ h, h ≠ height → c' !! h = c !! h)
    ∧ prototype_fields c' = prototype_fields c
    ∧ builtin_fields c' = builtin_fields c.
Proof.
  intros Ht Hm. rewrite markFinalized_value.
  destruct (initialise_update address height
              (set_Precommit ∘ set_Prevote ∘ set_FinalizedHeight height
                 ∘ set_FinalizedHash hash_ ∘ set_Finalized) c Ht Hm)
    as (c' & Hu & Hr & Hothers & Hrows & Hp & Hb).
  exists c'. eexists. split; [done|]. split; [exact Hr|]. simpl.
  do 6 (split; [done|]). done.
Qed.

Lemma markFinalized_marks_witness :
  inherited "N" cache_100_103 = None
  ∧ ∃ (c' : ConsensusView) (info' : ConsensusInfo),
      markFinalized (Some "N"%string) 104 "0xf" cache_100_103 = Some c'
      ∧ read_info 104 "N" c' = Some info'
      ∧ Finalized info' = true
      ∧ read_info 103 "V" c' = read_info 103 "V" cache_100_103.
Proof.
  split; [reflexivity|].
  destruct (markFinalized_marks (Some "N"%string) 104 "0xf" cache_100_103
              eq_refl eq_refl)
    as (c' & info' & Hm & Hr & Hf & _ & _ & _ & _ & _ & Ho & _).
  exists c', info'. split; [done|]. split; [done|]. split; [done|].
  apply Ho. left. lia.
Defined.

(** X6.  [markImplicitlyFinalized], on a node whose address is truthy and
    is no name that the rows inherit from [Object.prototype], sets the
    three explicit flags together with the three implicit ones, stores the
    height, keeps the stored hash and the implicit pointer, and touches no
    other record and nothing of the prototype. *)
Theorem markImplicitlyFinalized_marks address height (c : ConsensusView) :
  truthy address = true →
  inherited (String_of address) c = None →
  ∃ (c' : ConsensusView) (info' : ConsensusInfo),
    markImplicitlyFinalized address height c = Some c'
    ∧ read_info height (String_of address) c' = Some info'
    ∧ Finalized info' = true ∧ Prevote info' = true ∧ Precommit info' = true
    ∧ ImplicitFinalized info' = true ∧ ImplicitPrevote info' = true
    ∧ ImplicitPrecommit info' = true
    ∧ FinalizedHeight info' = Some height
    ∧ FinalizedHash info'
      = FinalizedHash (default emptyInfo (read_info height (String_of address) c))
    ∧ ImplicitPointer info'
      = ImplicitPointer (default emptyInfo (read_info height (String_of address) c))
    ∧ (∀ h v, h ≠ height ∨ v ≠ String_of address →
         read_info h v c' = read_info h v c)
    ∧ prototype_fields c' = prototype_fields c
    ∧ builtin_fields c' = builtin_fields c.
Proof.
  intros Ht Hm. rewrite markImplicitlyFinalized_value.
  destruct (initialise_update address height
              (set_ImplicitPrecommit ∘ set_ImplicitPrevote ∘ set_Precommit
                 ∘ set_Prevote ∘ set_ImplicitFinalized
                 ∘ set_FinalizedHeight height ∘ set_Finalized) c Ht Hm)
    as (c' & Hu & Hr & Hothers & Hrows & Hp & Hb).
  exists c'. eexists. split; [done|]. split; [exact Hr|]. simpl.
  do 9 (split; [done|]). done.
Qed.

Lemma markImplicitlyFinalized_marks_witness :
  inherited "V" cache_100_103 = None
  ∧ ∃ (c' : ConsensusView) (info' : ConsensusInfo),
      markImplicitlyFinalized (Some "V"%string) 103 cache_100_103 = Some c'
      ∧ read_info 103 "V" c' = Some info'
      ∧ ImplicitPrevote info' = true ∧ Prevote info' = true.
Proof.
  split; [reflexivity|].
  destruct (markImplicitlyFinalized_marks (Some "V"%string) 103 cache_100_103
              eq_refl eq_refl)
    as (c' & info' & Hm & Hr & _ & Hp & _ & _ & Hip & _).
  exists c', info'. done.
Defined.

(** X7.  On a node without an address (null, or the empty string) both
    methods throw, unless the row of that height already holds a record
    under the text of the address (the four letters null, or the empty
    key): the initialisation creates no record for a falsy address and
    the first assignment reads an undefined record. *)
Theorem markFinalized_throws_without_address address height hash_
    (c : ConsensusView) :
  truthy address = false →
  read_info height (String_of address) c = None →
  markFinalized address height hash_ c = None
  ∧ markImplicitlyFinalized address height c = None.
Proof.
  intros Ht Hr.
  by rewrite markFinalized_value, markImplicitlyFinalized_value,
    !initialise_then_update_falsy.
Qed.

Lemma markFinalized_throws_without_address_witness :
  markFinalized None 104 "0xf" cache_100_103 = None
  ∧ markImplicitlyFinalized None 104 cache_100_103 = None.
Proof.
  apply markFinalized_throws_without_address; reflexivity.
Defined.

(** ** Pruning again *)

(** X8.  Pruning a cache that holds at most [max + 2] heights changes
    nothing, and pruning twice is pruning once. *)
Theorem truncate_cache_idempotent max (c : ConsensusView) :
  (size c ≤ max + 2 → truncate_cache max c = c)
  ∧ truncate_cache max (truncate_cache max c) = truncate_cache max c.
Proof.
  assert (∀ c0 : ConsensusView, size c0 ≤ max + 2 → truncate_cache max c0 = c0)
    as Hsmall.
  { intros c0 Hsize. unfold truncate_cache. apply truncate_from_short.
    rewrite length_reverse, Object_keys_length. lia. }
  split; [apply Hsmall|]. apply Hsmall.
  rewrite truncate_cache_size. lia.
Qed.

Lemma truncate_cache_idempotent_witness :
  truncate_cache 2 cache_100_103 = cache_100_103.
Proof.
  apply (proj1 (truncate_cache_idempotent 2 cache_100_103)).
  vm_compute. lia.
Defined.

(** ** How the cache grows under the handlers *)

Lemma explicit_le_refl info : explicit_le info info.
Proof. by repeat split. Qed.

Lemma cache_grows_refl c : cache_grows c c.
Proof. split; [|done]. intros h v info Hr. eauto using explicit_le_refl. Qed.

Lemma cache_grows_trans c1 c2 c3 :
  cache_grows c1 c2 → cache_grows c2 c3 → cache_grows c1 c3.
Proof.
  intros [Hr12 He12] [Hr23 He23]. split; [|auto].
  intros h v info1 H1.
  destruct (Hr12 h v info1 H1) as (info2 & H2 & (Ha & Hb & Hc)).
  destruct (Hr23 h v info2 H2) as (info3 & H3 & (Ha' & Hb' & Hc')).
  exists info3. split; [done|]. repeat split; auto.
Qed.

Lemma cache_grows_initialise height addr c :
  cache_grows c (initialiseConsensusView height addr c).
Proof.
  split.
  - intros h v info Hr. exists info. split; [|apply explicit_le_refl].
    rewrite initialise_read_info, Hr.
    rewrite decide_False; [done|]. intros (-> & _ & _ & Hn & _). congruence.
  - intros Hnone h. rewrite initialise_read_info, Hnone.
    rewrite decide_False; [done|]. intros (_ & -> & Ht & _). done.
Qed.

Lemma cache_grows_update height addr g c c' :
  (∀ info, explicit_le info (g info)) →
  update_info height addr g c = Some c' →
  cache_grows c c'.
Proof.
  intros Hg Hu. split.
  - intros h v info Hr. rewrite (update_info_read _ _ _ _ _ _ _ Hu).
    case_decide as Heq.
    + destruct Heq as [-> ->]. rewrite Hr. simpl. eauto.
    + eauto using explicit_le_refl.
  - intros Hnone h. rewrite (update_info_read _ _ _ _ _ _ _ Hu).
    case_decide as Heq; [|done]. destruct Heq as [-> <-]. by rewrite Hnone.
Qed.

Section MoreFrames.
Context `{Externals}.

(** *** The shape of what each handler returns *)

Lemma onAfgReceivedPrevote_value targetNumber message_voter (s : Node) :
  onAfgReceivedPrevote targetNumber message_voter s =
  c ← update_info targetNumber (extractVoter message_voter) set_Prevote
        (initialiseConsensusView targetNumber
           (Some (extractVoter message_voter)) (consensusCache s));
  Some (emit Ev_consensus_info (set_consensusCache c s)).
Proof.
  unfold onAfgReceivedPrevote.
  destruct (update_info _ _ _ _); simpl; [|done]. by rewrite run_backfill_id.
Qed.

Lemma onAfgReceivedPrecommit_value targetNumber message_voter (s : Node) :
  onAfgReceivedPrecommit targetNumber message_voter s =
  c ← update_info targetNumber (extractVoter message_voter) set_Precommit
        (initialiseConsensusView targetNumber
           (Some (extractVoter message_voter)) (consensusCache s));
  Some (emit Ev_consensus_info (set_consensusCache c s)).
Proof.
  unfold onAfgReceivedPrecommit.
  destruct (update_info _ _ _ _); simpl; [|done]. by rewrite run_backfill_id.
Qed.

Lemma onAfgFinalized_value finalizedNumber finalizedHash (s : Node) :
  onAfgFinalized finalizedNumber finalizedHash s =
  c ← markFinalized (address s) finalizedNumber finalizedHash (consensusCache s);
  Some (emit Ev_consensus_info (set_consensusCache c s)).
Proof.
  unfold onAfgFinalized.
  destruct (markFinalized _ _ _ _); simpl; [|done]. by rewrite run_backfill_id.
Qed.

(** Each of the four consensus handlers replaces the cache by a grown one
    and emits [consensus-info]; nothing else of the node changes. *)
Lemma consensus_handler_shape (message : Message) (s s' : Node) :
  match message with
  | NotifyFinalized b h => onNotifyFinalized b h s = Some s'
  | AfgFinalized n h => onAfgFinalized n h s = Some s'
  | AfgReceivedPrecommit n _ v => onAfgReceivedPrecommit n v s = Some s'
  | AfgReceivedPrevote n _ v => onAfgReceivedPrevote n v s = Some s'
  | _ => False
  end →
  ∃ c', s' = emit Ev_consensus_info (set_consensusCache c' s)
        ∧ cache_grows (consensusCache s) c'.
Proof.
  destruct message as [| b h | n h | n th v | n th v | |]; try done.
  - unfold onNotifyFinalized. intros Hh.
    destruct (update_info _ _ _ _) as [c'|] eqn:Hu; [|done].
    injection Hh as <-. exists c'. split; [done|].
    eapply cache_grows_trans; [apply cache_grows_initialise|].
    eapply cache_grows_update; [|exact Hu]. intros i. by repeat split.
  - rewrite onAfgFinalized_value, markFinalized_value. intros Hh.
    destruct (update_info _ _ _ _) as [c'|] eqn:Hu; [|done].
    injection Hh as <-. exists c'. split; [done|].
    eapply cache_grows_trans; [apply cache_grows_initialise|].
    eapply cache_grows_update; [|exact Hu]. intros i. by repeat split.
  - rewrite onAfgReceivedPrecommit_value. intros Hh.
    destruct (update_info _ _ _ _) as [c'|] eqn:Hu; [|done].
    injection Hh as <-. exists c'. split; [done|].
    eapply cache_grows_trans; [apply cache_grows_initialise|].
    eapply cache_grows_update; [|exact Hu]. intros i. by repeat split.
  - rewrite onAfgReceivedPrevote_value. intros Hh.
    destruct (update_info _ _ _ _) as [c'|] eqn:Hu; [|done].
    injection Hh as <-. exists c'. split; [done|].
    eapply cache_grows_trans; [apply cache_grows_initialise|].
    eapply cache_grows_update; [|exact Hu]. intros i. by repeat split.
Qed.

(** What [dispatch] does after the clock reading and the best-block
    update: the state [s1] it reaches there, and the handler of the kind. *)
Lemma dispatch_stages clock message (s s' : Node) :
  dispatch clock message s = Some s' →
  ∃ s1,
    match getBestBlock message with
    | Some update =>
        updateBestBlock (t_block clock) update
          (set_lastMessage (t_message clock) s)
    | None => Some (set_lastMessage (t_message clock) s)
    end = Some s1
    ∧ consensusCache s1 = consensusCache s
    ∧ lastMessage s1 = t_message clock
    ∧ handler_untouched s s1
    ∧ occurrences Ev_consensus_info (events s1)
      = occurrences Ev_consensus_info (events s)
    ∧ match message with
      | SystemInterval ns p t c m d u fh fhash _ =>
          s' = onSystemInterval (t_chart clock) ns p t c m d u fh fhash s1
      | AfgAuthoritySet i h n a => onAfgAuthoritySet i h n a s1 = Some s'
      | OtherMessage _ _ => s' = s1
      | _ => ∃ c', s' = emit Ev_consensus_info (set_consensusCache c' s1)
                   ∧ cache_grows (consensusCache s1) c'
      end.
Proof.
  unfold dispatch. intros Hd.
  destruct (match getBestBlock message with
            | Some update => _
            | None => _
            end) as [s1|] eqn:Hupd; [|done].
  simpl in Hd. exists s1. split; [done|].
  assert (consensusCache s1 = consensusCache s ∧ lastMessage s1 = t_message clock
          ∧ handler_untouched s s1
          ∧ occurrences Ev_consensus_info (events s1)
            = occurrences Ev_consensus_info (events s)) as (Hc & Hl & Hun & Hev).
  { destruct (getBestBlock message) as [update|].
    - rewrite updateBestBlock_value in Hupd. injection Hupd as <-.
      destruct (accepts update _); [|by repeat split].
      unfold announce_block. repeat case_match; simpl;
        rewrite ?occurrences_snoc; simpl; repeat split; try done; lia.
    - injection Hupd as <-. by repeat split. }
  do 4 (split; [done|]).
  destruct message as [ns p t c m d u fh fhash up| b h | n h | n th v | n th v
                       | i h n a | msg up]; simpl in *.
  - by injection Hd as <-.
  - exact (consensus_handler_shape (NotifyFinalized b h) s1 s' Hd).
  - exact (consensus_handler_shape (AfgFinalized n h) s1 s' Hd).
  - exact (consensus_handler_shape (AfgReceivedPrecommit n th v) s1 s' Hd).
  - exact (consensus_handler_shape (AfgReceivedPrevote n th v) s1 s' Hd).
  - done.
  - by injection Hd as <-.
Qed.

Lemma onSystemInterval_untouched now ns p t c m d u fh fhash (s : Node) :
  handler_untouched s (onSystemInterval now ns p t c m d u fh fhash s)
  ∧ lastMessage (onSystemInterval now ns p t c m d u fh fhash s) = lastMessage s
  ∧ consensusCache (onSystemInterval now ns p t c m d u fh fhash s)
    = consensusCache s
  ∧ occurrences Ev_consensus_info
      (events (onSystemInterval now ns p t c m d u fh fhash s))
    = occurrences Ev_consensus_info (events s).
Proof.
  assert (∀ s0, let s1 := interval_network_state ns s0 in
            handler_untouched s0 s1 ∧ lastMessage s1 = lastMessage s0
            ∧ consensusCache s1 = consensusCache s0 ∧ events s1 = events s0)
    as Hn.
  { intros s0. unfold interval_network_state. by repeat case_match. }
  assert (∀ s0, let s1 := interval_stats p t s0 in
            handler_untouched s0 s1 ∧ lastMessage s1 = lastMessage s0
            ∧ consensusCache s1 = consensusCache s0
            ∧ occurrences Ev_consensus_info (events s1)
              = occurrences Ev_consensus_info (events s0)) as Hs.
  { intros s0. unfold interval_stats.
    case_match; simpl; rewrite ?occurrences_snoc; simpl; repeat split;
      done || lia. }
  assert (∀ s0, let s1 := interval_finalized fh fhash s0 in
            handler_untouched s0 s1 ∧ lastMessage s1 = lastMessage s0
            ∧ consensusCache s1 = consensusCache s0
            ∧ occurrences Ev_consensus_info (events s1)
              = occurrences Ev_consensus_info (events s0)) as Hf.
  { intros s0. unfold interval_finalized.
    repeat case_match; simpl; rewrite ?occurrences_snoc; simpl; repeat split;
      done || lia. }
  assert (∀ s0, let s1 := interval_hardware now c m d u s0 in
            handler_untouched s0 s1 ∧ lastMessage s1 = lastMessage s0
            ∧ consensusCache s1 = consensusCache s0
            ∧ occurrences Ev_consensus_info (events s1)
              = occurrences Ev_consensus_info (events s0)) as Hh.
  { intros s0. unfold interval_hardware.
    repeat case_match; simpl; rewrite ?occurrences_snoc; simpl; repeat split;
      done || lia. }
  unfold onSystemInterval.
  destruct (Hn s) as ([] & Hn2 & Hn3 & Hn4).
  destruct (Hs (interval_network_state ns s)) as ([] & Hs2 & Hs3 & Hs4).
  destruct (Hf (interval_stats p t (interval_network_state ns s)))
    as ([] & Hf2 & Hf3 & Hf4).
  destruct (Hh (interval_finalized fh fhash
                  (interval_stats p t (interval_network_state ns s))))
    as ([] & Hh2 & Hh3 & Hh4).
  repeat split; congruence.
Qed.

(** After one handled message: the reading of the clock is stored, the
    ping state and the stored set id are as before, and [consensus-info]
    was emitted once for a consensus message and not at all otherwise. *)
Lemma onMessage_effects clock message (s s' : Node) :
  onMessage clock message s = Some s' →
  lastMessage s' = t_message clock
  ∧ handler_untouched s s'
  ∧ occurrences Ev_consensus_info (events s')
    = occurrences Ev_consensus_info (events s)
      + (if is_consensus_message message then 1 else 0)
  ∧ ∃ c1, cache_grows (consensusCache s) c1
          ∧ consensusCache s' = truncate_cache MAX_BLOCKS_IN_NODE_CACHE c1.
Proof.
  unfold onMessage. intros Hm.
  destruct (dispatch clock message s) as [s2|] eqn:Hd; [|done].
  injection Hm as <-. simpl.
  apply dispatch_stages in Hd
    as (s1 & _ & Hc1 & Hl1 & [Hu1 Hu2 Hu3] & He1 & Hkind).
  destruct message as [ns p t c m d u fh fhash up| b h | n h | n th v | n th v
                       | i h n a | msg up]; simpl.
  - subst s2.
    destruct (onSystemInterval_untouched (t_chart clock) ns p t c m d u fh fhash s1)
      as ([] & Hl & Hc & He).
    split; [congruence|]. split; [split; simpl; congruence|]. split; [lia|].
    exists (consensusCache s). split; [apply cache_grows_refl|]. congruence.
  - destruct Hkind as (c' & -> & Hg). simpl. rewrite occurrences_snoc. simpl.
    split; [done|]. split; [split; simpl; congruence|]. split; [lia|].
    exists c'. split; [congruence|done].
  - destruct Hkind as (c' & -> & Hg). simpl. rewrite occurrences_snoc. simpl.
    split; [done|]. split; [split; simpl; congruence|]. split; [lia|].
    exists c'. split; [congruence|done].
  - destruct Hkind as (c' & -> & Hg). simpl. rewrite occurrences_snoc. simpl.
    split; [done|]. split; [split; simpl; congruence|]. split; [lia|].
    exists c'. split; [congruence|done].
  - destruct Hkind as (c' & -> & Hg). simpl. rewrite occurrences_snoc. simpl.
    split; [done|]. split; [split; simpl; congruence|]. split; [lia|].
    exists c'. split; [congruence|done].
  - unfold onAfgAuthoritySet in Hkind.
    destruct (JSON_parse a) as [auth|]; [|done]. injection Hkind as <-.
    case_match; simpl; rewrite ?occurrences_snoc; simpl;
      (split; [done|]); (split; [split; simpl; congruence|]); (split; [lia|]);
      exists (consensusCache s); (split; [apply cache_grows_refl|congruence]).
  - subst s2. split; [done|]. split; [split; simpl; congruence|]. split; [lia|].
    exists (consensusCache s). split; [apply cache_grows_refl|congruence].
Qed.

End MoreFrames.

Section ConsensusHandlers.
Context `{Externals}.

Lemma truthy_nonempty (voter : Address) :
  voter ≠ EmptyString → truthy (Some voter) = true.
Proof. by destruct voter. Qed.

(** X9.  A prevote whose voter, once the quotes are dropped, is not empty
    and is no name that the rows inherit from [Object.prototype], is
    recorded: the handler returns, [Prevote] is set in the record of that
    height and voter (a fresh record if there was none) with everything
    else of the record kept, no other record and no other height changes,
    and [consensus-info] is emitted.  The same holds for a precommit and
    [Precommit]. *)
Theorem votes_recorded (targetNumber : BlockNumber) (message_voter : string)
    (s : Node) :
  extractVoter message_voter ≠ EmptyString →
  inherited (extractVoter message_voter) (consensusCache s) = None →
  (∃ s', onAfgReceivedPrevote targetNumber message_voter s = Some s'
     ∧ events s' = events s ++ [Ev_consensus_info]
     ∧ read_info targetNumber (extractVoter message_voter) (consensusCache s')
       = Some (set_Prevote
                 (default emptyInfo
                    (read_info targetNumber (extractVoter message_voter)
                       (consensusCache s))))
     ∧ (∀ h v, h ≠ targetNumber ∨ v ≠ extractVoter message_voter →
          read_info h v (consensusCache s') = read_info h v (consensusCache s))
     ∧ (∀ h, h ≠ targetNumber →
          consensusCache s' !! h = consensusCache s !! h))
  ∧ (∃ s', onAfgReceivedPrecommit targetNumber message_voter s = Some s'
       ∧ events s' = events s ++ [Ev_consensus_info]
       ∧ read_info targetNumber (extractVoter message_voter) (consensusCache s')
         = Some (set_Precommit
                   (default emptyInfo
                      (read_info targetNumber (extractVoter message_voter)
                         (consensusCache s))))
       ∧ (∀ h v, h ≠ targetNumber ∨ v ≠ extractVoter message_voter →
            read_info h v (consensusCache s') = read_info h v (consensusCache s))
       ∧ (∀ h, h ≠ targetNumber →
            consensusCache s' !! h = consensusCache s !! h)).
Proof.
  intros Hvoter Hm. apply truthy_nonempty in Hvoter.
  rewrite onAfgReceivedPrevote_value, onAfgReceivedPrecommit_value. split.
  - destruct (initialise_update (Some (extractVoter message_voter)) targetNumber
                set_Prevote (consensusCache s) Hvoter Hm)
      as (c' & Hu & Hr & Ho & Hrows & _).
    change (String_of (Some (extractVoter message_voter)))
      with (extractVoter message_voter) in *.
    rewrite Hu. simpl. eauto 10.
  - destruct (initialise_update (Some (extractVoter message_voter)) targetNumber
                set_Precommit (consensusCache s) Hvoter Hm)
      as (c' & Hu & Hr & Ho & Hrows & _).
    change (String_of (Some (extractVoter message_voter)))
      with (extractVoter message_voter) in *.
    rewrite Hu. simpl. eauto 10.
Qed.

(** An assignment after the initialisation, under a name that the row of
    that height does not hold and inherits: no record is created, and the
    assignment lands on the built-in member or on the prototype, or
    throws on a stored value. *)
Lemma initialise_update_inherited height a g (c : ConsensusView) m :
  read_info height a c = None →
  inherited a c = Some m →
  update_info height a g (initialiseConsensusView height (Some a) c)
  = let c1 := initialiseConsensusView height (Some a) c in
    match m with
    | BuiltinMember =>
        Some (mkView (rows c1) (created c1) (prototype_fields c)
                (<[a := g (default emptyInfo (builtin_fields c !! a))]>
                   (builtin_fields c)))
    | PrototypeItself =>
        Some (mkView (rows c1) (created c1) (g (prototype_fields c))
                (builtin_fields c))
    | StoredValue => None
    end.
Proof.
  intros Hown Hm. cbv zeta. unfold update_info.
  destruct (initialise_prototype height (Some a) c) as [Hp Hb].
  rewrite initialise_lookup_eq, initialise_inherited, Hm, Hp, Hb. simpl.
  assert (default ∅ (c !! height) !! a = None) as Hrow.
  { unfold read_info in Hown. destruct (c !! height); [done|]. apply lookup_empty. }
  assert (in_row a (default ∅ (c !! height)) c = true) as Hin.
  { unfold in_row. rewrite Hm. rewrite (bool_decide_eq_true_2 (is_Some (Some m)));
      [apply orb_true_r|eauto]. }
  destruct a as [|x a]; [by destruct m|].
  change (truthy (Some (String x a))) with true. cbv iota.
  rewrite Hin, Hrow. by destruct m.
Qed.

(** X30.  A vote whose voter is a name that the rows inherit from
    [Object.prototype], and for which the row of that height holds no
    record, leaves no record behind.  Under the name of a built-in member
    (such as [constructor]) the flag is set on that member; under
    [__proto__] it is set on [Object.prototype] itself, which from then on
    lends it to every object; in both cases the handler returns, every
    record of the cache is as before and [consensus-info] is emitted.
    Under the name of a value stored on the prototype the handler
    throws. *)
Theorem inherited_voter_leaves_no_record (precommit : bool)
    (targetNumber : BlockNumber) (message_voter : string) (s : Node)
    (m : Inherited) :
  let voter := extractVoter message_voter in
  let c := consensusCache s in
  read_info targetNumber voter c = None →
  inherited voter c = Some m →
  match m with
  | StoredValue => vote_handler precommit targetNumber message_voter s = None
  | _ =>
      ∃ s', vote_handler precommit targetNumber message_voter s = Some s'
        ∧ events s' = events s ++ [Ev_consensus_info]
        ∧ is_Some (consensusCache s' !! targetNumber)
        ∧ (∀ h v, read_info h v (consensusCache s') = read_info h v c)
        ∧ match m with
          | BuiltinMember =>
              builtin_fields (consensusCache s') !! voter
              = Some (vote_flag precommit
                        (default emptyInfo (builtin_fields c !! voter)))
              ∧ prototype_fields (consensusCache s') = prototype_fields c
          | _ =>
              prototype_fields (consensusCache s')
              = vote_flag precommit (prototype_fields c)
              ∧ builtin_fields (consensusCache s') = builtin_fields c
          end
  end.
Proof.
  intros voter c Hown Hm.
  assert (vote_handler precommit targetNumber message_voter s =
          c' ← update_info targetNumber voter (vote_flag precommit)
                 (initialiseConsensusView targetNumber (Some voter) c);
          Some (emit Ev_consensus_info (set_consensusCache c' s))) as ->.
  { destruct precommit; simpl.
    - apply onAfgReceivedPrecommit_value.
    - apply onAfgReceivedPrevote_value. }
  rewrite (initialise_update_inherited _ _ _ _ m Hown Hm). cbv zeta.
  assert (∀ h v, read_info h v (initialiseConsensusView targetNumber (Some voter) c)
                 = read_info h v c) as Hsame.
  { intros h v. rewrite initialise_read_info. rewrite decide_False; [done|].
    intros (_ & [= <-] & _ & _ & Hn). congruence. }
  pose proof (initialise_lookup_eq targetNumber (Some voter) c) as Hrow.
  destruct m; simpl.
  - eexists. split; [done|]. simpl. split; [done|].
    split.
    { change (is_Some (initialiseConsensusView targetNumber (Some voter) c
                       !! targetNumber)).
      rewrite Hrow. eauto. }
    split; [exact Hsame|]. split; [|done]. by rewrite lookup_insert_eq.
  - eexists. split; [done|]. simpl. split; [done|].
    split.
    { change (is_Some (initialiseConsensusView targetNumber (Some voter) c
                       !! targetNumber)).
      rewrite Hrow. eauto. }
    split; [exact Hsame|]. done.
  - done.
Qed.

(** X11.  On a node whose address is truthy and is no name that the rows
    inherit from [Object.prototype], [afg.finalized] is recorded: the
    handler returns, the record of the node at the finalized height has
    [Finalized], [Prevote] and [Precommit] set together with the hash and
    the height, [consensus-info] is emitted, and no other height of the
    cache changes, the heights below included. *)
Theorem finalized_recorded (finalizedNumber : BlockNumber)
    (finalizedHash : BlockHash) (s : Node) :
  truthy (address s) = true →
  inherited (String_of (address s)) (consensusCache s) = None →
  ∃ (s' : Node) (info' : ConsensusInfo),
    onAfgFinalized finalizedNumber finalizedHash s = Some s'
    ∧ events s' = events s ++ [Ev_consensus_info]
    ∧ read_info finalizedNumber (String_of (address s)) (consensusCache s')
      = Some info'
    ∧ Finalized info' = true ∧ Prevote info' = true ∧ Precommit info' = true
    ∧ FinalizedHash info' = Some finalizedHash
    ∧ FinalizedHeight info' = Some finalizedNumber
    ∧ (∀ h, h ≠ finalizedNumber →
         consensusCache s' !! h = consensusCache s !! h).
Proof.
  intros Ht Hm. rewrite onAfgFinalized_value.
  destruct (initialise_update (address s) finalizedNumber
              (set_Precommit ∘ set_Prevote ∘ set_FinalizedHeight finalizedNumber
                 ∘ set_FinalizedHash finalizedHash ∘ set_Finalized)
              (consensusCache s) Ht Hm) as (c' & Hu & Hr & _ & Hrows & _).
  rewrite markFinalized_value, Hu. simpl.
  eexists _, _. split; [done|]. split; [done|]. split; [exact Hr|].
  simpl. repeat split; done.
Qed.

(** X12.  On a node whose address is truthy and is no name that the rows
    inherit from [Object.prototype], [notify.finalized] stores the hash in
    the record of the node at that height and nothing else: the flags, the
    height and the pointer of the record are as before, no other record
    changes, and [consensus-info] is emitted. *)
Theorem notify_finalized_recorded (best_ : BlockHash) (height : BlockNumber)
    (s : Node) :
  truthy (address s) = true →
  inherited (String_of (address s)) (consensusCache s) = None →
  ∃ (s' : Node) (info' : ConsensusInfo),
    onNotifyFinalized best_ height s = Some s'
    ∧ events s' = events s ++ [Ev_consensus_info]
    ∧ read_info height (String_of (address s)) (consensusCache s') = Some info'
    ∧ info' = set_FinalizedHash best_
                (default emptyInfo
                   (read_info height (String_of (address s)) (consensusCache s)))
    ∧ (∀ h v, h ≠ height ∨ v ≠ String_of (address s) →
         read_info h v (consensusCache s') = read_info h v (consensusCache s)).
Proof.
  intros Ht Hm. unfold onNotifyFinalized.
  destruct (initialise_update (address s) height (set_FinalizedHash best_)
              (consensusCache s) Ht Hm) as (c' & Hu & Hr & Ho & _).
  rewrite Hu. simpl. eexists _, _. split; [done|]. split; [done|].
  split; [exact Hr|]. split; done.
Qed.

(** X13.  On a node without an address (null or empty) both
    [notify.finalized] and [afg.finalized] make their handler throw,
    unless the row of that height already holds a record under the text
    of the address. *)
Theorem finalized_handlers_throw_without_address (hash_ : BlockHash)
    (height : BlockNumber) (s : Node) :
  truthy (address s) = false →
  read_info height (String_of (address s)) (consensusCache s) = None →
  onNotifyFinalized hash_ height s = None
  ∧ onAfgFinalized height hash_ s = None.
Proof.
  intros Ht Hr. split.
  - unfold onNotifyFinalized. by rewrite initialise_then_update_falsy.
  - rewrite onAfgFinalized_value, markFinalized_value.
    by rewrite initialise_then_update_falsy.
Qed.

(** X23.  Every handled message of one of the four consensus kinds emits
    [consensus-info] exactly once; a handled message of any other kind
    emits none. *)
Theorem consensus_info_once clock message (s s' : Node) :
  onMessage clock message s = Some s' →
  occurrences Ev_consensus_info (events s')
  = occurrences Ev_consensus_info (events s)
    + (if is_consensus_message message then 1 else 0).
Proof. intros Hm. by apply onMessage_effects in Hm as (_ & _ & He & _). Qed.

(** X28.  Within one handled message no explicit flag is cleared: a
    record that is there before and after the message has [Prevote],
    [Precommit] and [Finalized] set afterwards whenever they were set
    before. *)
Theorem explicit_flags_kept clock message (s s' : Node)
    (h : BlockNumber) (v : Address) (info info' : ConsensusInfo) :
  onMessage clock message s = Some s' →
  read_info h v (consensusCache s) = Some info →
  read_info h v (consensusCache s') = Some info' →
  explicit_le info info'.
Proof.
  intros Hm Hinfo Hinfo'.
  apply onMessage_effects in Hm as (_ & _ & _ & c1 & [Hgrow _] & Hc).
  destruct (Hgrow h v info Hinfo) as (info1 & H1 & Hle).
  rewrite Hc in Hinfo'.
  assert (read_info h v c1 = Some info') as H1'.
  { unfold read_info in *.
    destruct (truncate_cache MAX_BLOCKS_IN_NODE_CACHE c1 !! h) as [row|] eqn:Hrow;
      [|done].
    by rewrite (truncate_cache_lookup _ _ _ _ Hrow). }
  congruence.
Qed.

End ConsensusHandlers.

Section SessionTraces.
Context `{Externals}.

Lemma truncate_cache_read_info max (c : ConsensusView) h v info :
  read_info h v (truncate_cache max c) = Some info → read_info h v c = Some info.
Proof.
  unfold read_info. intros Hr.
  destruct (truncate_cache max c !! h) as [row|] eqn:Hrow; [|done].
  by rewrite (truncate_cache_lookup _ _ _ _ Hrow).
Qed.

(** What a step other than a delivered message leaves alone. *)
Lemma quiet_step_effects i (s s' : Node) :
  step i s = Some s' →
  (∀ clock message, i = SocketMessage clock message →
     listeners (socket s) = false) →
  consensusCache s' = consensusCache s
  ∧ authoritySetId s' = authoritySetId s
  ∧ authorities s' = authorities s
  ∧ best s' = best s ∧ finalized s' = finalized s
  ∧ lastMessage s' = lastMessage s
  ∧ (listeners (socket s) = false → listeners (socket s') = false)
  ∧ (closed (socket s) = true → closed (socket s') = true)
  ∧ (terminated (socket s) = true → terminated (socket s') = true).
Proof.
  intros Hs Hmsg.
  destruct i as [clock message| | |now|now ping_ok|]; simpl in Hs.
  - rewrite (Hmsg clock message eq_refl) in Hs. by injection Hs as <-.
  - destruct (listeners (socket s)) eqn:Hl; by injection Hs as <-.
  - destruct (listeners (socket s)) eqn:Hl; by injection Hs as <-.
  - destruct (listeners (socket s)) eqn:Hl; by injection Hs as <-.
  - injection Hs as <-. unfold timeoutCheck, updateLatency.
    case_bool_decide; [done|]. by destruct ping_ok.
  - destruct (timers s); [done|]. by injection Hs as <-.
Qed.

(** No step stores a set id or creates a record under the empty voter. *)
Lemma step_invariants i (s s' : Node) :
  step i s = Some s' →
  authoritySetId s' = authoritySetId s
  ∧ ((∀ h, read_info h "" (consensusCache s) = None) →
     ∀ h, read_info h "" (consensusCache s') = None).
Proof.
  intros Hs.
  assert ((∃ clock message,
             i = SocketMessage clock message ∧ listeners (socket s) = true)
          ∨ (∀ clock message, i = SocketMessage clock message →
               listeners (socket s) = false)) as [(clock & message & -> & Hl)|Hquiet].
  { destruct i as [clock message| | | | |]; try (by right).
    destruct (listeners (socket s)) eqn:Hl; [left; eauto|by right]. }
  - simpl in Hs. rewrite Hl in Hs.
    apply onMessage_effects in Hs as (_ & [_ _ Hid] & _ & c1 & [_ Hne] & Hc).
    split; [done|]. intros Hnone h.
    destruct (read_info h "" (consensusCache s')) as [info|] eqn:Hr; [|done].
    rewrite Hc in Hr. apply truncate_cache_read_info in Hr.
    by rewrite (Hne Hnone h) in Hr.
  - destruct (quiet_step_effects i s s' Hs Hquiet) as (Hc & Hid & _).
    split; [done|]. by rewrite Hc.
Qed.

Lemma steps_invariants inputs (s s' : Node) :
  steps inputs s = Some s' →
  authoritySetId s' = authoritySetId s
  ∧ ((∀ h, read_info h "" (consensusCache s) = None) →
     ∀ h, read_info h "" (consensusCache s') = None).
Proof.
  revert s. induction inputs as [|i rest IH]; intros s Hr.
  - by injection Hr as <-.
  - simpl in Hr. destruct (step i s) as [s1|] eqn:Hs; [|done]. simpl in Hr.
    destruct (step_invariants _ _ _ Hs) as [Hid Hne].
    destruct (IH _ Hr) as [Hid' Hne']. split; [congruence|auto].
Qed.

(** X10.  In every state a session reaches from a fresh node, a prevote
    or precommit whose voter field is empty once the quotes are dropped
    makes [onMessage] throw: no record is created for an empty voter, and
    the assignment of the flag reads an undefined record. *)
Theorem empty_voter_throws inputs address t0 (s : Node) clock
    (targetNumber : BlockNumber) (targetHash : BlockHash) (message_voter : string) :
  steps inputs (new_Node address t0) = Some s →
  extractVoter message_voter = EmptyString →
  onMessage clock (AfgReceivedPrevote targetNumber targetHash message_voter) s
  = None
  ∧ onMessage clock (AfgReceivedPrecommit targetNumber targetHash message_voter) s
    = None.
Proof.
  intros Hreach Hvoter.
  apply steps_invariants in Hreach as [_ Hne].
  assert (∀ h, read_info h "" (consensusCache s) = None) as Hnone.
  { apply Hne. intros h. done. }
  assert (∀ g (s1 : Node), consensusCache s1 = consensusCache s →
            update_info targetNumber "" g
              (initialiseConsensusView targetNumber (Some EmptyString)
                 (consensusCache s1)) = None) as Hthrow.
  { intros g s1 Hc.
    apply (initialise_then_update_falsy targetNumber (Some EmptyString) g);
      [done|]. rewrite Hc. apply Hnone. }
  assert (∀ message,
            ∃ s1, consensusCache s1 = consensusCache s
                  ∧ match getBestBlock message with
                    | Some update =>
                        updateBestBlock (t_block clock) update
                          (set_lastMessage (t_message clock) s)
                    | None => Some (set_lastMessage (t_message clock) s)
                    end = Some s1) as Hstage.
  { intros message. destruct (getBestBlock message) as [update|];
      [|by exists (set_lastMessage (t_message clock) s)].
    rewrite updateBestBlock_value. eexists. split; [|done].
    destruct (accepts update _); [|done].
    unfold announce_block. by repeat case_match. }
  unfold onMessage, dispatch. split.
  - destruct (Hstage (AfgReceivedPrevote targetNumber targetHash message_voter))
      as (s1 & Hc & ->). simpl.
    rewrite onAfgReceivedPrevote_value, Hvoter. by rewrite Hthrow.
  - destruct (Hstage (AfgReceivedPrecommit targetNumber targetHash message_voter))
      as (s1 & Hc & ->). simpl.
    rewrite onAfgReceivedPrecommit_value, Hvoter. by rewrite Hthrow.
Qed.

(** X22.  No step of the session assigns the stored authority set id: it
    keeps the value it has, 0 on a node that started fresh, and there
    every [afg.authority_set] message with another id emits
    [authority-set-changed]. *)
Theorem authority_set_id_never_stored inputs address t0 (s : Node)
    (id_ : nat) (hash_ : BlockHash) (number_ : BlockNumber) (text : string)
    (list_ : Authorities) :
  steps inputs (new_Node address t0) = Some s →
  id_ ≠ 0 →
  JSON_parse text = Some list_ →
  authoritySetId s = 0
  ∧ ∃ s', onAfgAuthoritySet id_ hash_ number_ text s = Some s'
          ∧ events s'
            = events s ++ [Ev_authority_set_changed list_ id_ number_ hash_]
          ∧ authorities s' = list_
          ∧ authoritySetId s' = 0.
Proof.
  intros Hreach Hid Hparse.
  apply steps_invariants in Hreach as [Hzero _]. simpl in Hzero.
  split; [done|]. unfold onAfgAuthoritySet. rewrite Hparse. simpl.
  rewrite (bool_decide_eq_true_2 (authoritySetId s ≠ id_)) by congruence.
  rewrite orb_true_r. eauto.
Qed.

(** X20.  Disconnected is terminal for the data of the node: once the
    listeners are released, no sequence of steps attaches them again, and
    the cache, the best and finalized blocks, the authority list and the
    time of the last message never change; a socket that was closed and
    terminated stays so. *)
Theorem disconnected_is_terminal inputs (s s' : Node) :
  listeners (socket s) = false →
  steps inputs s = Some s' →
  listeners (socket s') = false
  ∧ consensusCache s' = consensusCache s
  ∧ best s' = best s ∧ finalized s' = finalized s
  ∧ authorities s' = authorities s
  ∧ lastMessage s' = lastMessage s
  ∧ (closed (socket s) = true → closed (socket s') = true)
  ∧ (terminated (socket s) = true → terminated (socket s') = true).
Proof.
  revert s. induction inputs as [|i rest IH]; intros s Hl Hr.
  - by injection Hr as <-.
  - simpl in Hr. destruct (step i s) as [s1|] eqn:Hs; [|done]. simpl in Hr.
    destruct (quiet_step_effects i s s1 Hs)
      as (Hc & _ & Ha & Hb & Hf & Hm & Hl1 & Hcl & Hte); [done|].
    destruct (IH s1 (Hl1 Hl) Hr) as (? & ? & ? & ? & ? & ? & ? & ?).
    repeat split; try congruence; auto.
Qed.

(** X21.  [disconnect] does not cancel the coalescing timer: when one is
    pending on a connected node, a close of the socket followed by the
    timer emits [disconnect] and then [block]. *)
Theorem timer_outlives_disconnect (s : Node) (delay : Z) (rest : list Z) :
  listeners (socket s) = true →
  timers s = delay :: rest →
  ∃ s', steps [SocketClose; TimerFires] s = Some s'
        ∧ events s' = events s ++ [Ev_disconnect; Ev_block]
        ∧ throttle s' = false
        ∧ listeners (socket s') = false.
Proof.
  intros Hl Ht. simpl. rewrite Hl. simpl. rewrite Ht. simpl.
  eexists. split; [done|]. simpl. by rewrite <- app_assoc.
Qed.

(** X24.  Replaying buffered messages on a connected node, as the
    constructor does, is the same as receiving them from the socket one by
    one. *)
Theorem replay_is_live_path inputs (s : Node) :
  listeners (socket s) = true →
  steps (as_notifications inputs) s = onMessages inputs s.
Proof.
  revert s. induction inputs as [|[clock message] rest IH]; intros s Hl; [done|].
  simpl. rewrite Hl.
  destruct (onMessage clock message s) as [s1|] eqn:Hm; [|done]. simpl.
  apply IH. apply onMessage_frame in Hm as []. congruence.
Qed.

End SessionTraces.

Section Liveness.
Context `{Externals}.

(** X14.  A handled message keeps the session alive for one minute: a
    timeout check at most [TIMEOUT] after the clock reading of the message
    sends a ping and emits nothing; a later one disconnects; and a ping
    that cannot be sent disconnects whenever the check is made. *)
Theorem message_keeps_alive clock message (s s1 : Node) (now : Z) (ping_ok : bool) :
  onMessage clock message s = Some s1 →
  ((now ≤ t_message clock + TIMEOUT)%Z → ping_ok = true →
     events (timeoutCheck now ping_ok s1) = events s1
     ∧ socket (timeoutCheck now ping_ok s1)
       = mkSocket (listeners (socket s1)) (closed (socket s1))
           (terminated (socket s1)) (S (pings (socket s1)))
     ∧ pingStart (timeoutCheck now ping_ok s1) = now)
  ∧ ((t_message clock + TIMEOUT < now)%Z ∨ ping_ok = false →
     events (timeoutCheck now ping_ok s1) = events s1 ++ [Ev_disconnect]
     ∧ socket (timeoutCheck now ping_ok s1)
       = mkSocket false true true (pings (socket s1))).
Proof.
  intros Hm. apply onMessage_effects in Hm as (Hl & _).
  unfold timeoutCheck, updateLatency. rewrite Hl. split.
  - intros Hnow ->. by rewrite bool_decide_eq_false_2 by lia.
  - intros [Hlate| ->].
    + by rewrite bool_decide_eq_true_2 by lia.
    + by case_bool_decide.
Qed.

Lemma onMessages_untouched inputs (s s' : Node) :
  onMessages inputs s = Some s' →
  handler_untouched s s' ∧ socket s' = socket s.
Proof.
  revert s. induction inputs as [|[clock message] rest IH]; intros s Hr.
  - injection Hr as <-. by repeat split.
  - simpl in Hr.
    destruct (onMessage clock message s) as [s1|] eqn:Hm; [|done].
    simpl in Hr. destruct (IH _ Hr) as ([] & Hsock).
    pose proof (onMessage_frame _ _ _ _ Hm) as [].
    apply onMessage_effects in Hm as (_ & [] & _).
    split; [split|]; congruence.
Qed.

(** X15.  The latency is the time from the last ping to the pong: after a
    timeout check at [now0] that sends a ping, whatever messages are
    handled in between, a pong at [now1] stores [now1 - now0] and clears
    the ping time; a second pong at [now2], with no ping outstanding,
    stores the clock reading [now2] itself. *)
Theorem ping_pong_latency (s s1 : Node) (now0 now1 now2 : Z)
    (inputs : list (Clock * Message)) :
  listeners (socket s) = true →
  (now0 ≤ lastMessage s + TIMEOUT)%Z →
  onMessages inputs (timeoutCheck now0 true s) = Some s1 →
  ∃ s2 s3,
    step (SocketPong now1) s1 = Some s2
    ∧ latency s2 = (now1 - now0)%Z
    ∧ pingStart s2 = 0%Z
    ∧ step (SocketPong now2) s2 = Some s3
    ∧ latency s3 = now2.
Proof.
  intros Hl Hnow Hm.
  apply onMessages_untouched in Hm as ([_ Hp _] & Hsock).
  unfold timeoutCheck, updateLatency in Hp, Hsock.
  rewrite bool_decide_eq_false_2 in Hp, Hsock by lia. simpl in Hp, Hsock.
  simpl. rewrite Hsock. simpl. rewrite Hl. eexists _, _.
  split; [done|]. simpl. rewrite Hsock. simpl. rewrite Hl, Hp.
  repeat split. simpl. lia.
Qed.

(** ** Block times *)

Lemma rejected_updates_skip updates (s : Node) :
  Forall (λ nu : Z * BestBlock, accepts nu.2 s = false) updates →
  updateBestBlocks updates s = Some s.
Proof.
  induction 1 as [|[now update] rest Hrej _ IH]; [done|]. simpl in *.
  rewrite updateBestBlock_value, Hrej. simpl. exact IH.
Qed.

(** X16.  The block time is measured between applied updates: when an
    update is applied, then some updates are rejected, then another one is
    applied, the stored block time is the difference of the two message
    times (whatever its sign) and the second time becomes the reference. *)
Theorem block_time_between_applied (s s1 s2 : Node) now1 update1 now2 update2
    (rejected : list (Z * BestBlock)) :
  accepts update1 s = true →
  updateBestBlock now1 update1 s = Some s1 →
  Forall (λ nu : Z * BestBlock, accepts nu.2 s1 = false) rejected →
  accepts update2 s1 = true →
  updateBestBlocks (rejected ++ [(now2, update2)]) s1 = Some s2 →
  blockTime s2 = (bb_ts update2 - bb_ts update1)%Z
  ∧ lastBlockAt s2 = Some (bb_ts update2)
  ∧ best s2 = mkBlock (bb_height update2) (bb_best update2).
Proof.
  intros Ha1 Hu1 Hrej Ha2 Hu2.
  apply updateBestBlock_best in Hu1. rewrite Ha1 in Hu1.
  destruct Hu1 as (_ & Hlast & _).
  assert (updateBestBlock now2 update2 s1 = Some s2) as Hu2'.
  { revert Hu2. clear -Hrej. induction Hrej as [|[now u] rest Hr _ IH]; simpl.
    - by destruct (updateBestBlock now2 update2 s1).
    - simpl in Hr. rewrite updateBestBlock_value, Hr. simpl. exact IH. }
  apply updateBestBlock_best in Hu2'. rewrite Ha2 in Hu2'.
  destruct Hu2' as (Hb & Hl & _ & Ht).
  unfold getBlockTime in Ht. rewrite Hlast in Ht. done.
Qed.

(** X17.  The first block of a node is never announced at once: on a
    fresh node an update is applied exactly when its hash is not empty,
    its block time is 0, no [block] event is emitted and the one second
    timer is started. *)
Theorem first_block_is_coalesced address t0 now update :
  accepts update (new_Node address t0)
  = bool_decide (bb_best update ≠ EmptyString)
  ∧ (bb_best update ≠ EmptyString →
     ∃ s', updateBestBlock now update (new_Node address t0) = Some s'
           ∧ best s' = mkBlock (bb_height update) (bb_best update)
           ∧ blockTime s' = 0%Z
           ∧ events s' = []
           ∧ throttle s' = true
           ∧ timers s' = [1000%Z]).
Proof.
  assert (accepts update (new_Node address t0)
          = bool_decide (bb_best update ≠ EmptyString)) as Hacc.
  { unfold accepts.
    change (number (best (new_Node address t0))) with 0.
    change (hash (best (new_Node address t0))) with EmptyString.
    rewrite (bool_decide_eq_true_2 (0 ≤ bb_height update)) by lia.
    rewrite andb_true_r. apply bool_decide_ext. split; congruence. }
  split; [done|]. intros Hhash.
  rewrite updateBestBlock_value, Hacc, bool_decide_eq_true_2 by done.
  eexists. split; [done|]. done.
Qed.

End Liveness.

Section Interval.
Context `{Externals}.

Lemma occurrences_if (e : Event) (b : bool) :
  occurrences e (if b then [e] else []) = if b then 1 else 0.
Proof.
  destruct b; [|done]. unfold occurrences. rewrite filter_cons, filter_nil.
  by rewrite decide_True.
Qed.

(** What each part of [onSystemInterval] does to the counters, the
    trackers and the [stats] and [hardware] events. *)
Lemma interval_network_state_keeps ns (s : Node) :
  let s1 := interval_network_state ns s in
  peers s1 = peers s ∧ txcount s1 = txcount s ∧ events s1 = events s
  ∧ cpu s1 = cpu s ∧ memory s1 = memory s ∧ upload s1 = upload s
  ∧ download s1 = download s ∧ chartstamps s1 = chartstamps s.
Proof. unfold interval_network_state. by repeat case_match. Qed.

Lemma interval_stats_spec p t (s : Node) :
  let s1 := interval_stats p t s in
  peers s1 = p ∧ txcount s1 = t
  ∧ events s1
    = events s ++ (if bool_decide (peers s ≠ p) || bool_decide (txcount s ≠ t)
                   then [Ev_stats] else [])
  ∧ cpu s1 = cpu s ∧ memory s1 = memory s ∧ upload s1 = upload s
  ∧ download s1 = download s ∧ chartstamps s1 = chartstamps s.
Proof.
  unfold interval_stats.
  destruct (bool_decide (peers s ≠ p)) eqn:Hp;
    destruct (bool_decide (txcount s ≠ t)) eqn:Ht; simpl;
    rewrite ?app_nil_r; repeat split; try done.
  - apply bool_decide_eq_false in Hp. by apply dec_stable.
  - apply bool_decide_eq_false in Ht. by apply dec_stable.
Qed.

Lemma interval_finalized_keeps fh fhash (s : Node) :
  let s1 := interval_finalized fh fhash s in
  peers s1 = peers s ∧ txcount s1 = txcount s
  ∧ occurrences Ev_stats (events s1) = occurrences Ev_stats (events s)
  ∧ occurrences Ev_hardware (events s1) = occurrences Ev_hardware (events s)
  ∧ cpu s1 = cpu s ∧ memory s1 = memory s ∧ upload s1 = upload s
  ∧ download s1 = download s ∧ chartstamps s1 = chartstamps s.
Proof.
  unfold interval_finalized.
  repeat case_match; simpl; rewrite ?occurrences_snoc; simpl;
    repeat split; done || lia.
Qed.

Lemma interval_hardware_spec now c m d u (s : Node) :
  let s1 := interval_hardware now c m d u s in
  peers s1 = peers s ∧ txcount s1 = txcount s
  ∧ occurrences Ev_stats (events s1) = occurrences Ev_stats (events s)
  ∧ match c, m with
    | Some c_, Some m_ =>
        cpu s1 = (MeanList_push (cpu s) c_).1
        ∧ memory s1 = (MeanList_push (memory s) m_).1
        ∧ upload s1 = (MeanList_push (upload s) u).1
        ∧ download s1 = (MeanList_push (download s) d).1
        ∧ chartstamps s1 = (MeanList_push (chartstamps s) now).1
        ∧ events s1
          = events s
            ++ (if (MeanList_push (cpu s) c_).2 || (MeanList_push (memory s) m_).2
                   || (MeanList_push (upload s) u).2
                   || (MeanList_push (download s) d).2
                   || (MeanList_push (chartstamps s) now).2
                then [Ev_hardware] else [])
    | _, _ => s1 = s
    end.
Proof.
  unfold interval_hardware. destruct c as [c_|], m as [m_|]; try done.
  destruct (_ || _) eqn:Hany; simpl; rewrite ?occurrences_snoc, ?app_nil_r;
    simpl; repeat split; done || lia.
Qed.

(** The parts of [onSystemInterval] put together, for the counters. *)
Lemma onSystemInterval_stats now ns p t c m d u fh fhash (s : Node) :
  let s' := onSystemInterval now ns p t c m d u fh fhash s in
  peers s' = p ∧ txcount s' = t
  ∧ occurrences Ev_stats (events s')
    = occurrences Ev_stats
        (events s ++ (if bool_decide (peers s ≠ p) || bool_decide (txcount s ≠ t)
                      then [Ev_stats] else [])).
Proof.
  unfold onSystemInterval.
  destruct (interval_network_state_keeps ns s) as (Hn1 & Hn2 & Hn3 & _).
  destruct (interval_stats_spec p t (interval_network_state ns s))
    as (Hs1 & Hs2 & Hs3 & _).
  destruct (interval_finalized_keeps fh fhash
              (interval_stats p t (interval_network_state ns s)))
    as (Hf1 & Hf2 & Hf3 & _).
  destruct (interval_hardware_spec now c m d u
              (interval_finalized fh fhash
                 (interval_stats p t (interval_network_state ns s))))
    as (Hh1 & Hh2 & Hh3 & _).
  cbv zeta in *. rewrite Hh1, Hh2, Hh3, Hf1, Hf2, Hf3, Hs1, Hs2, Hs3.
  by rewrite Hn1, Hn2, Hn3.
Qed.

(** X18.  [onSystemInterval] always stores the reported peers and
    transaction count, and emits [stats] exactly when one of the two
    differs from the stored value. *)
Theorem stats_emitted_on_change now ns p t c m d u fh fhash (s : Node) :
  let s' := onSystemInterval now ns p t c m d u fh fhash s in
  peers s' = p ∧ txcount s' = t
  ∧ occurrences Ev_stats (events s')
    = occurrences Ev_stats (events s)
      + (if bool_decide (peers s ≠ p) || bool_decide (txcount s ≠ t)
         then 1 else 0).
Proof.
  destruct (onSystemInterval_stats now ns p t c m d u fh fhash s)
    as (Hp & Ht & He).
  cbv zeta. rewrite He, occurrences_app, occurrences_if. done.
Qed.

(** X19.  The hardware series need both [cpu] and [memory]: without one
    of them no tracker is pushed and no [hardware] event is emitted, even
    though bandwidth figures are present; with both, all five trackers are
    pushed, and [hardware] is emitted exactly when one push reports a
    change. *)
Theorem hardware_needs_cpu_and_memory now ns p t c m d u fh fhash (s : Node) :
  let s' := onSystemInterval now ns p t c m d u fh fhash s in
  match c, m with
  | Some c_, Some m_ =>
      cpu s' = (MeanList_push (cpu s) c_).1
      ∧ memory s' = (MeanList_push (memory s) m_).1
      ∧ upload s' = (MeanList_push (upload s) u).1
      ∧ download s' = (MeanList_push (download s) d).1
      ∧ chartstamps s' = (MeanList_push (chartstamps s) now).1
      ∧ occurrences Ev_hardware (events s')
        = occurrences Ev_hardware (events s)
          + (if (MeanList_push (cpu s) c_).2 || (MeanList_push (memory s) m_).2
                || (MeanList_push (upload s) u).2
                || (MeanList_push (download s) d).2
                || (MeanList_push (chartstamps s) now).2
             then 1 else 0)
  | _, _ =>
      cpu s' = cpu s ∧ memory s' = memory s ∧ upload s' = upload s
      ∧ download s' = download s ∧ chartstamps s' = chartstamps s
      ∧ occurrences Ev_hardware (events s') = occurrences Ev_hardware (events s)
  end.
Proof.
  unfold onSystemInterval.
  destruct (interval_network_state_keeps ns s)
    as (_ & _ & Hn3 & Hn4 & Hn5 & Hn6 & Hn7 & Hn8).
  destruct (interval_stats_spec p t (interval_network_state ns s))
    as (_ & _ & Hs3 & Hs4 & Hs5 & Hs6 & Hs7 & Hs8).
  destruct (interval_finalized_keeps fh fhash
              (interval_stats p t (interval_network_state ns s)))
    as (_ & _ & _ & Hf3 & Hf4 & Hf5 & Hf6 & Hf7 & Hf8).
  pose proof (interval_hardware_spec now c m d u
                (interval_finalized fh fhash
                   (interval_stats p t (interval_network_state ns s))))
    as (_ & _ & _ & Hh).
  cbv zeta in *.
  assert (occurrences Ev_hardware
            (events (interval_finalized fh fhash
                       (interval_stats p t (interval_network_state ns s))))
          = occurrences Ev_hardware (events s)) as Hev.
  { rewrite Hf3, Hs3, Hn3, occurrences_app.
    destruct (_ || _); simpl; unfold occurrences; simpl; lia. }
  destruct c as [c_|], m as [m_|];
    try (rewrite Hh; repeat split; congruence).
  destruct Hh as (-> & -> & -> & -> & -> & ->).
  rewrite Hf4, Hf5, Hf6, Hf7, Hf8, Hs4, Hs5, Hs6, Hs7, Hs8.
  rewrite Hn4, Hn5, Hn6, Hn7, Hn8.
  repeat split. by rewrite occurrences_app, Hev, occurrences_if.
Qed.

(** X29.  A [system.interval] message handled a second time, right after
    the first, emits neither [stats] nor [finalized] and leaves the
    counters and the finalized block as the first left them. *)
Theorem interval_repeated now now' ns p t c m d u fh fhash (s : Node) :
  let s1 := onSystemInterval now ns p t c m d u fh fhash s in
  let s2 := onSystemInterval now' ns p t c m d u fh fhash s1 in
  occurrences Ev_stats (events s2) = occurrences Ev_stats (events s1)
  ∧ occurrences Ev_finalized (events s2) = occurrences Ev_finalized (events s1)
  ∧ peers s2 = peers s1 ∧ txcount s2 = txcount s1
  ∧ finalized s2 = finalized s1.
Proof.
  intros s1 s2.
  destruct (onSystemInterval_stats now ns p t c m d u fh fhash s)
    as (Hp1 & Ht1 & _).
  destruct (onSystemInterval_stats now' ns p t c m d u fh fhash s1)
    as (Hp2 & Ht2 & He2).
  destruct (onSystemInterval_finalized now ns p t c m d u fh fhash s)
    as [Hf1 _].
  destruct (onSystemInterval_finalized now' ns p t c m d u fh fhash s1)
    as [Hf2 Hfe2].
  fold s1 in Hp1, Ht1, Hf1. fold s2 in Hp2, Ht2, He2, Hf2, Hfe2.
  assert (replaces_finalized fh fhash s1 = false) as Hrep.
  { unfold replaces_finalized in *. destruct fh as [fin|], fhash as [fh_|];
      try done. rewrite Hf1. apply bool_decide_eq_false.
    destruct (bool_decide (number (finalized s) < fin)) eqn:Hb; simpl; [lia|].
    apply bool_decide_eq_false in Hb. lia. }
  rewrite Hrep in Hf2, Hfe2. rewrite He2, Hp1, Ht1.
  rewrite !bool_decide_eq_false_2 by (intros Hne; by apply Hne). simpl.
  rewrite app_nil_r. repeat split; congruence || lia.
Qed.

End Interval.

(** ** The handshake *)

Lemma last_n_all {A} n (l : list A) : length l ≤ n → last_n n l = l.
Proof.
  intros Hle. unfold last_n. by replace (length l - n) with 0 by lia.
Qed.

Lemma last_n_length {A} n (l : list A) : length (last_n n l) = min n (length l).
Proof. unfold last_n. rewrite length_drop. lia. Qed.

(** The buffer after one more message: the last ten of what was kept and
    the new message. *)
Lemma buffer_push (buffer rest : list Message) (m : Message) :
  length buffer ≤ 10 →
  last_n 10 (((if decide (length buffer = 10) then tail buffer else buffer)
              ++ [m]) ++ rest)
  = last_n 10 (buffer ++ m :: rest)
  ∧ length ((if decide (length buffer = 10) then tail buffer else buffer) ++ [m])
    ≤ 10.
Proof.
  intros Hle. case_decide as Hten.
  - destruct buffer as [|x buffer]; [done|]. simpl in *.
    rewrite length_app. simpl. split; [|lia].
    unfold last_n. rewrite <- !app_assoc. simpl.
    rewrite !length_app. simpl.
    replace (length buffer + S (length rest) - 10) with (length rest) by lia.
    replace (length buffer + S (length rest) - 9) with (S (length rest))
      by lia.
    done.
  - rewrite length_app. simpl. split; [|lia]. by rewrite <- app_assoc.
Qed.

(** While the node is awaited, the buffer is the last ten messages. *)
Lemma handshake_buffering (frames : list Frame) (buffer : list Message) :
  length buffer ≤ 10 →
  Forall (λ f, is_connected f = false) frames →
  handshake_run (HsData <$> frames)
    (mkHandshake buffer true true None false false)
  = mkHandshake (last_n 10 (buffer ++ payloads frames)) true true None false false.
Proof.
  intros Hle Hframes. revert buffer Hle.
  induction Hframes as [|f frames Hf _ IH]; intros buffer Hle.
  - simpl. by rewrite app_nil_r, last_n_all.
  - destruct f as [|pk auth|m]; [|done|].
    + simpl. by apply IH.
    + cbn [fmap list_fmap handshake_run foldl handshake_step hs_listening
           handshake_handler hs_messages hs_timer hs_outcome hs_closed
           hs_terminated].
      destruct (buffer_push buffer (payloads frames) m Hle) as [Heq Hlen].
      unfold handshake_run in IH. rewrite IH by done.
      by rewrite Heq.
Qed.

(** A settled handshake ignores everything. *)
Lemma handshake_settled inputs (h : Handshake) :
  hs_listening h = false → hs_timer h = false → handshake_run inputs h = h.
Proof.
  intros Hl Ht. induction inputs as [|i rest IH]; [done|].
  simpl. destruct i; simpl; by rewrite ?Hl, ?Ht.
Qed.

(** X25.  The handshake resolves on the first [system.connected]: the
    promise is resolved with the pubkey, with the authority flag exactly
    when the field is [true], and with the last ten messages that arrived
    before it, in order; the listener and the timer are released, and
    whatever arrives or fires afterwards changes nothing. *)
Theorem handshake_resolves (before : list Frame) pubkey authority
    (after : list HandshakeInput) :
  Forall (λ f, is_connected f = false) before →
  handshake_run ((HsData <$> before)
                 ++ HsData (SystemConnected pubkey authority) :: after)
    handshake_start
  = mkHandshake (last_n 10 (payloads before)) false false
      (Some (Resolved pubkey (bool_decide (authority = Some true))
               (last_n 10 (payloads before))))
      false false.
Proof.
  intros Hbefore. unfold handshake_run. rewrite foldl_app.
  fold (handshake_run (HsData <$> before) handshake_start).
  unfold handshake_start. rewrite handshake_buffering by (done || simpl; lia).
  simpl. by apply handshake_settled.
Qed.

(** X26.  When the timer fires before any [system.connected], the promise
    is rejected, the socket is closed and terminated, and whatever arrives
    afterwards, a [system.connected] included, changes nothing. *)
Theorem handshake_times_out (before : list Frame) (after : list HandshakeInput) :
  Forall (λ f, is_connected f = false) before →
  handshake_run ((HsData <$> before) ++ HsTimer :: after) handshake_start
  = mkHandshake (last_n 10 (payloads before)) false false (Some Rejected)
      true true.
Proof.
  intros Hbefore. unfold handshake_run. rewrite foldl_app.
  fold (handshake_run (HsData <$> before) handshake_start).
  unfold handshake_start. rewrite handshake_buffering by (done || simpl; lia).
  simpl. by apply handshake_settled.
Qed.

(** X27.  Whatever the handshake receives, it never buffers more than ten
    messages, and the promise, once settled, stays as it is. *)
Theorem handshake_buffer_bounded (inputs more : list HandshakeInput) :
  length (hs_messages (handshake_run inputs handshake_start)) ≤ 10
  ∧ (is_Some (hs_outcome (handshake_run inputs handshake_start)) →
     handshake_run (inputs ++ more) handshake_start
     = handshake_run inputs handshake_start).
Proof.
  assert (∀ h, length (hs_messages h) ≤ 10
               ∧ (is_Some (hs_outcome h) →
                  hs_listening h = false ∧ hs_timer h = false) →
            ∀ i, length (hs_messages (handshake_step i h)) ≤ 10
                 ∧ (is_Some (hs_outcome (handshake_step i h)) →
                    hs_listening (handshake_step i h) = false
                    ∧ hs_timer (handshake_step i h) = false)) as Hstep.
  { intros h [Hlen Hset] i. unfold handshake_step.
    destruct i as [f|].
    - destruct (hs_listening h) eqn:Hl; [|by rewrite Hl].
      destruct f as [|pk auth|m]; simpl.
      + rewrite Hl. split; [done|]. intros Hs. by destruct (Hset Hs).
      + done.
      + split; [by apply (buffer_push _ [] m)|].
        intros Hs. destruct (Hset Hs). congruence.
    - destruct (hs_timer h) eqn:Ht; [done|]. by rewrite Ht. }
  assert (∀ l h, length (hs_messages h) ≤ 10
                 ∧ (is_Some (hs_outcome h) →
                    hs_listening h = false ∧ hs_timer h = false) →
            length (hs_messages (handshake_run l h)) ≤ 10
            ∧ (is_Some (hs_outcome (handshake_run l h)) →
               hs_listening (handshake_run l h) = false
               ∧ hs_timer (handshake_run l h) = false)) as Hrun.
  { induction l as [|i l IH]; intros h Hinv; [done|].
    simpl. apply IH. by apply Hstep. }
  destruct (Hrun inputs handshake_start) as [Hlen Hset].
  { split; [simpl; lia|]. by intros [? ?]. }
  split; [done|]. intros Hsome. destruct (Hset Hsome) as [Hl Ht].
  unfold handshake_run. rewrite foldl_app. by apply handshake_settled.
Qed.

(** ** The further properties on concrete sessions *)

Section MoreConcrete.
#[local] Existing Instance sample2.

Lemma votes_recorded_witness :
  extractVoter "V" ≠ EmptyString
  ∧ inherited (extractVoter "V") (consensusCache voted_node) = None
  ∧ ∃ s', onAfgReceivedPrevote 104 "V" voted_node = Some s'
          ∧ events s' = events voted_node ++ [Ev_consensus_info].
Proof.
  assert (extractVoter "V" ≠ EmptyString) as Hv by (vm_compute; discriminate).
  split; [exact Hv|]. split; [reflexivity|].
  destruct (votes_recorded 104 "V" voted_node Hv eq_refl)
    as [(s' & Hs & He & _) _].
  eauto.
Defined.

Lemma inherited_voter_leaves_no_record_witness :
  read_info 5 (extractVoter "constructor") (consensusCache node0) = None
  ∧ inherited (extractVoter "constructor") (consensusCache node0)
    = Some BuiltinMember
  ∧ ∃ s', onAfgReceivedPrevote 5 "constructor" node0 = Some s'
          ∧ read_info 5 "constructor" (consensusCache s') = None
          ∧ builtin_fields (consensusCache s') !! "constructor"%string
            = Some (set_Prevote emptyInfo).
Proof.
  split; [reflexivity|]. split; [reflexivity|].
  destruct (inherited_voter_leaves_no_record false 5 "constructor" node0
              BuiltinMember eq_refl eq_refl)
    as (s' & Hs & _ & _ & Hsame & Hb & _).
  exists s'. split; [exact Hs|]. split; [by rewrite Hsame|]. exact Hb.
Defined.

(** A prevote under the name [__proto__] sets [Prevote] on the prototype;
    a voter named Prevote then gets no record, and the assignment of its
    flag throws. *)
Example vote_after_prototype_write :
  onAfgReceivedPrevote 5 "__proto__" node0 = Some after_proto_vote
  ∧ prototype_fields (consensusCache after_proto_vote) = set_Prevote emptyInfo
  ∧ inherited "Prevote" (consensusCache after_proto_vote) = Some StoredValue
  ∧ update_info 6 "Prevote" set_Prevote
      (initialiseConsensusView 6 (Some "Prevote"%string)
         (consensusCache after_proto_vote)) = None
  ∧ onAfgReceivedPrevote 6 "Prevote" after_proto_vote = None.
Proof. repeat split; vm_compute; reflexivity. Qed.

Lemma empty_voter_throws_witness :
  steps interval_inputs node0 = Some after_interval
  ∧ extractVoter empty_quoted = EmptyString
  ∧ onMessage (clock_at 9) (AfgReceivedPrevote 5 "0xabc" empty_quoted)
      after_interval = None.
Proof.
  assert (steps interval_inputs node0 = Some after_interval) as Hs
    by (vm_compute; reflexivity).
  assert (extractVoter empty_quoted = EmptyString) as Hv
    by (vm_compute; reflexivity).
  split; [exact Hs|]. split; [exact Hv|].
  exact (proj1 (empty_voter_throws interval_inputs (Some "N"%string) 0
                  after_interval (clock_at 9) 5 "0xabc" empty_quoted Hs Hv)).
Defined.

Lemma finalized_recorded_witness :
  truthy (address voted_node) = true
  ∧ inherited (String_of (address voted_node)) (consensusCache voted_node) = None
  ∧ ∃ s', onAfgFinalized 105 "0xdef" voted_node = Some s'
          ∧ events s' = events voted_node ++ [Ev_consensus_info].
Proof.
  split; [reflexivity|]. split; [reflexivity|].
  destruct (finalized_recorded 105 "0xdef" voted_node eq_refl eq_refl)
    as (s' & info' & Hs & He & _).
  eauto.
Defined.

Lemma notify_finalized_recorded_witness :
  truthy (address voted_node) = true
  ∧ inherited (String_of (address voted_node)) (consensusCache voted_node) = None
  ∧ ∃ s', onNotifyFinalized "0xdef" 105 voted_node = Some s'
          ∧ events s' = events voted_node ++ [Ev_consensus_info].
Proof.
  split; [reflexivity|]. split; [reflexivity|].
  destruct (notify_finalized_recorded "0xdef" 105 voted_node eq_refl eq_refl)
    as (s' & info' & Hs & He & _).
  eauto.
Defined.

Lemma finalized_handlers_throw_without_address_witness :
  truthy (address anonymous_node) = false
  ∧ onNotifyFinalized "0xdef" 105 anonymous_node = None
  ∧ onAfgFinalized 105 "0xdef" anonymous_node = None.
Proof.
  split; [reflexivity|].
  apply finalized_handlers_throw_without_address; reflexivity.
Defined.

Lemma message_keeps_alive_witness :
  onMessage (clock_at 1000) (OtherMessage "system.unknown" None) node0
  = Some after_idle
  ∧ events (timeoutCheck 61000 true after_idle) = events after_idle
  ∧ events (timeoutCheck 61001 true after_idle)
    = events after_idle ++ [Ev_disconnect].
Proof.
  assert (onMessage (clock_at 1000) (OtherMessage "system.unknown" None) node0
          = Some after_idle) as Hm by (vm_compute; reflexivity).
  split; [exact Hm|]. split.
  - apply (proj1 (message_keeps_alive _ _ _ _ 61000%Z true Hm));
      [vm_compute; discriminate|reflexivity].
  - apply (proj2 (message_keeps_alive _ _ _ _ 61001%Z true Hm)).
    left. vm_compute. reflexivity.
Defined.

Lemma ping_pong_latency_witness :
  onMessages [prevote_at 12 1] (timeoutCheck 10 true node0) = Some after_ping
  ∧ ∃ s2 s3,
      step (SocketPong 25) after_ping = Some s2
      ∧ latency s2 = (25 - 10)%Z
      ∧ pingStart s2 = 0%Z
      ∧ step (SocketPong 40) s2 = Some s3
      ∧ latency s3 = 40%Z.
Proof.
  assert (onMessages [prevote_at 12 1] (timeoutCheck 10 true node0)
          = Some after_ping) as Hm by (vm_compute; reflexivity).
  split; [exact Hm|].
  apply (ping_pong_latency node0 after_ping 10 25 40 [prevote_at 12 1]);
    [reflexivity|vm_compute; discriminate|exact Hm].
Defined.

Lemma block_time_between_applied_witness :
  updateBestBlock 1001 first_block node0 = Some after_first_block
  ∧ updateBestBlocks [block_at 1 1500 "0x01"; (7001%Z, second_block)]
      after_first_block = Some after_second_block
  ∧ blockTime after_second_block = (7000 - 1000)%Z.
Proof.
  assert (updateBestBlock 1001 first_block node0 = Some after_first_block)
    as H1 by (vm_compute; reflexivity).
  assert (updateBestBlocks [block_at 1 1500 "0x01"; (7001%Z, second_block)]
            after_first_block = Some after_second_block)
    as H2 by (vm_compute; reflexivity).
  split; [exact H1|]. split; [exact H2|].
  refine (proj1 (block_time_between_applied node0 after_first_block
                   after_second_block 1001 first_block 7001 second_block
                   [block_at 1 1500 "0x01"] _ H1 _ _ H2)).
  - vm_compute. reflexivity.
  - constructor; [vm_compute; reflexivity|constructor].
  - vm_compute. reflexivity.
Defined.

Lemma disconnected_is_terminal_witness :
  listeners (socket (disconnect voted_node)) = false
  ∧ steps late_inputs (disconnect voted_node) = Some after_late_inputs
  ∧ consensusCache after_late_inputs = consensusCache (disconnect voted_node).
Proof.
  assert (steps late_inputs (disconnect voted_node) = Some after_late_inputs)
    as Hs by (vm_compute; reflexivity).
  split; [reflexivity|]. split; [exact Hs|].
  exact (proj1 (proj2 (disconnected_is_terminal late_inputs
                         (disconnect voted_node) after_late_inputs eq_refl Hs))).
Defined.

Lemma timer_outlives_disconnect_witness :
  listeners (socket after_burst) = true
  ∧ timers after_burst = [1000%Z]
  ∧ ∃ s', steps [SocketClose; TimerFires] after_burst = Some s'
          ∧ events s' = events after_burst ++ [Ev_disconnect; Ev_block].
Proof.
  assert (listeners (socket after_burst) = true) as Hl
    by (vm_compute; reflexivity).
  assert (timers after_burst = [1000%Z]) as Ht by (vm_compute; reflexivity).
  split; [exact Hl|]. split; [exact Ht|].
  destruct (timer_outlives_disconnect after_burst 1000 [] Hl Ht)
    as (s' & Hs & He & _).
  eauto.
Defined.

Lemma authority_set_id_never_stored_witness :
  steps interval_inputs node0 = Some after_interval
  ∧ JSON_parse one_authority = Some ["5Grw"%string]
  ∧ authoritySetId after_interval = 0.
Proof.
  assert (steps interval_inputs node0 = Some after_interval) as Hs
    by (vm_compute; reflexivity).
  assert (JSON_parse one_authority = Some ["5Grw"%string]) as Hp
    by (vm_compute; reflexivity).
  split; [exact Hs|]. split; [exact Hp|].
  refine (proj1 (authority_set_id_never_stored interval_inputs
                   (Some "N"%string) 0 after_interval 1 "0xa7" 7 one_authority
                   ["5Grw"%string] Hs _ Hp)).
  lia.
Defined.

Lemma consensus_info_once_witness :
  onMessage (clock_at 1) (AfgReceivedPrecommit 103 "0xabc" "V") voted_node
  = Some after_precommit
  ∧ occurrences Ev_consensus_info (events after_precommit)
    = occurrences Ev_consensus_info (events voted_node) + 1.
Proof.
  assert (onMessage (clock_at 1) (AfgReceivedPrecommit 103 "0xabc" "V")
            voted_node = Some after_precommit) as Hm
    by (vm_compute; reflexivity).
  split; [exact Hm|]. exact (consensus_info_once _ _ _ _ Hm).
Defined.

Lemma explicit_flags_kept_witness :
  onMessage (clock_at 1) (AfgReceivedPrecommit 103 "0xabc" "V") voted_node
  = Some after_precommit
  ∧ explicit_le (set_Prevote emptyInfo) (set_Precommit (set_Prevote emptyInfo)).
Proof.
  assert (onMessage (clock_at 1) (AfgReceivedPrecommit 103 "0xabc" "V")
            voted_node = Some after_precommit) as Hm
    by (vm_compute; reflexivity).
  split; [exact Hm|].
  refine (explicit_flags_kept _ _ voted_node after_precommit 103 "V"%string
            _ _ Hm _ _); vm_compute; reflexivity.
Defined.

Lemma replay_is_live_path_witness :
  listeners (socket node0) = true
  ∧ steps (as_notifications [prevote_at 1 1; prevote_at 2 2]) node0
    = onMessages [prevote_at 1 1; prevote_at 2 2] node0.
Proof.
  split; [reflexivity|]. by apply replay_is_live_path.
Defined.

End MoreConcrete.

Lemma handshake_resolves_witness :
  Forall (λ f, is_connected f = false) early_frames
  ∧ hs_outcome
      (handshake_run
         ((HsData <$> early_frames)
          ++ HsData (SystemConnected (Some "N"%string) (Some true))
             :: [HsTimer; HsData (SystemConnected None None)])
         handshake_start)
    = Some (Resolved (Some "N"%string) true
              [OtherMessage "block.import" None; NotifyFinalized "0xf1" 1]).
Proof.
  assert (Forall (λ f, is_connected f = false) early_frames) as Hf
    by (repeat constructor).
  split; [exact Hf|].
  by rewrite (handshake_resolves early_frames (Some "N"%string) (Some true)
                [HsTimer; HsData (SystemConnected None None)] Hf).
Defined.

Lemma handshake_times_out_witness :
  Forall (λ f, is_connected f = false) early_frames
  ∧ hs_outcome
      (handshake_run
         ((HsData <$> early_frames)
          ++ HsTimer :: [HsData (SystemConnected None None)])
         handshake_start)
    = Some Rejected.
Proof.
  assert (Forall (λ f, is_connected f = false) early_frames) as Hf
    by (repeat constructor).
  split; [exact Hf|].
  by rewrite (handshake_times_out early_frames
                [HsData (SystemConnected None None)] Hf).
Defined.
